(** * The computed-column formula evaluator: [jamovi/server/compute/nodes.py]

    A shallow embedding of the node classes of [nodes.py] (Num, Str, UnaryOp,
    BoolOp, Call, BinOp, Compare) over an explicit object store, and the
    properties of their evaluation, typing, level discovery, construction and
    release.

    Python objects have identity and mutable fields, and [Call.__init__]
    shares one argument list between several nodes, so nodes live in a store
    indexed by object identity and Python lists that are mutated live in a
    store of their own.  A method call [child.m(...)] is dynamic dispatch on
    the class of [child]: every method of a class is written once, with the
    methods of its children as parameters, and the dispatchers at the end of
    the definitions tie the knot by recursion on a fuel. *)

From Stdlib Require Import ZArith String PrimFloat.
From stdpp Require Import gmap strings list.

(** ** Python scalars, type objects and exceptions *)

(** The type objects [int], [float] and [str] handed to [convert] and
    [get_missing]. *)
Inductive pytype := TInt | TFloat | TStr.

(** The scalars that flow through the evaluator: Python integers (unbounded),
    floats (IEEE binary64), strings, and the labelled values [(code, label)]
    the code recognises with [isinstance(v, tuple)]. *)
Inductive value :=
| VInt (n : Z)
| VFloat (f : float)
| VStr (s : string)
| VTuple (code : Z) (label : string).

Inductive exn :=
| RuntimeError (msg : string)
| NameError (msg : string)
| ZeroDivisionError
| TypeError
| ValueError
| IndexError
| AttributeError
| OverflowError.

(** Outcome of a call: a result, a raised exception, or one of the two ways
    the model itself can give up (a recursion deeper than the fuel, an object
    identity that the store does not hold). *)
Inductive res (A : Type) :=
| Ok (a : A)
| Raise (e : exn)
| NoFuel
| Dangling.
Arguments Ok {A} a.
Arguments Raise {A} e.
Arguments NoFuel {A}.
Arguments Dangling {A}.

(** The operator classes of Python's [ast] module.  The [op] field of a node
    is untyped in Python, so one type holds them all. *)
Module ast.
Inductive operator :=
| And | Or
| Add | Sub | Mult | MatMult | Div | Mod | Pow
| LShift | RShift | BitOr | BitXor | BitAnd | FloorDiv
| Invert | Not | UAdd | USub
| Eq | NotEq | Lt | LtE | Gt | GtE | Is | IsNot | In | NotIn.
End ast.

(** Modelled from the spec: [jamovi.core.DataType] (Glossary: integer,
    decimal, text); the enumeration is imported, not defined, by nodes.py. *)
Module DataType.
Inductive t := INTEGER | DECIMAL | TEXT.
#[global] Instance eq_dec : EqDecision t.
Proof. solve_decision. Defined.
End DataType.

(** Modelled from the spec: [jamovi.core.MeasureType] (Glossary: continuous,
    ordinal, nominal, identifier). *)
Module MeasureType.
Inductive t := NOMINAL | ORDINAL | CONTINUOUS | ID.
#[global] Instance eq_dec : EqDecision t.
Proof. solve_decision. Defined.
End MeasureType.

(** Identity of a node object and of a Python list object. *)
Definition oid := nat.
Definition lid := nat.

(** ** The function registry *)

(** An argument handed to a registry function: a scalar (row-wise call), or
    (whole-column call) the generator
    [(convert(v, arg_type) for v in FValues(node, row_count, filt))], which
    evaluates a row of [node] when it is asked for its next item and not
    before. *)
Inductive pyarg :=
| AVal (v : value)
| AGen (node : oid) (row_count : Z) (filt : bool) (arg_type : option pytype).

(** A function at work on generators: it returns or raises, or it asks the
    generator at position [i] of its arguments for the next item and goes on
    with the answer, which is the item or, once the generator is exhausted,
    [None] (StopIteration).  The functions read the generators and do
    nothing else to them: an exception raised while a row is evaluated
    leaves through the function, which handles none. *)
Inductive reader :=
| Return (r : res value)
| Next (i : nat) (k : option value -> reader).

(** [inspect.Parameter.default], as far as [Call.__init__] looks at it: a
    function object (known by its [__name__]) or anything else. *)
Inductive default :=
| DefaultFunction (name : string)
| DefaultOther.

Record Param := {
  annotation : option pytype;   (* None: Parameter.empty *)
  default_ : default;
}.

Record Meta := {
  is_row_wise : bool;
  is_column_wise : bool;
  d_type : DataType.t;
  m_type : MeasureType.t;
  returns : list nat;
  arg_level_indices : list nat;
}.

Record pyfunc := {
  __name__ : string;
  parameters : list Param;             (* signature(f).parameters, in order *)
  meta : Meta;
  body : list pyarg -> res value;       (* the function called on scalars *)
  column_body : list pyarg -> reader;   (* the function called on generators *)
}.

(** ** What nodes.py imports

    [convert], [is_missing] and [get_missing] come from [..utils], the
    registry from [.functions]; neither module is part of the sources at
    hand, so they are parameters.  So are the parts of Python's arithmetic
    and comparison that are not written out below (floats, mixed operands),
    and the dataset behind the value-source leaves. *)
Class Runtime := {
  convert : value -> option pytype -> value;
  is_missing : value -> bool;
  get_missing : option pytype -> value;
  functions : string -> option pyfunc;      (* hasattr / getattr(functions, name) *)
  float_of_int : Z -> res float;            (* float(n) *)
  float_of_str : string -> res float;       (* float(s) *)
  isclose : float -> float -> bool;         (* math.isclose *)
  host_arith : ast.operator -> value -> value -> res value;
  host_compare : ast.operator -> value -> value -> res bool;
  source_value : string -> Z -> Z -> bool -> res value;
  source_data_type : string -> DataType.t;
  source_measure_type : string -> MeasureType.t;
  source_has_levels : string -> bool;
  source_levels : string -> Z -> list (Z * string);
}.

(** ** Python's operators on scalars *)

(** [v[0]] where the code has tested [isinstance(v, tuple)]. *)
Definition item0 (v : value) : value :=
  match v with
  | VTuple code _ => VInt code
  | _ => v
  end.

(** Truth value of a scalar; [not v] is its negation. *)
Definition py_bool (v : value) : bool :=
  match v with
  | VInt n => negb (n =? 0)%Z
  | VFloat f => negb (PrimFloat.eqb f PrimFloat.zero)
  | VStr s => negb (String.eqb s "")
  | VTuple _ _ => true
  end.

(** Unary minus. *)
Definition py_neg (v : value) : res value :=
  match v with
  | VInt n => Ok (VInt (- n))
  | VFloat f => Ok (VFloat (PrimFloat.opp f))
  | VStr _ | VTuple _ _ => Raise TypeError
  end.

Section Scalars.
Context `{Runtime}.

(** [float(v)] *)
Definition py_float (v : value) : res float :=
  match v with
  | VFloat f => Ok f
  | VInt n => float_of_int n
  | VStr s => float_of_str s
  | VTuple _ _ => Raise TypeError
  end.

(** [a op b] for the arithmetic operators.  Integer and text operands are
    written out; every other combination is the host's. *)
Definition py_arith (op : ast.operator) (a b : value) : res value :=
  match op, a, b with
  | ast.Add, VInt x, VInt y => Ok (VInt (x + y))
  | ast.Add, VStr x, VStr y => Ok (VStr (x ++ y))
  | ast.Sub, VInt x, VInt y => Ok (VInt (x - y))
  | ast.Sub, VStr _, VStr _ => Raise TypeError
  | ast.Mult, VInt x, VInt y => Ok (VInt (x * y))
  | ast.Mult, VStr _, VStr _ => Raise TypeError
  | ast.Div, VInt x, VInt y =>
      if (y =? 0)%Z then Raise ZeroDivisionError else host_arith op a b
  | ast.Div, VStr _, VStr _ => Raise TypeError
  | ast.Mod, VInt x, VInt y =>
      if (y =? 0)%Z then Raise ZeroDivisionError else Ok (VInt (x `mod` y))
  | ast.Pow, VInt x, VInt y =>
      if (0 <=? y)%Z then Ok (VInt (x ^ y))
      else if (x =? 0)%Z then Raise ZeroDivisionError
      else host_arith op a b
  | ast.Pow, VStr _, VStr _ => Raise TypeError
  | _, _, _ => host_arith op a b
  end.

(** [a == b] on operands neither of which is a float (the code sends floats
    to [math.isclose]). *)
Definition py_eq (a b : value) : res bool :=
  match a, b with
  | VInt x, VInt y => Ok (x =? y)%Z
  | VStr x, VStr y => Ok (String.eqb x y)
  | VTuple x s, VTuple y t => Ok ((x =? y)%Z && String.eqb s t)
  | VFloat _, _ | _, VFloat _ => host_compare ast.Eq a b
  | _, _ => Ok false
  end.

(** [a < b], [a > b], [a >= b], [a <= b] *)
Definition py_order (op : ast.operator) (a b : value) : res bool :=
  match a, b with
  | VInt x, VInt y =>
      match op with
      | ast.Lt => Ok (x <? y)%Z
      | ast.Gt => Ok (y <? x)%Z
      | ast.GtE => Ok (y <=? x)%Z
      | ast.LtE => Ok (x <=? y)%Z
      | _ => host_compare op a b
      end
  | VStr x, VStr y =>
      match op with
      | ast.Lt => Ok (String.ltb x y)
      | ast.Gt => Ok (String.ltb y x)
      | ast.GtE => Ok (String.leb y x)
      | ast.LtE => Ok (String.leb x y)
      | _ => host_compare op a b
      end
  | VFloat x, VFloat y =>
      match op with
      | ast.Lt => Ok (PrimFloat.ltb x y)
      | ast.Gt => Ok (PrimFloat.ltb y x)
      | ast.GtE => Ok (PrimFloat.leb y x)
      | ast.LtE => Ok (PrimFloat.leb x y)
      | _ => host_compare op a b
      end
  | VStr _, (VInt _ | VFloat _ | VTuple _ _)
  | (VInt _ | VFloat _ | VTuple _ _), VStr _ => Raise TypeError
  | _, _ => host_compare op a b
  end.

End Scalars.

(** ** The object store *)


(** The instance fields of a [Call] node.  [args] names a list object:
    [Call.__init__] appends to it and hands one list to several nodes. *)
Record CallFields := {
  _function : pyfunc;
  args : lid;
  _arg_types : list (option pytype);
  _cached_value : option value;          (* None: no memoized value *)
  _d_type : option DataType.t;
  _m_type : option MeasureType.t;
}.

(** Modelled from the spec: the value-source leaf (spec 2, "a column/value
    source leaf variant is required but is supplied by the excluded parser
    layer"; spec 6, "Value source").  It names a column of the dataset; its
    value at a row, its data type, measure type and levels are the
    runtime's [source_value], [source_data_type], [source_measure_type],
    [source_has_levels] and [source_levels]. *)
Record SourceFields := {
  column : string;
}.

(** The node classes of nodes.py, children by identity, and the column
    leaf. *)
Inductive node :=
| Num (n : value)
| Str (s : string)
| UnaryOp (op : ast.operator) (operand : oid)
| BoolOp (op : ast.operator) (values : list oid)
| Call (c : CallFields)
| BinOp (left : oid) (op : ast.operator) (right : oid)
| Compare (left : oid) (ops : list ast.operator) (comparators : list oid)
| Source (s : SourceFields).

(** An object: its class with the class's fields, and the field every
    [Node] has. *)
Record object := {
  class_ : node;
  _node_parents : list oid;
}.

(** Ghost record of what evaluation did to the world outside the nodes:
    registry functions invoked, dataset cells fetched, recalculation
    notifications delivered. *)
Inductive event :=
| Invoked (self : oid) (arguments : list pyarg)
| Fetched (self : oid) (index : Z)
| Notified (self : oid).

Record heap := {
  objects : gmap oid object;
  lists : gmap lid (list oid);
  next_oid : oid;
  next_lid : lid;
  trace : list event;
}.

Definition set_objects (f : gmap oid object -> gmap oid object) (h : heap) : heap :=
  {| objects := f (objects h); lists := lists h;
     next_oid := next_oid h; next_lid := next_lid h; trace := trace h |}.

Definition set_lists (f : gmap lid (list oid) -> gmap lid (list oid)) (h : heap) : heap :=
  {| objects := objects h; lists := f (lists h);
     next_oid := next_oid h; next_lid := next_lid h; trace := trace h |}.

Definition set_trace (f : list event -> list event) (h : heap) : heap :=
  {| objects := objects h; lists := lists h;
     next_oid := next_oid h; next_lid := next_lid h; trace := f (trace h) |}.

(** ** Computations over the store *)

Definition M (A : Type) : Type := heap -> res A * heap.

#[global] Instance M_ret : MRet M := fun A a h => (Ok a, h).

#[global] Instance M_bind : MBind M := fun A B f m h =>
  match m h with
  | (Ok a, h') => f a h'
  | (Raise e, h') => (Raise e, h')
  | (NoFuel, h') => (NoFuel, h')
  | (Dangling, h') => (Dangling, h')
  end.

Definition lift {A} (r : res A) : M A := fun h => (r, h).
Definition raise {A} (e : exn) : M A := lift (Raise e).
Definition modify (f : heap -> heap) : M unit := fun h => (Ok tt, f h).
Definition log (e : event) : M unit := modify (set_trace (fun t => t ++ [e])).

Definition deref (self : oid) : M object := fun h =>
  match objects h !! self with
  | Some o => (Ok o, h)
  | None => (Dangling, h)
  end.

Definition read_list (l : lid) : M (list oid) := fun h =>
  match lists h !! l with
  | Some a => (Ok a, h)
  | None => (Dangling, h)
  end.

(** [a[i]] *)
Definition list_item {A} (a : list A) (i : nat) : M A :=
  match a !! i with
  | Some x => mret x
  | None => raise IndexError
  end.

(** The fields of [self], which must be a [Call]. *)
Definition call_fields (self : oid) : M CallFields :=
  o ← deref self;
  match class_ o with
  | Call c => mret c
  | _ => raise AttributeError
  end.

Definition update_call (f : CallFields -> CallFields) (self : oid) : M unit :=
  o ← deref self;
  match class_ o with
  | Call c =>
      modify (set_objects
                (<[self := {| class_ := Call (f c); _node_parents := _node_parents o |}]>))
  | _ => raise AttributeError
  end.

Definition with_cached_value (v : option value) (c : CallFields) : CallFields :=
  {| _function := _function c; args := args c; _arg_types := _arg_types c;
     _cached_value := v; _d_type := _d_type c; _m_type := _m_type c |}.

Definition with_types (d : DataType.t) (m : MeasureType.t) (c : CallFields) : CallFields :=
  {| _function := _function c; args := args c; _arg_types := _arg_types c;
     _cached_value := _cached_value c; _d_type := Some d; _m_type := Some m |}.

(** The signatures of the methods that are dispatched on the class of a
    child. *)
Definition fvalue_t := oid -> Z -> Z -> bool -> M value.
Definition data_type_t := oid -> M DataType.t.
Definition measure_type_t := oid -> M MeasureType.t.

Section Methods.
Context `{Runtime}.

(** ** Node *)

(** Modelled from the spec: [FValues] of [..utils] (spec 2, "Lazy Column
    View"; spec 6, "lazy, finite, restartable"): the values of the node at
    the rows [0 .. row_count - 1], in order, the filter flag handed through,
    each evaluated when the iteration comes to it.  [Node_fvalues] is the
    view read to its end, as the [for] loop of [Call.get_levels] reads it;
    [consume] below is the view read by a function at its own pace. *)
Definition Node_fvalues (fvalue : fvalue_t) (self : oid) (row_count : Z) (filt : bool)
  : M (list value) :=
  mapM (fun index => fvalue self index row_count filt) (seqZ 0 row_count).

(** ** UnaryOp *)

Definition UnaryOp_fvalue (fvalue : fvalue_t) (op : ast.operator) (operand : oid)
    (index row_count : Z) (filt : bool) : M value :=
  v ← fvalue operand index row_count filt;
  match op with
  | ast.USub =>
      if is_missing v then mret v
      else lift (py_neg (item0 v))
  | ast.UAdd =>
      if is_missing v then mret v
      else match v with
           | VTuple code _ => mret (VInt code)
           | VStr s => f ← lift (py_float v); mret (VFloat f)
           | _ => mret v
           end
  | ast.Not =>
      if is_missing v then mret v
      else mret (if py_bool (item0 v) then VInt 0 else VInt 1)
  | ast.Invert =>
      if is_missing v then mret (VInt 0)
      else mret v
  | _ => raise (RuntimeError "Shouldn't get here")
  end.

Definition UnaryOp_data_type (data_type : data_type_t) (op : ast.operator) (operand : oid)
  : M DataType.t :=
  match op with
  | ast.UAdd =>
      d ← data_type operand;
      match d with
      | DataType.TEXT => mret DataType.DECIMAL
      | _ => data_type operand
      end
  | ast.Not => mret DataType.INTEGER
  | _ => data_type operand
  end.

Definition UnaryOp_measure_type (data_type : data_type_t) (measure_type : measure_type_t)
    (op : ast.operator) (operand : oid) : M MeasureType.t :=
  match op with
  | ast.UAdd =>
      d ← data_type operand;
      match d with
      | DataType.TEXT => mret MeasureType.CONTINUOUS
      | _ => measure_type operand
      end
  | ast.Not => mret MeasureType.NOMINAL
  | _ => measure_type operand
  end.

(** ** BoolOp *)

(** The loop of the [And] branch, [to_return] being the carried value. *)
Fixpoint BoolOp_and (fvalue : fvalue_t) (values : list oid) (to_return : value)
    (index row_count : Z) (filt : bool) : M value :=
  match values with
  | [] => mret to_return
  | v :: values =>
      value ← fvalue v index row_count filt;
      if is_missing value then BoolOp_and fvalue values value index row_count filt
      else if py_bool (item0 value) then BoolOp_and fvalue values to_return index row_count filt
      else mret (VInt 0)
  end.

(** The loop of the [Or] branch. *)
Fixpoint BoolOp_or (fvalue : fvalue_t) (values : list oid) (to_return : value)
    (index row_count : Z) (filt : bool) : M value :=
  match values with
  | [] => mret to_return
  | v :: values =>
      value ← fvalue v index row_count filt;
      if is_missing value then BoolOp_or fvalue values value index row_count filt
      else if py_bool (item0 value) then mret (VInt 1)
      else BoolOp_or fvalue values to_return index row_count filt
  end.

Definition BoolOp_fvalue (fvalue : fvalue_t) (op : ast.operator) (values : list oid)
    (index row_count : Z) (filt : bool) : M value :=
  match op with
  | ast.And => BoolOp_and fvalue values (VInt 1) index row_count filt
  | ast.Or => BoolOp_or fvalue values (VInt 0) index row_count filt
  | _ => raise (RuntimeError "Shouldn't get here")
  end.

(** ** BinOp *)

Definition BinOp_data_type (data_type : data_type_t) (left : oid) (op : ast.operator)
    (right : oid) : M DataType.t :=
  match op with
  | ast.Pow => mret DataType.DECIMAL
  | _ =>
      ldt ← data_type left;
      rdt ← data_type right;
      mret (match ldt, rdt with
            | DataType.TEXT, _ | _, DataType.TEXT => DataType.TEXT
            | DataType.DECIMAL, _ | _, DataType.DECIMAL => DataType.DECIMAL
            | _, _ => DataType.INTEGER
            end)
  end.

Definition is_ID (m : MeasureType.t) : bool :=
  match m with MeasureType.ID => true | _ => false end.
Definition is_CONTINUOUS (m : MeasureType.t) : bool :=
  match m with MeasureType.CONTINUOUS => true | _ => false end.
Definition is_NOMINAL (m : MeasureType.t) : bool :=
  match m with MeasureType.NOMINAL => true | _ => false end.
Definition is_TEXT (d : DataType.t) : bool :=
  match d with DataType.TEXT => true | _ => false end.

Definition BinOp_measure_type (data_type : data_type_t) (measure_type : measure_type_t)
    (left : oid) (op : ast.operator) (right : oid) : M MeasureType.t :=
  match op with
  | ast.Pow => mret MeasureType.CONTINUOUS
  | _ =>
      lmt ← measure_type left;
      rmt ← measure_type right;
      let tail : M MeasureType.t :=
        if is_NOMINAL lmt || is_NOMINAL rmt then mret MeasureType.NOMINAL
        else mret MeasureType.ORDINAL in
      let continuous : M MeasureType.t :=
        if is_CONTINUOUS lmt || is_CONTINUOUS rmt then
          d ← BinOp_data_type data_type left op right;
          if is_TEXT d then tail else mret MeasureType.CONTINUOUS
        else tail in
      if is_ID lmt || is_ID rmt then
        d ← BinOp_data_type data_type left op right;
        if is_TEXT d then mret MeasureType.ID else continuous
      else continuous
  end.

(** The value of an operand: [lv.n] for a [Num], [lv.fvalue(...)] for any
    other node. *)
Definition operand_value (fvalue : fvalue_t) (x : oid) (index row_count : Z) (filt : bool)
  : M value :=
  o ← deref x;
  match class_ o with
  | Num n => mret n
  | _ => fvalue x index row_count filt
  end.

(** The chain of [isinstance(op, ...)] tests that ends [BinOp.fvalue]. *)
Definition BinOp_apply (op : ast.operator) (lv rv : value) : M value :=
  match op with
  | ast.Add | ast.Sub | ast.Mult | ast.Mod | ast.Pow => lift (py_arith op lv rv)
  | ast.Div =>
      match py_arith ast.Div lv rv with
      | Raise ZeroDivisionError => mret (get_missing None)
      | r => lift r
      end
  | ast.BitXor => lift (py_arith ast.Pow lv rv)
  | _ => mret (get_missing None)
  end.

(** The unified domain [ul_type] of a result data type. *)
Definition ul_type_of (dt : DataType.t) : pytype :=
  match dt with
  | DataType.DECIMAL => TFloat
  | DataType.TEXT => TStr
  | DataType.INTEGER => TInt
  end.

(** [ul_type is str and isinstance(op, ast.Add)] *)
Definition is_concatenation (ul_type : pytype) (op : ast.operator) : bool :=
  match ul_type, op with
  | TStr, ast.Add => true
  | _, _ => false
  end.

Definition BinOp_fvalue (data_type : data_type_t) (fvalue : fvalue_t)
    (left : oid) (op : ast.operator) (right : oid)
    (index row_count : Z) (filt : bool) : M value :=
  dt ← BinOp_data_type data_type left op right;
  let ul_type := ul_type_of dt in
  lv ← operand_value fvalue left index row_count filt;
  let lv := convert lv (Some ul_type) in
  rv ← operand_value fvalue right index row_count filt;
  let rv := convert rv (Some ul_type) in
  if is_concatenation ul_type op then BinOp_apply op lv rv
  else if is_missing lv || is_missing rv then mret (get_missing (Some TInt))
  else BinOp_apply op lv rv.

(** ** Compare *)

Definition is_float (v : value) : bool :=
  match v with VFloat _ => true | _ => false end.

Definition Compare__test (v1 : value) (op : ast.operator) (v2 : value) : res bool :=
  let '(v1, v2) :=
    match v1, v2 with
    | VTuple _ _, VTuple _ _ => (convert v1 (Some TInt), convert v2 (Some TInt))
    | VTuple code label, _ =>
        (match v2 with VStr _ => VStr label | _ => VInt code end, v2)
    | _, VTuple code label =>
        (v1, match v1 with VStr _ => VStr label | _ => VInt code end)
    | _, _ => (v1, v2)
    end in
  let close : res bool :=
    match py_float v1 with
    | Ok f1 => match py_float v2 with
               | Ok f2 => Ok (isclose f1 f2)
               | Raise e => Raise e | NoFuel => NoFuel | Dangling => Dangling
               end
    | Raise e => Raise e | NoFuel => NoFuel | Dangling => Dangling
    end in
  let negated (r : res bool) : res bool :=
    match r with Ok b => Ok (negb b) | _ => r end in
  match op with
  | ast.Lt | ast.Gt | ast.GtE | ast.LtE => py_order op v1 v2
  | ast.Eq =>
      if is_float v1 || is_float v2 then close else py_eq v1 v2
  | ast.NotEq =>
      if is_float v1 || is_float v2 then negated close else negated (py_eq v1 v2)
  | _ => Raise (RuntimeError "Shouldn't get here")
  end.

(** The loop of [Compare.fvalue]: [ops] and [comparators] are walked with one
    index, so a missing comparator is an [IndexError]. *)
Fixpoint Compare_loop (fvalue : fvalue_t) (v1 : value) (ops : list ast.operator)
    (comparators : list oid) (index row_count : Z) (filt : bool) : M value :=
  match ops with
  | [] => mret (VInt 1)
  | op :: ops =>
      match comparators with
      | [] => raise IndexError
      | c :: comparators =>
          v2 ← fvalue c index row_count filt;
          if is_missing v2 then mret (get_missing (Some TInt))
          else
            b ← lift (Compare__test v1 op v2);
            if (b : bool) then Compare_loop fvalue v2 ops comparators index row_count filt
            else mret (VInt 0)
      end
  end.

Definition Compare_fvalue (fvalue : fvalue_t) (left : oid) (ops : list ast.operator)
    (comparators : list oid) (index row_count : Z) (filt : bool) : M value :=
  v1 ← fvalue left index row_count filt;
  if is_missing v1 then mret (get_missing (Some TInt))
  else Compare_loop fvalue v1 ops comparators index row_count filt.

(** ** Call *)

(** [self._arg_types[min(i, len(self._arg_types) - 1)]]; the index is -1 on
    an empty list, which raises. *)
Definition arg_type_at (arg_types : list (option pytype)) (i : nat) : M (option pytype) :=
  list_item arg_types (i `min` (length arg_types - 1)).

(** The conversion loop of the row-wise branch. *)
Fixpoint convert_args (arg_types : list (option pytype)) (i : nat) (vs : list value)
  : M (list value) :=
  match vs with
  | [] => mret []
  | v :: vs =>
      arg_type ← arg_type_at arg_types i;
      vs ← convert_args arg_types (S i) vs;
      mret (convert v arg_type :: vs)
  end.

(** The conversion loop of the column-wise branch.  Each [args[i]] becomes a
    generator expression whose body reads the loop variable [arg_type] when
    the generator is consumed, that is inside the function call after the
    loop: every column is converted with the value [arg_type] has at the end
    of the loop. The loop itself only evaluates the index expressions. *)
Fixpoint last_arg_type (arg_types : list (option pytype)) (i n : nat)
    (arg_type : option pytype) : M (option pytype) :=
  match n with
  | 0 => mret arg_type
  | S n =>
      arg_type ← arg_type_at arg_types i;
      last_arg_type arg_types (S i) n arg_type
  end.

(** The call of [self._function] on [args] in the column-wise branch.  [args[i]]
    is a generator over [a[i].fvalues(row_count, filt)]; [rows] holds the row
    each generator is at.  Asked for its next item, a generator that is not
    exhausted evaluates its node at that row, moves on and yields the value
    converted to [arg_type]; an exception of that evaluation ends the call.
    A request for a generator that was not handed over is outside the
    protocol. *)
Fixpoint consume (fvalue : fvalue_t) (a : list oid) (row_count : Z) (filt : bool)
    (arg_type : option pytype) (r : reader) (rows : list Z) : M value :=
  match r with
  | Return result => lift result
  | Next i k =>
      match a !! i, rows !! i with
      | Some arg, Some index =>
          if (index <? row_count)%Z then
            v ← fvalue arg index row_count filt;
            consume fvalue a row_count filt arg_type (k (Some (convert v arg_type)))
              (<[i := (index + 1)%Z]> rows)
          else consume fvalue a row_count filt arg_type (k None) rows
      | _, _ => lift Dangling
      end
  end.

Definition Call_fvalue (fvalue : fvalue_t) (self : oid) (c : CallFields)
    (index row_count : Z) (filt : bool) : M value :=
  let f := _function c in
  if String.eqb (__name__ f) "OFFSET" then
    a ← read_list (args c);
    a1 ← list_item a 1;
    v ← fvalue a1 index row_count false;
    (* an offset that is not an integer is outside what convert(., int)
       yields; the comparison with the row index is then a type error *)
    match convert v (Some TInt) with
    | VInt offset =>
        if (index <? offset)%Z then mret (VFloat PrimFloat.nan)
        else a0 ← list_item a 0; fvalue a0 (index - offset)%Z row_count false
    | _ => raise TypeError
    end
  else if is_column_wise (meta f) then
    match _cached_value c with
    | None =>
        a ← read_list (args c);
        arg_type ← last_arg_type (_arg_types c) 0 (length a) None;
        let arguments := (fun arg => AGen arg row_count filt arg_type) <$> a in
        _ ← log (Invoked self arguments);
        value ← consume fvalue a row_count filt arg_type (column_body f arguments)
                  (replicate (length a) 0%Z);
        _ ← update_call (with_cached_value (Some value)) self;
        mret value
    | Some value => mret value
    end
  else
    a ← read_list (args c);
    vs ← mapM (fun arg => fvalue arg index row_count false) a;
    vs ← convert_args (_arg_types c) 0 vs;
    let arguments := AVal (VInt index) :: (AVal <$> vs) in
    _ ← log (Invoked self arguments);
    lift (body f arguments).

(** [Call.needs_recalc]; [Node.needs_recalc] is [False]. *)
Definition Call_needs_recalc (c : CallFields) : bool :=
  match _cached_value c with
  | None => true
  | Some _ => false
  end.

(** The loop over [d_types] that picks the data type. *)
Fixpoint pick_data_type (d_types : list (option DataType.t)) (dt : DataType.t) : DataType.t :=
  match d_types with
  | [] => dt
  | Some DataType.DECIMAL :: d_types => pick_data_type d_types DataType.DECIMAL
  | Some DataType.TEXT :: _ => DataType.TEXT
  | _ :: d_types => pick_data_type d_types dt
  end.

Definition pick_measure_type (dt : DataType.t) (m_types : list (option MeasureType.t))
  : MeasureType.t :=
  match dt with
  | DataType.DECIMAL => MeasureType.CONTINUOUS
  | _ =>
      if bool_decide (Some MeasureType.ID ∈ m_types) then MeasureType.ID
      else if bool_decide (Some MeasureType.ORDINAL ∈ m_types) then MeasureType.ORDINAL
      else MeasureType.NOMINAL
  end.

(** The loop that fills [d_types] and [m_types]: one entry per position of
    [func_meta.returns], [None] where the call has no such argument. *)
Definition Call_arg_types (data_type : data_type_t) (measure_type : measure_type_t)
    (a : list oid) (returns_ : list nat)
  : M (list (option DataType.t * option MeasureType.t)) :=
  mapM (fun arg_i =>
          match a !! arg_i with
          | Some arg =>
              d ← data_type arg;
              m ← measure_type arg;
              mret (Some d, Some m)
          | None => mret (None, None)
          end) returns_.

(** [Call._determine_d_m_types]; it returns what it has stored in [_d_type]
    and [_m_type]. *)
Definition Call__determine_d_m_types (data_type : data_type_t) (measure_type : measure_type_t)
    (self : oid) : M (DataType.t * MeasureType.t) :=
  c ← call_fields self;
  let func_meta := meta (_function c) in
  a ← read_list (args c);
  if bool_decide (length a = 0) then
    _ ← update_call (with_types (d_type func_meta) (m_type func_meta)) self;
    mret (d_type func_meta, m_type func_meta)
  else if bool_decide (length (returns func_meta) = 0) then
    _ ← update_call (with_types (d_type func_meta) (m_type func_meta)) self;
    mret (d_type func_meta, m_type func_meta)
  else
    types ← Call_arg_types data_type measure_type a (returns func_meta);
    let dt := pick_data_type (types.*1) DataType.INTEGER in
    let mt := pick_measure_type dt (types.*2) in
    _ ← update_call (with_types dt mt) self;
    mret (dt, mt).

Definition Call_data_type (data_type : data_type_t) (measure_type : measure_type_t)
    (self : oid) : M DataType.t :=
  c ← call_fields self;
  match _d_type c with
  | None => dm ← Call__determine_d_m_types data_type measure_type self; mret (dm.1)
  | Some d => mret d
  end.

Definition Call_measure_type (data_type : data_type_t) (measure_type : measure_type_t)
    (self : oid) : M MeasureType.t :=
  c ← call_fields self;
  match _m_type c with
  | None => dm ← Call__determine_d_m_types data_type measure_type self; mret (dm.2)
  | Some m => mret m
  end.

(** *** Levels *)

(** The [OrderedDict] [level_use]: keys in order of first insertion. *)
Abbreviation ordered_dict := (list (string * nat)).

(** [level_use[key] = v] *)
Fixpoint od_set (key : string) (v : nat) (d : ordered_dict) : ordered_dict :=
  match d with
  | [] => [(key, v)]
  | (k, n) :: d => if String.eqb key k then (k, v) :: d else (k, n) :: od_set key v d
  end.

(** [if key in level_use: level_use[key] += 1] *)
Fixpoint od_incr (key : string) (d : ordered_dict) : ordered_dict :=
  match d with
  | [] => []
  | (k, n) :: d => if String.eqb key k then (k, S n) :: d else (k, n) :: od_incr key d
  end.

(** The loop over the column that counts the uses of each candidate. *)
Fixpoint count_uses (column : list value) (level_use : ordered_dict) : ordered_dict :=
  match column with
  | [] => level_use
  | value :: column =>
      if is_missing value then count_uses column level_use
      else match convert value (Some TStr) with
           | VStr s => count_uses column (od_incr s level_use)
           | _ => count_uses column level_use   (* not a key of level_use *)
           end
  end.

(** [levels[i] = (i, levels[i])] over the keys used at least once. *)
Fixpoint enumerate_from (i : Z) (labels : list string) : list (Z * string) :=
  match labels with
  | [] => []
  | l :: labels => (i, l) :: enumerate_from (i + 1) labels
  end.

Definition used_labels (level_use : ordered_dict) : list string :=
  (filter (fun kn => 0 < kn.2) level_use).*1.

Definition has_levels_t := oid -> M bool.
Definition get_levels_t := oid -> Z -> M (list (Z * string)).

(** The loop over [arg_level_indices] that seeds [level_use]. *)
Fixpoint Call_level_candidates (has_levels : has_levels_t) (get_levels : get_levels_t)
    (self_args : lid) (indices : list nat) (row_count : Z) (level_use : ordered_dict)
  : M ordered_dict :=
  match indices with
  | [] => mret level_use
  | arg_i :: indices =>
      a ← read_list self_args;
      match a !! arg_i with
      | Some arg =>
          b ← has_levels arg;
          if (b : bool) then
            ls ← get_levels arg row_count;
            Call_level_candidates has_levels get_levels self_args indices row_count
              (foldl (fun d (level : Z * string) => od_set level.2 0 d) level_use ls)
          else Call_level_candidates has_levels get_levels self_args indices row_count level_use
      | None => Call_level_candidates has_levels get_levels self_args indices row_count level_use
      end
  end.

Definition Call_get_levels (data_type : data_type_t) (measure_type : measure_type_t)
    (has_levels : has_levels_t) (get_levels : get_levels_t) (fvalue : fvalue_t)
    (self : oid) (row_count : Z) : M (list (Z * string)) :=
  c ← call_fields self;
  let indices := arg_level_indices (meta (_function c)) in
  if bool_decide (length indices = 0) then mret []
  else
    a ← read_list (args c);
    if bool_decide (length a = 0) then mret []
    else
      d ← Call_data_type data_type measure_type self;
      if negb (is_TEXT d) then mret []
      else
        m ← Call_measure_type data_type measure_type self;
        if is_ID m then mret []
        else
          level_use ← Call_level_candidates has_levels get_levels (args c) indices row_count [];
          column ← Node_fvalues fvalue self row_count false;
          mret (enumerate_from 0 (used_labels (count_uses column level_use))).

(** ** Parents, recalculation, release *)

Definition set_parents (f : list oid -> list oid) (self : oid) : M unit :=
  o ← deref self;
  modify (set_objects
            (<[self := {| class_ := class_ o; _node_parents := f (_node_parents o) |}]>)).

Definition _add_node_parent (self node_ : oid) : M unit :=
  set_parents (fun ps => ps ++ [node_]) self.

(** [l.remove(x)]: the first occurrence, [None] where there is none. *)
Fixpoint list_remove_first (x : oid) (l : list oid) : option (list oid) :=
  match l with
  | [] => None
  | y :: l =>
      if decide (x = y) then Some l
      else match list_remove_first x l with
           | Some l' => Some (y :: l')
           | None => None
           end
  end.

Definition _remove_node_parent (self node_ : oid) : M unit :=
  o ← deref self;
  match list_remove_first node_ (_node_parents o) with
  | Some ps => set_parents (fun _ => ps) self
  | None => raise ValueError
  end.

(** [for x in xs: f(x)] *)
Fixpoint for_each {A} (f : A -> M unit) (xs : list A) : M unit :=
  match xs with
  | [] => mret tt
  | x :: xs => _ ← f x; for_each f xs
  end.

Definition Node_set_needs_recalc (set_needs_recalc : oid -> M unit) (self : oid) : M unit :=
  o ← deref self;
  for_each set_needs_recalc (_node_parents o).

Definition Call_set_needs_recalc (set_needs_recalc : oid -> M unit) (self : oid) : M unit :=
  _ ← update_call (with_cached_value None) self;
  Node_set_needs_recalc set_needs_recalc self.

Definition release_child (_release : oid -> M unit) (self child : oid) : M unit :=
  _ ← _release child;
  _remove_node_parent child self.

Definition UnaryOp__release (_release : oid -> M unit) (self operand : oid) : M unit :=
  release_child _release self operand.

Definition BoolOp__release (_release : oid -> M unit) (self : oid) (values : list oid) : M unit :=
  for_each (release_child _release self) values.

Definition Call__release (_release : oid -> M unit) (self : oid) (c : CallFields) : M unit :=
  a ← read_list (args c);
  for_each (release_child _release self) a.

Definition BinOp__release (_release : oid -> M unit) (self left right : oid) : M unit :=
  _ ← _release left;
  _ ← _release right;
  _ ← _remove_node_parent left self;
  _remove_node_parent right self.

Definition Compare__release (_release : oid -> M unit) (self left : oid)
    (comparators : list oid) : M unit :=
  _ ← release_child _release self left;
  for_each (release_child _release self) comparators.

(** ** Call.__init__ *)

Definition is_function (d : default) : bool :=
  match d with DefaultFunction _ => true | DefaultOther => false end.

(** The loop over [reversed(param_names)] that counts [sub_arg_len] down. *)
Fixpoint count_sub_arg_len (reversed_params : list Param) (sub_arg_len : nat) : nat :=
  match reversed_params with
  | [] => sub_arg_len
  | p :: ps =>
      if is_function (default_ p) then count_sub_arg_len ps (sub_arg_len - 1)
      else sub_arg_len
  end.

(** Object and list creation. *)
Definition fresh_oid : M oid := fun h =>
  (Ok (next_oid h),
   {| objects := objects h; lists := lists h;
      next_oid := S (next_oid h); next_lid := next_lid h; trace := trace h |}).

Definition new_list (a : list oid) : M lid := fun h =>
  (Ok (next_lid h),
   {| objects := objects h; lists := <[next_lid h := a]> (lists h);
      next_oid := next_oid h; next_lid := S (next_lid h); trace := trace h |}).

Definition list_append (l : lid) (x : oid) : M unit :=
  a ← read_list l;
  modify (set_lists (<[l := a ++ [x]]>)).

Definition store (self : oid) (o : object) : M unit :=
  modify (set_objects (<[self := o]>)).

(** The loop [for i in range(sub_arg_len, len(param_names))], over the
    parameters from position [i] on; [init] is the constructor [Call]. *)
Fixpoint Call_init_sub_functions (init : string -> lid -> M oid) (params : list Param)
    (i : nat) (args_ sub_func_args : lid) : M unit :=
  match params with
  | [] => mret tt
  | p :: params =>
      a ← read_list args_;
      if bool_decide (length a ≤ i) then
        match default_ p with
        | DefaultFunction sub_func_name =>
            new_func ← init sub_func_name sub_func_args;
            sf ← read_list sub_func_args;
            _ ← for_each (fun sf_arg => _add_node_parent sf_arg new_func) sf;
            _ ← list_append args_ new_func;
            Call_init_sub_functions init params (S i) args_ sub_func_args
        | DefaultOther => raise AttributeError
        end
      else mret tt
  end.

(** [Call.__init__(self, func, args, keywords)], with [name] for [func.id];
    the keywords are stored and never read.  The new object's identity is
    returned. *)
Definition Call_init_body (init : string -> lid -> M oid) (name : string) (args_ : lid)
  : M oid :=
  self ← fresh_oid;
  match functions name with
  | None => raise (NameError ("Function " ++ name ++ "() does not exist"))
  | Some f =>
      param_names ←
        (if is_row_wise (meta f) then
           match parameters f with
           | [] => raise IndexError
           | _ :: ps => mret ps
           end
         else mret (parameters f));
      let arg_types := annotation <$> param_names in
      let sub_arg_len := count_sub_arg_len (reverse param_names) (length param_names) in
      a ← read_list args_;
      sub_func_args ← new_list (take sub_arg_len a);
      _ ← Call_init_sub_functions init (drop sub_arg_len param_names) sub_arg_len
            args_ sub_func_args;
      _ ← store self
            {| class_ := Call {| _function := f; args := args_; _arg_types := arg_types;
                                 _cached_value := None; _d_type := None; _m_type := None |};
               _node_parents := [] |};
      mret self
  end.

(** ** Dispatch

    [x.m(...)] runs the method [m] of the class of [x]: the [class_m]
    below are the tables of the methods, the functions after them look up
    the node and recurse on the fuel. *)

Definition out_of_fuel {A} : M A := lift NoFuel.

Definition class_data_type (data_type : data_type_t) (measure_type : measure_type_t)
    (self : oid) (n : node) : M DataType.t :=
  match n with
  | Num n => mret (match n with VInt _ => DataType.INTEGER | _ => DataType.DECIMAL end)
  | Str _ => mret DataType.TEXT
  | UnaryOp op operand => UnaryOp_data_type data_type op operand
  | BoolOp _ _ => mret DataType.INTEGER
  | Call _ => Call_data_type data_type measure_type self
  | BinOp left_ op right_ => BinOp_data_type data_type left_ op right_
  | Compare _ _ _ => mret DataType.INTEGER
  | Source s => mret (source_data_type (column s))
  end.

Definition class_measure_type (data_type : data_type_t) (measure_type : measure_type_t)
    (self : oid) (n : node) : M MeasureType.t :=
  match n with
  | Num n => mret (match n with VInt _ => MeasureType.ORDINAL | _ => MeasureType.CONTINUOUS end)
  | Str _ => mret MeasureType.NOMINAL
  | UnaryOp op operand => UnaryOp_measure_type data_type measure_type op operand
  | BoolOp _ _ => mret MeasureType.NOMINAL
  | Call _ => Call_measure_type data_type measure_type self
  | BinOp left_ op right_ => BinOp_measure_type data_type measure_type left_ op right_
  | Compare _ _ _ => mret MeasureType.NOMINAL
  | Source s => mret (source_measure_type (column s))
  end.

Fixpoint data_type (fuel : nat) (self : oid) : M DataType.t :=
  match fuel with
  | 0 => out_of_fuel
  | S fuel =>
      o ← deref self;
      class_data_type (data_type fuel) (measure_type fuel) self (class_ o)
  end
with measure_type (fuel : nat) (self : oid) : M MeasureType.t :=
  match fuel with
  | 0 => out_of_fuel
  | S fuel =>
      o ← deref self;
      class_measure_type (data_type fuel) (measure_type fuel) self (class_ o)
  end.

Definition class_fvalue (data_type : data_type_t) (fvalue : fvalue_t) (self : oid)
    (index row_count : Z) (filt : bool) (n : node) : M value :=
  match n with
  | Num n => mret n
  | Str s => mret (VStr s)
  | UnaryOp op operand => UnaryOp_fvalue fvalue op operand index row_count filt
  | BoolOp op values => BoolOp_fvalue fvalue op values index row_count filt
  | Call c => Call_fvalue fvalue self c index row_count filt
  | BinOp left_ op right_ =>
      BinOp_fvalue data_type fvalue left_ op right_ index row_count filt
  | Compare left_ ops comparators =>
      Compare_fvalue fvalue left_ ops comparators index row_count filt
  | Source s =>
      _ ← log (Fetched self index);
      lift (source_value (column s) index row_count filt)
  end.

Fixpoint fvalue (fuel : nat) (self : oid) (index row_count : Z) (filt : bool) : M value :=
  match fuel with
  | 0 => out_of_fuel
  | S fuel =>
      o ← deref self;
      class_fvalue (data_type fuel) (fvalue fuel) self index row_count filt (class_ o)
  end.

Definition class_has_levels (n : node) : M bool :=
  match n with
  | Num _ | UnaryOp _ _ | BoolOp _ _ | BinOp _ _ _ => mret false
  | Str _ | Call _ | Compare _ _ _ => mret true
  | Source s => mret (source_has_levels (column s))
  end.

Definition has_levels (self : oid) : M bool :=
  o ← deref self;
  class_has_levels (class_ o).

(** The classes without levels have no [get_levels]. *)
Definition class_get_levels (data_type : data_type_t) (measure_type : measure_type_t)
    (get_levels : get_levels_t) (fvalue : fvalue_t) (self : oid) (row_count : Z)
    (n : node) : M (list (Z * string)) :=
  match n with
  | Str s => mret [(0%Z, s)]
  | Compare _ _ _ => mret [(1%Z, "true"); (0%Z, "false")]
  | Call _ =>
      Call_get_levels data_type measure_type has_levels get_levels fvalue self row_count
  | Source s => mret (source_levels (column s) row_count)
  | Num _ | UnaryOp _ _ | BoolOp _ _ | BinOp _ _ _ => raise AttributeError
  end.

Fixpoint get_levels (fuel : nat) (self : oid) (row_count : Z) : M (list (Z * string)) :=
  match fuel with
  | 0 => out_of_fuel
  | S fuel =>
      o ← deref self;
      class_get_levels (data_type fuel) (measure_type fuel) (get_levels fuel) (fvalue fuel)
        self row_count (class_ o)
  end.

Definition needs_recalc (self : oid) : M bool :=
  o ← deref self;
  match class_ o with
  | Call c => mret (Call_needs_recalc c)
  | _ => mret false
  end.

Fixpoint set_needs_recalc (fuel : nat) (self : oid) : M unit :=
  match fuel with
  | 0 => out_of_fuel
  | S fuel =>
      _ ← log (Notified self);
      o ← deref self;
      match class_ o with
      | Call _ => Call_set_needs_recalc (set_needs_recalc fuel) self
      | _ => Node_set_needs_recalc (set_needs_recalc fuel) self
      end
  end.

Fixpoint _release (fuel : nat) (self : oid) : M unit :=
  match fuel with
  | 0 => out_of_fuel
  | S fuel =>
      o ← deref self;
      match class_ o with
      | Num _ | Str _ | Source _ => mret tt
      | UnaryOp _ operand => UnaryOp__release (_release fuel) self operand
      | BoolOp _ values => BoolOp__release (_release fuel) self values
      | Call c => Call__release (_release fuel) self c
      | BinOp left_ _ right_ => BinOp__release (_release fuel) self left_ right_
      | Compare left_ _ comparators => Compare__release (_release fuel) self left_ comparators
      end
  end.

(** The constructor [Call(func, args, keywords)]. *)
Fixpoint Call_init (fuel : nat) (name : string) (args_ : lid) : M oid :=
  match fuel with
  | 0 => out_of_fuel
  | S fuel => Call_init_body (Call_init fuel) name args_
  end.

End Methods.

(** ** What the claims speak of *)

Section Vocabulary.
Context `{Runtime}.

(** The value an [And] or [Or] scan carries at its end: the last missing
    value seen, the initial value where none was. *)
Definition carried (init : value) (vs : list value) : value :=
  foldl (fun c v => if is_missing v then v else c) init vs.

(** An operand value that lets an [And] scan go on. *)
Definition passes_and (v : value) : bool := is_missing v || py_bool (item0 v).

(** An operand value that lets an [Or] scan go on. *)
Definition passes_or (v : value) : bool := is_missing v || negb (py_bool (item0 v)).

(** Every adjacent pair of [v1 :: vs] passes its test. *)
Fixpoint chain_holds (v1 : value) (ops : list ast.operator) (vs : list value) : Prop :=
  match ops, vs with
  | op :: ops, v2 :: vs => Compare__test v1 op v2 = Ok true /\ chain_holds v2 ops vs
  | _, _ => True
  end.

(** The operator kinds each [fvalue] has a branch for. *)
Definition UnaryOp_supports (op : ast.operator) : bool :=
  match op with
  | ast.USub | ast.UAdd | ast.Not | ast.Invert => true
  | _ => false
  end.

Definition BoolOp_supports (op : ast.operator) : bool :=
  match op with
  | ast.And | ast.Or => true
  | _ => false
  end.

Definition BinOp_supports (op : ast.operator) : bool :=
  match op with
  | ast.Add | ast.Sub | ast.Mult | ast.Div | ast.Mod | ast.Pow | ast.BitXor => true
  | _ => false
  end.

(** The six operators the spec calls binary arithmetic. *)
Definition is_arithmetic (op : ast.operator) : bool :=
  match op with
  | ast.Add | ast.Sub | ast.Mult | ast.Div | ast.Mod | ast.Pow => true
  | _ => false
  end.

(** Number of times the node [self] has invoked its registry function. *)
Definition invoked_by (self : oid) (e : event) : bool :=
  match e with
  | Invoked s _ => bool_decide (s = self)
  | _ => false
  end.

Definition invocations (self : oid) (t : list event) : nat :=
  length (List.filter (invoked_by self) t).

(** The store after [self], a [Call] with fields [c], has its fields
    replaced by [f c]. *)
Definition updated (f : CallFields -> CallFields) (self : oid) (o : object) (c : CallFields)
    (h : heap) : heap :=
  set_objects (<[self := {| class_ := Call (f c); _node_parents := _node_parents o |}]>) h.

(** The parent references form no cycle: every parent is in the store and
    has a smaller rank than its child. *)
Definition ranked (rk : oid -> nat) (h : heap) : Prop :=
  map_Forall (fun x o => Forall (fun p => is_Some (objects h !! p) /\ rk p < rk x)
                           (_node_parents o)) (objects h).

(** What a round of recalculation notifications does to an object: nothing,
    or it clears the memoized value of a [Call]. *)
Definition inval_obj (o o' : object) : Prop :=
  _node_parents o' = _node_parents o
  /\ (class_ o' = class_ o
      \/ exists c, class_ o = Call c /\ class_ o' = Call (with_cached_value None c)).

Definition invalidated (h h' : heap) : Prop :=
  (forall x, option_Forall2 inval_obj (objects h !! x) (objects h' !! x))
  /\ (exists t, trace h' = trace h ++ t)
  /\ lists h' = lists h.

(** The label a column value is counted under, if any: missing values are
    left out, the others are converted to text. *)
Definition label_of (v : value) : option string :=
  if is_missing v then None
  else match convert v (Some TStr) with
       | VStr s => Some s
       | _ => None
       end.

(** No candidate label has been counted yet. *)
Definition unused (level_use : list (string * nat)) : Prop :=
  Forall (fun kn => kn.2 = 0) level_use.

(** The candidate labels that occur in the column, in the order of their
    first use there; [seen] are the labels already listed. *)
Fixpoint first_use_order (candidates seen : list string) (column : list value)
  : list string :=
  match column with
  | [] => []
  | v :: column =>
      match label_of v with
      | Some l =>
          if bool_decide (l ∈ candidates) && negb (bool_decide (l ∈ seen))
          then l :: first_use_order candidates (l :: seen) column
          else first_use_order candidates seen column
      | None => first_use_order candidates seen column
      end
  end.

(** The children of a node: the nodes its methods call into.  The arguments
    of a call are the content of its argument list in the store of lists. *)
Definition children (ls : gmap lid (list oid)) (n : node) : list oid :=
  match n with
  | Num _ | Str _ | Source _ => []
  | UnaryOp _ operand => [operand]
  | BoolOp _ values => values
  | Call c => match ls !! args c with Some a => a | None => [] end
  | BinOp l _ r => [l; r]
  | Compare l _ comparators => l :: comparators
  end.

(** [_determine_d_m_types] sets both result types of a call at once: a node
    has both or neither. *)
Definition memo_consistent (n : node) : bool :=
  match n with
  | Call c =>
      match _d_type c, _m_type c with
      | None, None | Some _, Some _ => true
      | _, _ => false
      end
  | _ => true
  end.

(** An expression graph: every child has a smaller rank than its parent, so
    that no node is among its own descendants. *)
Definition well_formed (rk : oid -> nat) (h : heap) : Prop :=
  map_Forall (fun x o => Forall (fun y => rk y < rk x) (children (lists h) (class_ o))
                         /\ memo_consistent (class_ o) = true) (objects h).

(** What evaluation does to the fields of a call: it fills in memoized
    values and types and changes nothing that is set. *)
Definition grow_call (c c' : CallFields) : Prop :=
  _function c' = _function c /\ args c' = args c /\ _arg_types c' = _arg_types c
  /\ (forall v, _cached_value c = Some v -> _cached_value c' = Some v)
  /\ (forall d, _d_type c = Some d -> _d_type c' = Some d)
  /\ (forall m, _m_type c = Some m -> _m_type c' = Some m).

Definition grow_node (n n' : node) : Prop :=
  match n with
  | Call c => exists c', n' = Call c' /\ grow_call c c'
  | _ => n' = n
  end.

Definition grow_obj (o o' : object) : Prop :=
  _node_parents o' = _node_parents o /\ grow_node (class_ o) (class_ o').

(** [g] is [h] after some more evaluation: the same lists and nodes, more
    memoized values.  (The trace is not compared.) *)
Definition grows (h g : heap) : Prop :=
  lists g = lists h
  /\ forall x, option_Forall2 grow_obj (objects h !! x) (objects g !! x).

(** The node an event is about. *)
Definition event_node (e : event) : oid :=
  match e with
  | Invoked self _ | Fetched self _ | Notified self => self
  end.

(** What a run from [h] to [h1] that evaluates nodes of rank below [k] has
    done: the store is still well formed, it has only gained memoized values,
    the nodes of rank [k] and above are as they were, and the events it has
    added to the trace are about nodes of rank below [k]. *)
Definition advances (rk : oid -> nat) (k : nat) (h h1 : heap) : Prop :=
  well_formed rk h1 /\ grows h h1
  /\ (forall y, k <= rk y -> objects h1 !! y = objects h !! y)
  /\ exists t, trace h1 = trace h ++ t /\ Forall (fun e => rk (event_node e) < k) t.

(** A computation that, started in [h], advances the store in that way and
    gives the same result when it is run again in the store it has left or
    in any store grown from it. *)
Definition replay_from {A} (rk : oid -> nat) (k : nat) (E : M A) (h : heap) : Prop :=
  forall r h1, E h = (Ok r, h1) ->
    advances rk k h h1
    /\ forall g, grows h1 g -> exists g', E g = (Ok r, g') /\ grows g g'.

Definition replayable {A} (rk : oid -> nat) (k : nat) (E : M A) : Prop :=
  forall h, well_formed rk h -> replay_from rk k E h.

End Vocabulary.

(** ** A small runtime

    Enough of [utils], of the registry and of a dataset to run the
    definitions on concrete formulas: the integer sentinel is the least
    32-bit integer, the decimal one is not-a-number, text is never missing. *)
Module Sample.

Definition INT_MIN : Z := (-2147483648)%Z.

Definition is_missing (v : value) : bool :=
  match v with
  | VInt n => (n =? INT_MIN)%Z
  | VFloat f => PrimFloat.is_nan f
  | VStr _ => false
  | VTuple code _ => (code =? INT_MIN)%Z
  end.

Definition get_missing (t : option pytype) : value :=
  match t with
  | Some TInt => VInt INT_MIN
  | Some TFloat => VFloat PrimFloat.nan
  | Some TStr => VStr ""
  | None => VTuple INT_MIN ""
  end.

(** Exact below 2^53. *)
Fixpoint float_of_positive (p : positive) : float :=
  match p with
  | xH => PrimFloat.one
  | xO p => PrimFloat.mul PrimFloat.two (float_of_positive p)
  | xI p => PrimFloat.add (PrimFloat.mul PrimFloat.two (float_of_positive p)) PrimFloat.one
  end.

Definition float_of_int (n : Z) : res float :=
  match n with
  | Z0 => Ok PrimFloat.zero
  | Zpos p => Ok (float_of_positive p)
  | Zneg p => Ok (PrimFloat.opp (float_of_positive p))
  end.

Definition convert (v : value) (t : option pytype) : value :=
  match t, v with
  | None, _ => v
  | Some TInt, VInt _ => v
  | Some TInt, VTuple code _ => VInt code
  | Some TInt, _ => VInt INT_MIN
  | Some TFloat, VFloat _ => v
  | Some TFloat, VInt n =>
      if (n =? INT_MIN)%Z then VFloat PrimFloat.nan
      else match float_of_int n with Ok f => VFloat f | _ => VFloat PrimFloat.nan end
  | Some TFloat, _ => VFloat PrimFloat.nan
  | Some TStr, VStr _ => v
  | Some TStr, VTuple _ label => VStr label
  | Some TStr, _ => VStr ""
  end.

Definition host_arith (op : ast.operator) (a b : value) : res value :=
  match op, a, b with
  | ast.Add, VFloat x, VFloat y => Ok (VFloat (PrimFloat.add x y))
  | ast.Sub, VFloat x, VFloat y => Ok (VFloat (PrimFloat.sub x y))
  | ast.Mult, VFloat x, VFloat y => Ok (VFloat (PrimFloat.mul x y))
  | ast.Div, VFloat x, VFloat y =>
      if PrimFloat.eqb y PrimFloat.zero then Raise ZeroDivisionError
      else Ok (VFloat (PrimFloat.div x y))
  | _, _, _ => Raise TypeError
  end.

Definition host_compare (op : ast.operator) (a b : value) : res bool :=
  match op, a, b with
  | ast.Eq, VFloat x, VFloat y => Ok (PrimFloat.eqb x y)
  | _, _, _ => Raise TypeError
  end.

(** Sum of a column of integers: the generator is read to its end, at most
    [n] items of it. *)
Fixpoint VSUM_items (n : nat) (total : Z) : reader :=
  match n with
  | 0 => Return (Ok (VInt total))
  | S n =>
      Next 0 (fun item =>
                match item with
                | Some (VInt x) => VSUM_items n (total + x)
                | Some _ => VSUM_items n total
                | None => Return (Ok (VInt total))
                end)
  end.

Definition VSUM_columns (arguments : list pyarg) : reader :=
  match arguments with
  | [AGen _ row_count _ _] => VSUM_items (S (Z.to_nat row_count)) 0
  | _ => Return (Raise TypeError)
  end.

(** A function called the other way than it is meant to be. *)
Definition not_iterable (arguments : list pyarg) : res value := Raise TypeError.
Definition not_scalar (arguments : list pyarg) : reader := Return (Raise TypeError).

Definition VSUM : pyfunc := {|
  __name__ := "VSUM";
  parameters := [ {| annotation := Some TInt; default_ := DefaultOther |} ];
  meta := {| is_row_wise := false; is_column_wise := true;
             d_type := DataType.INTEGER; m_type := MeasureType.CONTINUOUS;
             returns := []; arg_level_indices := [] |};
  body := not_iterable;
  column_body := VSUM_columns |}.

(** [CENTER(index, x: int, total=VSUM)]: a row-wise function whose last
    parameter defaults to a function, as [Z] and [BOXCOX] do. *)
Definition CENTER_body (arguments : list pyarg) : res value :=
  match arguments with
  | [AVal _; AVal (VInt x); AVal (VInt total)] => Ok (VInt (x - total))
  | _ => Raise TypeError
  end.

Definition CENTER : pyfunc := {|
  __name__ := "CENTER";
  parameters := [ {| annotation := None; default_ := DefaultOther |};
                  {| annotation := Some TInt; default_ := DefaultOther |};
                  {| annotation := None; default_ := DefaultFunction "VSUM" |} ];
  meta := {| is_row_wise := true; is_column_wise := false;
             d_type := DataType.INTEGER; m_type := MeasureType.CONTINUOUS;
             returns := []; arg_level_indices := [] |};
  body := CENTER_body;
  column_body := not_scalar |}.

(** [PICK(index, a: str, b: str)]: [b] at row 0, [a] at every other row. *)
Definition PICK_body (arguments : list pyarg) : res value :=
  match arguments with
  | [AVal (VInt index); AVal a; AVal b] => Ok (if (index =? 0)%Z then b else a)
  | _ => Raise TypeError
  end.

Definition PICK : pyfunc := {|
  __name__ := "PICK";
  parameters := [ {| annotation := None; default_ := DefaultOther |};
                  {| annotation := Some TStr; default_ := DefaultOther |};
                  {| annotation := Some TStr; default_ := DefaultOther |} ];
  meta := {| is_row_wise := true; is_column_wise := false;
             d_type := DataType.TEXT; m_type := MeasureType.NOMINAL;
             returns := [0; 1]; arg_level_indices := [0; 1] |};
  body := PICK_body;
  column_body := not_scalar |}.

Definition functions (name : string) : option pyfunc :=
  if String.eqb name "VSUM" then Some VSUM
  else if String.eqb name "CENTER" then Some CENTER
  else if String.eqb name "PICK" then Some PICK
  else None.

(** A dataset of one integer column: row [i] of any column holds [i + 1]. *)
Definition source_value (column : string) (index row_count : Z) (filt : bool) : res value :=
  Ok (VInt (index + 1)).

#[global] Instance runtime : Runtime :=
  Build_Runtime convert is_missing get_missing functions float_of_int
    (fun _ => Raise ValueError) PrimFloat.eqb host_arith host_compare
    source_value (fun _ => DataType.INTEGER) (fun _ => MeasureType.CONTINUOUS)
    (fun _ => false) (fun _ _ => []).

(** A store holding the given nodes at the identities 0, 1, ..., none of
    them with a parent, and no list object. *)
Definition node_store (nodes : list node) : heap := {|
  objects := list_to_map (imap (fun i n => (i, {| class_ := n; _node_parents := [] |})) nodes);
  lists := ∅;
  next_oid := length nodes;
  next_lid := 0;
  trace := [];
|}.

(** Literals and operator nodes over them; NA stands for the missing integer.
<<
     0: 1        1: 0        2: NA       3: 5
     4: "a"      5: "b"      6: 2        7: 3
     8: 1 and NA and 0 and 5             9: 0 or NA
    10: 1 < 0 < NA                      11: 2 ^ 3   (BitXor)
    12: 2 // 3                          13: 1 + NA
    14: "a" + "b"                       15: 2 ** 3
    16: 1 < 2 < 3                       17: 1 < 2 < 0
>> *)
Definition formulas : heap := node_store
  [ Num (VInt 1); Num (VInt 0); Num (VInt INT_MIN); Num (VInt 5);
    Str "a"; Str "b"; Num (VInt 2); Num (VInt 3);
    BoolOp ast.And [0; 2; 1; 3]; BoolOp ast.Or [1; 2];
    Compare 0 [ast.Lt; ast.Lt] [1; 2]; BinOp 6 ast.BitXor 7;
    BinOp 6 ast.FloorDiv 7; BinOp 0 ast.Add 2;
    BinOp 4 ast.Add 5; BinOp 6 ast.Pow 7;
    Compare 0 [ast.Lt; ast.Lt] [6; 7]; Compare 0 [ast.Lt; ast.Lt] [6; 1] ].

(** A list object holding [a], allocated in [h]. *)
Definition with_list (a : list oid) (h : heap) : heap :=
  (new_list a h).2.

(** [PICK("a", "b")]: the literals are the nodes 0 and 1, the call is node 2,
    built by [Call.__init__] on the argument list 0. *)
Definition picks : heap :=
  (Call_init 1 "PICK" 0 (with_list [0; 1] (node_store [Str "a"; Str "b"]))).2.

(** The fields of that call node as [Call.__init__] leaves them. *)
Definition picks_call : CallFields :=
  {| _function := PICK; args := 0; _arg_types := [Some TStr; Some TStr];
     _cached_value := None; _d_type := None; _m_type := None |}.

(** [VSUM(x) + 1]: the column [x] is node 0, the call node 1, the literal
    node 2 and the sum node 3; every node is registered with its children as
    the parser layer does. *)
Definition sums : heap :=
  ((_ ← Call_init 1 "VSUM" 0;
    _ ← fresh_oid;
    _ ← store 2 {| class_ := Num (VInt 1); _node_parents := [] |};
    _ ← fresh_oid;
    _ ← store 3 {| class_ := BinOp 1 ast.Add 2; _node_parents := [] |};
    _ ← _add_node_parent 0 1;
    _ ← _add_node_parent 1 3;
    _add_node_parent 2 3)
     (with_list [0] (node_store [Source {| column := "x" |}]))).2.

(** The fields of the call node of [sums]. *)
Definition sums_call : CallFields :=
  {| _function := VSUM; args := 0; _arg_types := [Some TInt];
     _cached_value := None; _d_type := None; _m_type := None |}.

(** [sums] once the call node has been evaluated at the first of three
    rows. *)
Definition sums_evaluated : heap :=
  (fvalue 2 1 0 3 false sums).2.

(** [picks] once the types of the call node are determined. *)
Definition picks_typed : heap :=
  (Call_data_type (data_type 1) (measure_type 1) 2 picks).2.

(** [picks_typed] once the two rows of the call node are evaluated. *)
Definition picks_evaluated : heap :=
  (Node_fvalues (fvalue 2) 2 2 false picks_typed).2.

(** [CENTER(1 + 2)]: the literals are the nodes 0 and 1, their sum is node 2,
    the call is node 3 and the call of VSUM that [Call.__init__] synthesizes
    for the omitted parameter [total] is node 4.  The sum is registered with
    its operands and the call with its arguments, once each, as the parser
    layer does after it has built a node. *)
Definition centered_sum : heap :=
  ((_ ← _add_node_parent 0 2;
    _ ← _add_node_parent 1 2;
    outer ← Call_init 2 "CENTER" 0;
    a ← read_list 0;
    for_each (fun arg => _add_node_parent arg outer) a)
     (with_list [2] (node_store [Num (VInt 1); Num (VInt 2); BinOp 0 ast.Add 1]))).2.

(** [CENTER(1)]: the literal is node 0, the call node 1, the synthesized
    call of VSUM node 2. *)
Definition centered_one : heap :=
  ((outer ← Call_init 2 "CENTER" 0;
    a ← read_list 0;
    for_each (fun arg => _add_node_parent arg outer) a)
     (with_list [0] (node_store [Num (VInt 1)]))).2.

(** The parent references of a node. *)
Definition parents_of (h : heap) (x : oid) : option (list oid) :=
  _node_parents <$> objects h !! x.

(** The registry function and the argument list of a call node. *)
Definition call_of (h : heap) (x : oid) : option (string * lid) :=
  match objects h !! x with
  | Some {| class_ := Call c |} => Some (__name__ (_function c), args c)
  | _ => None
  end.

End Sample.

(** ** More vocabulary *)

Section Relatives.

(** [q] is [x] or one of the nodes reached from [x] through parent
    references. *)
Inductive ancestor (h : heap) : oid -> oid -> Prop :=
| ancestor_self x : ancestor h x x
| ancestor_parent x o p q :
    objects h !! x = Some o -> p ∈ _node_parents o -> ancestor h p q -> ancestor h x q.

(** [y] is [x] or one of the nodes reached from [x] through operands and
    arguments. *)
Inductive descends (h : heap) : oid -> oid -> Prop :=
| descends_self x : descends h x x
| descends_child x o y z :
    objects h !! x = Some o -> y ∈ children (lists h) (class_ o) -> descends h y z ->
    descends h x z.

(** The argument list of a call is in the store. *)
Definition has_args (h : heap) (n : node) : bool :=
  match n with
  | Call c => bool_decide (is_Some (lists h !! args c))
  | _ => true
  end.

(** Every operand and argument in the store refers to a node of the store,
    and the argument list of every call is there. *)
Definition closed (h : heap) : Prop :=
  map_Forall (fun x o => Forall (fun y => is_Some (objects h !! y))
                           (children (lists h) (class_ o))
                         /\ has_args h (class_ o) = true)
    (objects h).

(** The node [x] of [h] is a call without a memoized value, or no call. *)
Definition no_memo (h : heap) (x : oid) : Prop :=
  forall o c, objects h !! x = Some o -> class_ o = Call c -> _cached_value c = None.

(** What a notification of [self] has done once it is through: it has
    cleared memoized values only, the ancestors of [self] are notified and
    without a memoized value, and the other nodes are as they were. *)
Definition notified_from (h : heap) (self : oid) (h' : heap) : Prop :=
  invalidated h h'
  /\ (forall q, ancestor h self q -> Notified q ∈ trace h' /\ no_memo h' q)
  /\ (forall x, ~ ancestor h self x -> objects h' !! x = objects h !! x).

(** The type declared for the argument at position [i]: the last declared
    type serves for the positions beyond the declared ones. *)
Definition clamped_type (arg_types : list (option pytype)) (i : nat) : option pytype :=
  match arg_types !! (i `min` (length arg_types - 1)) with
  | Some t => t
  | None => None
  end.

(** A computation that, started in [h], returns, records no event, and
    advances the store for the rank [k]. *)
Definition steady {A} (rk : oid -> nat) (k : nat) (E : M A) (h : heap) : Prop :=
  exists r h1, E h = (Ok r, h1) /\ trace h1 = trace h /\ advances rk k h h1.

(** The node [x] of [h] is of class [n], with these fields. *)
Definition is_node (h : heap) (x : oid) (n : node) : Prop :=
  exists o, objects h !! x = Some o /\ class_ o = n.

End Relatives.

Section Construction.

(** What [Call.__init__] computes from the signature of the function: the
    parameters that take arguments of the formula (all but the row index of a
    row-wise function), and the number of them left when the trailing
    parameters that default to a function are taken off. *)
Definition param_names (f : pyfunc) : list Param :=
  if is_row_wise (meta f) then tail (parameters f) else parameters f.

Definition sub_arg_len (f : pyfunc) : nat :=
  count_sub_arg_len (reverse (param_names f)) (length (param_names f)).

(** The fields of a call node as [Call.__init__] sets them. *)
Definition new_call (f : pyfunc) (args_ : lid) : object :=
  {| class_ := Call {| _function := f; args := args_;
                       _arg_types := annotation <$> param_names f;
                       _cached_value := None; _d_type := None; _m_type := None |};
     _node_parents := [] |}.

(** The identities the store holds are below the next ones to be given
    out. *)
Definition allocated (h : heap) : Prop :=
  map_Forall (fun x _ => x < next_oid h) (objects h)
  /\ map_Forall (fun l _ => l < next_lid h) (lists h).

End Construction.

(** ** Structure queries

    [is_atomic_node] and [uses_column_formula] of the node classes.  The
    column leaf is a class of the parser layer: what it answers to the two
    queries is a parameter. *)

Section Structure.
Variables (source_is_atomic_node source_uses_column_formula : string -> bool).

(** The loop [for value in values: if not value.is_atomic_node(): return
    False] that ends in [return True]. *)
Fixpoint BoolOp_is_atomic_node (is_atomic_node : oid -> M bool) (values : list oid)
  : M bool :=
  match values with
  | [] => mret true
  | value :: values =>
      b ← is_atomic_node value;
      if (b : bool) then BoolOp_is_atomic_node is_atomic_node values else mret false
  end.

(** [self.left.is_atomic_node() and self.right.is_atomic_node()] *)
Definition BinOp_is_atomic_node (is_atomic_node : oid -> M bool) (left right : oid)
  : M bool :=
  l ← is_atomic_node left;
  if (l : bool) then is_atomic_node right else mret false.

(** The test of the left operand, then the same loop over the
    comparators. *)
Definition Compare_is_atomic_node (is_atomic_node : oid -> M bool) (left : oid)
    (comparators : list oid) : M bool :=
  l ← is_atomic_node left;
  if (l : bool) then BoolOp_is_atomic_node is_atomic_node comparators else mret false.

Definition class_is_atomic_node (is_atomic_node : oid -> M bool) (n : node) : M bool :=
  match n with
  | Num _ | Str _ => mret true
  | UnaryOp _ operand => is_atomic_node operand
  | BoolOp _ values => BoolOp_is_atomic_node is_atomic_node values
  | Call _ => mret false
  | BinOp left_ _ right_ => BinOp_is_atomic_node is_atomic_node left_ right_
  | Compare left_ _ comparators => Compare_is_atomic_node is_atomic_node left_ comparators
  | Source s => mret (source_is_atomic_node (column s))
  end.

Fixpoint is_atomic_node (fuel : nat) (self : oid) : M bool :=
  match fuel with
  | 0 => out_of_fuel
  | S fuel =>
      o ← deref self;
      class_is_atomic_node (is_atomic_node fuel) (class_ o)
  end.

(** The loop [for v in values: if v.uses_column_formula: return True] that
    ends in [return False]. *)
Fixpoint BoolOp_uses_column_formula (uses_column_formula : oid -> M bool)
    (values : list oid) : M bool :=
  match values with
  | [] => mret false
  | v :: values =>
      b ← uses_column_formula v;
      if (b : bool) then mret true
      else BoolOp_uses_column_formula uses_column_formula values
  end.

Definition Call_uses_column_formula (uses_column_formula : oid -> M bool) (c : CallFields)
  : M bool :=
  if is_column_wise (meta (_function c)) then mret true
  else
    a ← read_list (args c);
    BoolOp_uses_column_formula uses_column_formula a.

(** [self.left.uses_column_formula or self.right.uses_column_formula] *)
Definition BinOp_uses_column_formula (uses_column_formula : oid -> M bool)
    (left right : oid) : M bool :=
  l ← uses_column_formula left;
  if (l : bool) then mret true else uses_column_formula right.

Definition Compare_uses_column_formula (uses_column_formula : oid -> M bool) (left : oid)
    (comparators : list oid) : M bool :=
  l ← uses_column_formula left;
  if (l : bool) then mret true
  else BoolOp_uses_column_formula uses_column_formula comparators.

Definition class_uses_column_formula (uses_column_formula : oid -> M bool) (n : node)
  : M bool :=
  match n with
  | Num _ | Str _ => mret false
  | UnaryOp _ operand => uses_column_formula operand
  | BoolOp _ values => BoolOp_uses_column_formula uses_column_formula values
  | Call c => Call_uses_column_formula uses_column_formula c
  | BinOp left_ _ right_ => BinOp_uses_column_formula uses_column_formula left_ right_
  | Compare left_ _ comparators =>
      Compare_uses_column_formula uses_column_formula left_ comparators
  | Source s => mret (source_uses_column_formula (column s))
  end.

Fixpoint uses_column_formula (fuel : nat) (self : oid) : M bool :=
  match fuel with
  | 0 => out_of_fuel
  | S fuel =>
      o ← deref self;
      class_uses_column_formula (uses_column_formula fuel) (class_ o)
  end.

(** A node that is atomic by itself: a literal or an operator, or a column
    leaf that says so. *)
Definition atomic_class (n : node) : bool :=
  match n with
  | Call _ => false
  | Source s => source_is_atomic_node (column s)
  | _ => true
  end.

(** A node that uses a column formula by itself: a whole-column call, or a
    column leaf that says so. *)
Definition column_formula_class (n : node) : bool :=
  match n with
  | Call c => is_column_wise (meta (_function c))
  | Source s => source_uses_column_formula (column s)
  | _ => false
  end.

End Structure.

Section Logic.
Context `{Runtime}.

(** [not v] over the three truth values, as [UnaryOp.fvalue] computes it: a
    missing value is its own negation. *)
Definition negation (v : value) : value :=
  if is_missing v then v else if py_bool (item0 v) then VInt 0 else VInt 1.

(** The operator kinds [Compare._test] has a branch for. *)
Definition Compare_supports (op : ast.operator) : bool :=
  match op with
  | ast.Lt | ast.Gt | ast.GtE | ast.LtE | ast.Eq | ast.NotEq => true
  | _ => false
  end.

(** What a logical operator returns: 0, 1 or a missing value. *)
Definition truth_value (v : value) : Prop :=
  v = VInt 0 \/ v = VInt 1 \/ is_missing v = true.

End Logic.

(** ** More formulas to run the definitions on *)
Module Cases.

(** [OFFSET(index, x, offset: int)], which [Call.fvalue] evaluates by
    itself. *)
Definition OFFSET : pyfunc := {|
  __name__ := "OFFSET";
  parameters := [ {| annotation := None; default_ := DefaultOther |};
                  {| annotation := None; default_ := DefaultOther |};
                  {| annotation := Some TInt; default_ := DefaultOther |} ];
  meta := {| is_row_wise := true; is_column_wise := false;
             d_type := DataType.INTEGER; m_type := MeasureType.CONTINUOUS;
             returns := [0]; arg_level_indices := [] |};
  body := fun _ => Raise TypeError;
  column_body := fun _ => Return (Raise TypeError) |}.

(** [HEAD(values)]: the first value of a column; it reads no further. *)
Definition HEAD_columns (arguments : list pyarg) : reader :=
  match arguments with
  | [AGen _ _ _ _] =>
      Next 0 (fun item =>
                match item with
                | Some v => Return (Ok v)
                | None => Return (Raise ValueError)
                end)
  | _ => Return (Raise TypeError)
  end.

Definition HEAD : pyfunc := {|
  __name__ := "HEAD";
  parameters := [ {| annotation := None; default_ := DefaultOther |} ];
  meta := {| is_row_wise := false; is_column_wise := true;
             d_type := DataType.INTEGER; m_type := MeasureType.CONTINUOUS;
             returns := [0]; arg_level_indices := [] |};
  body := Sample.not_iterable;
  column_body := HEAD_columns |}.

Definition functions (name : string) : option pyfunc :=
  if String.eqb name "OFFSET" then Some OFFSET
  else if String.eqb name "HEAD" then Some HEAD
  else Sample.functions name.

(** The small runtime with OFFSET in its registry. *)
Definition runtime : Runtime :=
  Build_Runtime Sample.convert Sample.is_missing Sample.get_missing functions
    Sample.float_of_int (fun _ => Raise ValueError) PrimFloat.eqb Sample.host_arith
    Sample.host_compare Sample.source_value (fun _ => DataType.INTEGER)
    (fun _ => MeasureType.CONTINUOUS) (fun _ => false) (fun _ _ => []).

(** [OFFSET(x, 1)]: the column [x] is node 0, the literal node 1 and the
    call node 2. *)
Definition shifted : heap :=
  (@Call_init runtime 1 "OFFSET" 0
     (Sample.with_list [0; 1]
        (Sample.node_store [Source {| column := "x" |}; Num (VInt 1)]))).2.

Definition shifted_call : CallFields :=
  {| _function := OFFSET; args := 0; _arg_types := [None; Some TInt];
     _cached_value := None; _d_type := None; _m_type := None |}.

(** [HEAD(1 % (x - 2))]: the column [x] is node 0, the literal 2 node 1,
    the difference node 2, the literal 1 node 3, the remainder node 4 and the
    call node 5.  The divisor is 0 at row 1. *)
Definition heads : heap :=
  (@Call_init runtime 1 "HEAD" 0
     (Sample.with_list [4]
        (Sample.node_store [Source {| column := "x" |}; Num (VInt 2); BinOp 0 ast.Sub 1;
                            Num (VInt 1); BinOp 3 ast.Mod 2]))).2.

Definition heads_call : CallFields :=
  {| _function := HEAD; args := 0; _arg_types := [None];
     _cached_value := None; _d_type := None; _m_type := None |}.

(** Literals, and operators over them; NA stands for the missing integer.
<<
     0: 1        1: 0        2: NA
     3: 1 and NA and 0                   4: not (1 and NA and 0)
     5: not 1    6: not NA   7: not 0    8: (not 1) or (not NA) or (not 0)
     9: not not 1                       10: not not not 1
    11: 1 or NA or 0                    12: not (1 or NA or 0)
    13: (not 1) and (not NA) and (not 0)
    14: 1 / 0   15: 1 % 0               16: 1 is 0
    17: "7"     18: +"7"
>> *)
Definition logic : heap := Sample.node_store
  [ Num (VInt 1); Num (VInt 0); Num (VInt Sample.INT_MIN);
    BoolOp ast.And [0; 2; 1]; UnaryOp ast.Not 3;
    UnaryOp ast.Not 0; UnaryOp ast.Not 2; UnaryOp ast.Not 1;
    BoolOp ast.Or [5; 6; 7];
    UnaryOp ast.Not 5; UnaryOp ast.Not 9;
    BoolOp ast.Or [0; 2; 1]; UnaryOp ast.Not 11; BoolOp ast.And [5; 6; 7];
    BinOp 0 ast.Div 1; BinOp 0 ast.Mod 1;
    Compare 0 [ast.Is] [1];
    Str "7"; UnaryOp ast.UAdd 17 ].

(** A text under the signs and the inversion.
<<
     0: "7"      1: +"7"     2: +(+"7")
     3: ~"7"     4: ~(~"7")  5: -"7"
>> *)
Definition signs : heap := Sample.node_store
  [ Str "7"; UnaryOp ast.UAdd 0; UnaryOp ast.UAdd 1;
    UnaryOp ast.Invert 0; UnaryOp ast.Invert 3; UnaryOp ast.USub 0 ].

(** The store in which [PICK("a", "b")] is built, and the one in which
    [CENTER(1)] is. *)
Definition two_texts : heap :=
  Sample.with_list [0; 1] (Sample.node_store [Str "a"; Str "b"]).

Definition one_number : heap :=
  Sample.with_list [0] (Sample.node_store [Num (VInt 1)]).

(** An object of the given class with the given parents. *)
Definition obj (n : node) (parents : list oid) : object :=
  {| class_ := n; _node_parents := parents |}.

End Cases.
(** ** Releasing a formula *)

Section Releasing.

(** [y] is an operand or an argument of the node [p]. *)
Definition child (h : heap) (p y : oid) : Prop :=
  exists o, objects h !! p = Some o /\ y ∈ children (lists h) (class_ o).

(** The nodes at and below [x] form a tree: no node among them has the same
    operand or argument twice, and the nodes below two of its operands or
    arguments have nothing in common. *)
Definition tree (h : heap) (x : oid) : Prop :=
  forall p o, descends h x p -> objects h !! p = Some o ->
    NoDup (children (lists h) (class_ o))
    /\ forall c1 c2 y,
         c1 ∈ children (lists h) (class_ o) -> c2 ∈ children (lists h) (class_ o) ->
         descends h c1 y -> descends h c2 y -> c1 = c2.

(** Every node at or below [x] is registered as a parent with each of its
    operands and arguments. *)
Definition registered (h : heap) (x : oid) : Prop :=
  forall p y, descends h x p -> child h p y ->
    exists o, objects h !! y = Some o /\ p ∈ _node_parents o.

(** [h'] has the nodes and the lists of [h]: what may differ is what the
    nodes hold besides their class. *)
Definition same_nodes (h h' : heap) : Prop :=
  lists h' = lists h
  /\ forall y, option_Forall2 (fun o o' => class_ o' = class_ o)
                 (objects h !! y) (objects h' !! y).

(** [h'] is [h] but for parent references: for every pair [E p y] the first
    reference to [p] is taken out of the parents of [y], and a node that is
    the [y] of no pair is as it was. *)
Definition unlinked (E : oid -> oid -> Prop) (h h' : heap) : Prop :=
  h' = set_objects (fun _ => objects h') h
  /\ (forall y, option_Forall2 (fun o o' => class_ o' = class_ o)
                  (objects h !! y) (objects h' !! y))
  /\ (forall y, (forall p, ~ E p y) -> objects h' !! y = objects h !! y)
  /\ (forall p y o, E p y -> objects h !! y = Some o ->
        exists ps, list_remove_first p (_node_parents o) = Some ps
                   /\ objects h' !! y = Some {| class_ := class_ o; _node_parents := ps |}).

(** The references that releasing [x] takes out: one for each operand and
    argument of each node at or below [x]. *)
Definition links (h : heap) (x p y : oid) : Prop :=
  descends h x p /\ child h p y.

End Releasing.

(** * Properties *)

(** ** Running computations *)

Section Run.
Context `{Runtime}.

Lemma run_bind {A B} (m : M A) (f : A -> M B) h a h1 :
  m h = (Ok a, h1) -> (m ≫= f) h = f a h1.
Proof. intros E. unfold mbind, M_bind. now rewrite E. Qed.

Lemma run_bind_inv {A B} (m : M A) (f : A -> M B) h b h' :
  (m ≫= f) h = (Ok b, h') -> exists a h1, m h = (Ok a, h1) /\ f a h1 = (Ok b, h').
Proof.
  unfold mbind, M_bind. destruct (m h) as [[a| | |] h1]; intros E; try discriminate.
  now exists a, h1.
Qed.

Lemma run_ret {A} (a : A) h : (mret a : M A) h = (Ok a, h).
Proof. reflexivity. Qed.

Lemma run_mapM_nil {A B} (f : A -> M B) h : mapM f [] h = (Ok [], h).
Proof. reflexivity. Qed.

Lemma run_mapM_cons {A B} (f : A -> M B) x xs h :
  mapM f (x :: xs) h = (f x ≫= fun y => mapM f xs ≫= fun k => mret (y :: k)) h.
Proof. reflexivity. Qed.

Lemma run_mapM_cons_inv {A B} (f : A -> M B) x xs h ys h' :
  mapM f (x :: xs) h = (Ok ys, h') ->
  exists y ys' h1, f x h = (Ok y, h1) /\ mapM f xs h1 = (Ok ys', h') /\ ys = y :: ys'.
Proof.
  rewrite run_mapM_cons. intros E.
  apply run_bind_inv in E as (y & h1 & E1 & E).
  apply run_bind_inv in E as (ys' & h2 & E2 & E).
  rewrite run_ret in E. injection E as <- <-. now exists y, ys', h1.
Qed.

Lemma run_mapM_nil_inv {A B} (f : A -> M B) h ys h' :
  mapM f [] h = (Ok ys, h') -> ys = [] /\ h' = h.
Proof. rewrite run_mapM_nil. now intros [= <- <-]. Qed.

End Run.

(** ** BoolOp *)

Section BoolOpScan.
Context `{Runtime}.
Variables (fvalue : fvalue_t) (index row_count : Z) (filt : bool).

Abbreviation eval := (fun x : oid => fvalue x index row_count filt).

Lemma carried_cons init v vs :
  carried init (v :: vs) = carried (if is_missing v then v else init) vs.
Proof. reflexivity. Qed.

Lemma carried_none init vs :
  Forall (fun v => is_missing v = false) vs -> carried init vs = init.
Proof.
  intros F. revert init. induction F as [|v vs Hv _ IH]; intros init; [reflexivity|].
  rewrite carried_cons, Hv. apply IH.
Qed.

Lemma carried_last init vs v ws :
  is_missing v = true -> Forall (fun w => is_missing w = false) ws ->
  carried init (vs ++ v :: ws) = v.
Proof.
  intros Hv F. unfold carried. rewrite foldl_app. cbn [foldl]. rewrite Hv.
  now apply carried_none.
Qed.

Lemma BoolOp_and_all values : forall vs to_return h h',
  mapM eval values h = (Ok vs, h') ->
  Forall (fun v => passes_and v = true) vs ->
  BoolOp_and fvalue values to_return index row_count filt h = (Ok (carried to_return vs), h').
Proof.
  induction values as [|x values IH]; intros vs c h h' E F.
  - apply run_mapM_nil_inv in E as [-> ->]. reflexivity.
  - apply run_mapM_cons_inv in E as (y & ys & h1 & E1 & E2 & ->).
    inversion F as [|? ? Py F']; subst.
    cbn [BoolOp_and]. rewrite (run_bind _ _ _ _ _ E1), carried_cons.
    unfold passes_and in Py. destruct (is_missing y); [now apply IH|].
    cbn in Py. rewrite Py. now apply IH.
Qed.

Lemma BoolOp_and_stop pre : forall x post vs v to_return h h1 h2,
  mapM eval pre h = (Ok vs, h1) ->
  Forall (fun v => passes_and v = true) vs ->
  eval x h1 = (Ok v, h2) -> passes_and v = false ->
  BoolOp_and fvalue (pre ++ x :: post) to_return index row_count filt h = (Ok (VInt 0), h2).
Proof.
  induction pre as [|p pre IH]; intros x post vs v c h h1 h2 E F Ex Pv.
  - apply run_mapM_nil_inv in E as [-> ->].
    cbn [app BoolOp_and]. rewrite (run_bind _ _ _ _ _ Ex).
    unfold passes_and in Pv. apply orb_false_elim in Pv as [-> ->]. reflexivity.
  - apply run_mapM_cons_inv in E as (y & ys & h' & E1 & E2 & ->).
    inversion F as [|? ? Py F']; subst.
    cbn [app BoolOp_and]. rewrite (run_bind _ _ _ _ _ E1).
    unfold passes_and in Py. destruct (is_missing y); [eapply IH; eauto|].
    cbn in Py. rewrite Py. eapply IH; eauto.
Qed.

Lemma BoolOp_or_all values : forall vs to_return h h',
  mapM eval values h = (Ok vs, h') ->
  Forall (fun v => passes_or v = true) vs ->
  BoolOp_or fvalue values to_return index row_count filt h = (Ok (carried to_return vs), h').
Proof.
  induction values as [|x values IH]; intros vs c h h' E F.
  - apply run_mapM_nil_inv in E as [-> ->]. reflexivity.
  - apply run_mapM_cons_inv in E as (y & ys & h1 & E1 & E2 & ->).
    inversion F as [|? ? Py F']; subst.
    cbn [BoolOp_or]. rewrite (run_bind _ _ _ _ _ E1), carried_cons.
    unfold passes_or in Py. destruct (is_missing y); [now apply IH|].
    cbn in Py. apply negb_true_iff in Py. rewrite Py. now apply IH.
Qed.

Lemma BoolOp_or_stop pre : forall x post vs v to_return h h1 h2,
  mapM eval pre h = (Ok vs, h1) ->
  Forall (fun v => passes_or v = true) vs ->
  eval x h1 = (Ok v, h2) -> passes_or v = false ->
  BoolOp_or fvalue (pre ++ x :: post) to_return index row_count filt h = (Ok (VInt 1), h2).
Proof.
  induction pre as [|p pre IH]; intros x post vs v c h h1 h2 E F Ex Pv.
  - apply run_mapM_nil_inv in E as [-> ->].
    cbn [app BoolOp_or]. rewrite (run_bind _ _ _ _ _ Ex).
    unfold passes_or in Pv. apply orb_false_elim in Pv as [-> Pv].
    apply negb_false_iff in Pv. rewrite Pv. reflexivity.
  - apply run_mapM_cons_inv in E as (y & ys & h' & E1 & E2 & ->).
    inversion F as [|? ? Py F']; subst.
    cbn [app BoolOp_or]. rewrite (run_bind _ _ _ _ _ E1).
    unfold passes_or in Py. destruct (is_missing y); [eapply IH; eauto|].
    cbn in Py. apply negb_true_iff in Py. rewrite Py. eapply IH; eauto.
Qed.

(** C4.  [BoolOp.fvalue] scans its operands from left to right.  [And]: the
    carried value starts at 1 and is replaced by every missing operand value;
    when the operands before [x] are missing or truthy and [x] is the first
    operand whose value is neither missing nor truthy, the result is 0 in the
    store that the evaluation of [x] leaves, whatever operands follow (none
    of them is evaluated); when every operand is missing or truthy the result
    is the carried value: 1, or the last missing value seen.  [Or] is the
    mirror image: the carried value starts at 0, the first operand that is
    neither missing nor falsy gives 1 at once, and a scan that finds none
    returns the carried value. *)
Theorem BoolOp_fvalue_scan :
  (forall pre x post vs v h h1 h2,
      mapM eval pre h = (Ok vs, h1) ->
      Forall (fun v => passes_and v = true) vs ->
      eval x h1 = (Ok v, h2) ->
      is_missing v = false -> py_bool (item0 v) = false ->
      BoolOp_fvalue fvalue ast.And (pre ++ x :: post) index row_count filt h
      = (Ok (VInt 0), h2))
  /\ (forall values vs h h',
      mapM eval values h = (Ok vs, h') ->
      Forall (fun v => passes_and v = true) vs ->
      BoolOp_fvalue fvalue ast.And values index row_count filt h
      = (Ok (carried (VInt 1) vs), h'))
  /\ (forall pre x post vs v h h1 h2,
      mapM eval pre h = (Ok vs, h1) ->
      Forall (fun v => passes_or v = true) vs ->
      eval x h1 = (Ok v, h2) ->
      is_missing v = false -> py_bool (item0 v) = true ->
      BoolOp_fvalue fvalue ast.Or (pre ++ x :: post) index row_count filt h
      = (Ok (VInt 1), h2))
  /\ (forall values vs h h',
      mapM eval values h = (Ok vs, h') ->
      Forall (fun v => passes_or v = true) vs ->
      BoolOp_fvalue fvalue ast.Or values index row_count filt h
      = (Ok (carried (VInt 0) vs), h'))
  /\ (forall init vs,
      Forall (fun v => is_missing v = false) vs -> carried init vs = init)
  /\ (forall init vs v ws,
      is_missing v = true -> Forall (fun w => is_missing w = false) ws ->
      carried init (vs ++ v :: ws) = v).
Proof.
  repeat split.
  - intros pre x post vs v h h1 h2 E F Ex Mv Bv. cbn [BoolOp_fvalue].
    eapply BoolOp_and_stop; eauto. unfold passes_and. now rewrite Mv, Bv.
  - intros values vs h h' E F. now apply BoolOp_and_all.
  - intros pre x post vs v h h1 h2 E F Ex Mv Bv. cbn [BoolOp_fvalue].
    eapply BoolOp_or_stop; eauto. unfold passes_or. now rewrite Mv, Bv.
  - intros values vs h h' E F. now apply BoolOp_or_all.
  - apply carried_none.
  - apply carried_last.
Qed.

End BoolOpScan.

(** ** Compare *)

Section CompareChain.
Context `{Runtime}.
Variables (fvalue : fvalue_t) (index row_count : Z) (filt : bool).

Abbreviation eval := (fun x : oid => fvalue x index row_count filt).

Lemma last_cons_default {A} (ys : list A) : forall y d,
  List.last (y :: ys) d = List.last ys y.
Proof.
  induction ys as [|v ys IH]; intros y d; [reflexivity|].
  change (List.last (y :: v :: ys) d) with (List.last (v :: ys) d).
  now rewrite !IH.
Qed.

Lemma Compare_loop_all ops : forall comparators v1 vs h h',
  length ops = length comparators ->
  mapM eval comparators h = (Ok vs, h') ->
  Forall (fun v => is_missing v = false) vs ->
  chain_holds v1 ops vs ->
  Compare_loop fvalue v1 ops comparators index row_count filt h = (Ok (VInt 1), h').
Proof.
  induction ops as [|op ops IH]; intros [|c cs] v1 vs h h' L E F C; try discriminate L.
  - apply run_mapM_nil_inv in E as [-> ->]. reflexivity.
  - apply run_mapM_cons_inv in E as (y & ys & h1 & E1 & E2 & ->).
    inversion F as [|? ? My F']; subst. destruct C as [T C].
    cbn [Compare_loop]. rewrite (run_bind _ _ _ _ _ E1), My.
    injection L as L.
    unfold lift at 1. unfold mbind, M_bind. rewrite T.
    now apply IH with ys.
Qed.

(** The scan up to the operand [x] that follows a prefix whose tests all
    hold: what [x] is compared with is the last value before it. *)
Lemma Compare_loop_prefix pre : forall ops_pre op ops_post x post v1 vs h h1,
  length ops_pre = length pre ->
  mapM eval pre h = (Ok vs, h1) ->
  Forall (fun v => is_missing v = false) vs ->
  chain_holds v1 ops_pre vs ->
  Compare_loop fvalue v1 (ops_pre ++ op :: ops_post) (pre ++ x :: post) index row_count filt h
  = Compare_loop fvalue (List.last vs v1) (op :: ops_post) (x :: post) index row_count filt h1.
Proof.
  induction pre as [|p pre IH]; intros [|o ops_pre] op ops_post x post v1 vs h h1 L E F C;
    try discriminate L.
  - apply run_mapM_nil_inv in E as [-> ->]. reflexivity.
  - apply run_mapM_cons_inv in E as (y & ys & h' & E1 & E2 & ->).
    inversion F as [|? ? My F']; subst. destruct C as [T C].
    injection L as L.
    cbn [app]. cbn [Compare_loop]. rewrite (run_bind _ _ _ _ _ E1), My.
    unfold lift at 1. unfold mbind at 1, M_bind at 1. rewrite T.
    rewrite (IH ops_pre op ops_post x post y ys h' h1) by assumption.
    now rewrite last_cons_default.
Qed.

(** C3, as the code has it.  A comparator chain is evaluated from left to
    right.  A missing first operand gives the integer missing sentinel.  When
    no operand is missing and every adjacent test holds the result is 1.
    When the operands before [x] are not missing and their tests hold, then:
    if [x] is missing the result is the integer missing sentinel; if [x] is
    not missing and its test against the operand before it fails the result
    is 0.  In both cases the result and the store are those at [x]: the
    operands after [x] are not evaluated, missing or not. *)
Theorem Compare_fvalue_chain :
  (forall left_ ops comparators v1 h h1,
      eval left_ h = (Ok v1, h1) -> is_missing v1 = true ->
      Compare_fvalue fvalue left_ ops comparators index row_count filt h
      = (Ok (get_missing (Some TInt)), h1))
  /\ (forall left_ ops comparators v1 vs h h1 h2,
      eval left_ h = (Ok v1, h1) -> is_missing v1 = false ->
      length ops = length comparators ->
      mapM eval comparators h1 = (Ok vs, h2) ->
      Forall (fun v => is_missing v = false) vs ->
      chain_holds v1 ops vs ->
      Compare_fvalue fvalue left_ ops comparators index row_count filt h = (Ok (VInt 1), h2))
  /\ (forall left_ ops_pre op ops_post pre x post v1 vs v h h1 h2 h3,
      eval left_ h = (Ok v1, h1) -> is_missing v1 = false ->
      length ops_pre = length pre ->
      mapM eval pre h1 = (Ok vs, h2) ->
      Forall (fun v => is_missing v = false) vs ->
      chain_holds v1 ops_pre vs ->
      eval x h2 = (Ok v, h3) ->
      (is_missing v = true ->
       Compare_fvalue fvalue left_ (ops_pre ++ op :: ops_post) (pre ++ x :: post)
         index row_count filt h = (Ok (get_missing (Some TInt)), h3))
      /\ (is_missing v = false ->
          Compare__test (List.last vs v1) op v = Ok false ->
          Compare_fvalue fvalue left_ (ops_pre ++ op :: ops_post) (pre ++ x :: post)
            index row_count filt h = (Ok (VInt 0), h3))).
Proof.
  split; [|split].
  - intros left_ ops comparators v1 h h1 E M. unfold Compare_fvalue.
    rewrite (run_bind _ _ _ _ _ E), M. reflexivity.
  - intros left_ ops comparators v1 vs h h1 h2 E M L Es F C. unfold Compare_fvalue.
    rewrite (run_bind _ _ _ _ _ E), M. now apply Compare_loop_all with vs.
  - intros left_ ops_pre op ops_post pre x post v1 vs v h h1 h2 h3 E M L Es F C Ex. split.
    + intros Mv. unfold Compare_fvalue. rewrite (run_bind _ _ _ _ _ E), M.
    rewrite (Compare_loop_prefix pre ops_pre op ops_post x post v1 vs h1 h2) by assumption.
    cbn [Compare_loop]. rewrite (run_bind _ _ _ _ _ Ex), Mv. reflexivity.
    + intros Mv T. unfold Compare_fvalue. rewrite (run_bind _ _ _ _ _ E), M.
    rewrite (Compare_loop_prefix pre ops_pre op ops_post x post v1 vs h1 h2) by assumption.
    cbn [Compare_loop]. rewrite (run_bind _ _ _ _ _ Ex), Mv.
    unfold lift at 1. unfold mbind, M_bind. rewrite T. reflexivity.
Qed.

End CompareChain.

(** ** BinOp and the unsupported operator kinds *)

Section BinOpValue.
Context `{Runtime}.
Variables (data_type : data_type_t) (fvalue : fvalue_t) (index row_count : Z) (filt : bool).

(** [BinOp.fvalue] once the result type and the two operands are there. *)
Lemma BinOp_fvalue_run left_ op right_ dt lv rv h h1 h2 h3 :
  BinOp_data_type data_type left_ op right_ h = (Ok dt, h1) ->
  operand_value fvalue left_ index row_count filt h1 = (Ok lv, h2) ->
  operand_value fvalue right_ index row_count filt h2 = (Ok rv, h3) ->
  BinOp_fvalue data_type fvalue left_ op right_ index row_count filt h
  = (if is_concatenation (ul_type_of dt) op
     then BinOp_apply op (convert lv (Some (ul_type_of dt))) (convert rv (Some (ul_type_of dt)))
     else if is_missing (convert lv (Some (ul_type_of dt)))
             || is_missing (convert rv (Some (ul_type_of dt)))
          then mret (get_missing (Some TInt))
          else BinOp_apply op (convert lv (Some (ul_type_of dt)))
                 (convert rv (Some (ul_type_of dt)))) h3.
Proof.
  intros Ed El Er. unfold BinOp_fvalue.
  rewrite (run_bind _ _ _ _ _ Ed). cbv zeta.
  rewrite (run_bind _ _ _ _ _ El), (run_bind _ _ _ _ _ Er). reflexivity.
Qed.

Lemma is_concatenation_inv ul op :
  is_concatenation ul op = true -> ul = TStr /\ op = ast.Add.
Proof. destruct ul, op; cbn; intros [=]; auto. Qed.

(** C1.  [BinOp.fvalue], for each of +, -, *, /, mod and power (and for any
    other operator kind): when an operand, converted into the unified domain
    of the result type, is missing, the result is a missing value, unless the
    domain is text and the operator is +; in that case missingness is not
    looked at and the result is the sum of the two converted operands, which
    for two texts is their concatenation.  "Missing" is what [is_missing]
    says, given that it recognises the integer sentinel of [get_missing]. *)
Theorem BinOp_fvalue_missing left_ op right_ dt lv rv h h1 h2 h3 :
  is_missing (get_missing (Some TInt)) = true ->
  BinOp_data_type data_type left_ op right_ h = (Ok dt, h1) ->
  operand_value fvalue left_ index row_count filt h1 = (Ok lv, h2) ->
  operand_value fvalue right_ index row_count filt h2 = (Ok rv, h3) ->
  let lv' := convert lv (Some (ul_type_of dt)) in
  let rv' := convert rv (Some (ul_type_of dt)) in
  (is_concatenation (ul_type_of dt) op = false ->
   is_missing lv' = true \/ is_missing rv' = true ->
   exists v,
     BinOp_fvalue data_type fvalue left_ op right_ index row_count filt h = (Ok v, h3)
     /\ is_missing v = true)
  /\ (is_concatenation (ul_type_of dt) op = true ->
      BinOp_fvalue data_type fvalue left_ op right_ index row_count filt h
      = (py_arith ast.Add lv' rv', h3)
      /\ forall a b, lv' = VStr a -> rv' = VStr b ->
         BinOp_fvalue data_type fvalue left_ op right_ index row_count filt h
         = (Ok (VStr (a ++ b)), h3)).
Proof.
  intros Hm Ed El Er lv' rv'.
  rewrite (BinOp_fvalue_run _ _ _ _ _ _ _ _ _ _ Ed El Er). fold lv' rv'. split.
  - intros -> M. exists (get_missing (Some TInt)). split; [|exact Hm].
    destruct M as [-> | ->]; [reflexivity|].
    now rewrite orb_true_r.
  - intros C. rewrite C. apply is_concatenation_inv in C as [_ ->].
    split; [reflexivity|]. now intros a b -> ->.
Qed.

(** C10.  Whenever [BinOp.fvalue] propagates missingness (a converted
    operand is missing and the case is not text with +), what it returns is
    [get_missing(int)], the sentinel of the integer domain, whether the
    unified domain [ul_type] is int, float or str. *)
Theorem BinOp_fvalue_integer_sentinel left_ op right_ dt lv rv h h1 h2 h3 :
  BinOp_data_type data_type left_ op right_ h = (Ok dt, h1) ->
  operand_value fvalue left_ index row_count filt h1 = (Ok lv, h2) ->
  operand_value fvalue right_ index row_count filt h2 = (Ok rv, h3) ->
  is_concatenation (ul_type_of dt) op = false ->
  is_missing (convert lv (Some (ul_type_of dt))) = true
  \/ is_missing (convert rv (Some (ul_type_of dt))) = true ->
  BinOp_fvalue data_type fvalue left_ op right_ index row_count filt h
  = (Ok (get_missing (Some TInt)), h3).
Proof.
  intros Ed El Er C M.
  rewrite (BinOp_fvalue_run _ _ _ _ _ _ _ _ _ _ Ed El Er), C.
  destruct M as [-> | ->]; [reflexivity|].
  now rewrite orb_true_r.
Qed.

(** C9, as the code has it.  A unary node whose operator is none of negate,
    plus, not, invert raises [RuntimeError] once its operand is evaluated and
    in no case returns a value; a boolean node whose operator is neither And
    nor Or raises [RuntimeError] before it evaluates anything.  A binary node
    whose operator is outside its supported kinds raises nothing: it returns
    the integer missing sentinel when a converted operand is missing and
    [get_missing()] otherwise. *)
Theorem unsupported_operator_kind :
  (forall op operand v h h1,
      UnaryOp_supports op = false ->
      fvalue operand index row_count filt h = (Ok v, h1) ->
      UnaryOp_fvalue fvalue op operand index row_count filt h
      = (Raise (RuntimeError "Shouldn't get here"), h1))
  /\ (forall op operand v h h1,
      UnaryOp_supports op = false ->
      UnaryOp_fvalue fvalue op operand index row_count filt h <> (Ok v, h1))
  /\ (forall op values h,
      BoolOp_supports op = false ->
      BoolOp_fvalue fvalue op values index row_count filt h
      = (Raise (RuntimeError "Shouldn't get here"), h))
  /\ (forall left_ op right_ dt lv rv h h1 h2 h3,
      BinOp_supports op = false ->
      BinOp_data_type data_type left_ op right_ h = (Ok dt, h1) ->
      operand_value fvalue left_ index row_count filt h1 = (Ok lv, h2) ->
      operand_value fvalue right_ index row_count filt h2 = (Ok rv, h3) ->
      BinOp_fvalue data_type fvalue left_ op right_ index row_count filt h
      = (Ok (if is_missing (convert lv (Some (ul_type_of dt)))
                || is_missing (convert rv (Some (ul_type_of dt)))
             then get_missing (Some TInt) else get_missing None), h3)).
Proof.
  split; [|split; [|split]].
  - intros op operand v h h1 S E. unfold UnaryOp_fvalue.
    rewrite (run_bind _ _ _ _ _ E). destruct op; try discriminate S; reflexivity.
  - intros op operand v h h1 S E. unfold UnaryOp_fvalue in E.
    apply run_bind_inv in E as (w & h' & _ & E).
    destruct op; try discriminate S; discriminate E.
  - intros op values h S. destruct op; try discriminate S; reflexivity.
  - intros left_ op right_ dt lv rv h h1 h2 h3 S Ed El Er.
    rewrite (BinOp_fvalue_run _ _ _ _ _ _ _ _ _ _ Ed El Er).
    assert (C : is_concatenation (ul_type_of dt) op = false)
      by (destruct (ul_type_of dt), op; try reflexivity; discriminate S).
    rewrite C. destruct (_ || _); [reflexivity|].
    destruct op; try discriminate S; reflexivity.
Qed.

End BinOpValue.

Section BinOpTypes.
Context `{Runtime}.

(** The result types of a node built with [ast.Pow] do not look at the
    operands. *)
Lemma BinOp_Pow_types (data_type : data_type_t) (measure_type : measure_type_t)
    left_ right_ h :
  BinOp_data_type data_type left_ ast.Pow right_ h = (Ok DataType.DECIMAL, h)
  /\ BinOp_measure_type data_type measure_type left_ ast.Pow right_ h
     = (Ok MeasureType.CONTINUOUS, h).
Proof. split; reflexivity. Qed.

End BinOpTypes.

(** ** The operator nodes on the sample formulas *)

(** [1 and NA and 0 and 5] is 0 and [0 or NA] is NA. *)
Lemma BoolOp_fvalue_scan_witness :
  BoolOp_fvalue (fvalue 1) ast.And [0; 2; 1; 3] 0 1 false Sample.formulas
  = (Ok (VInt 0), Sample.formulas)
  /\ BoolOp_fvalue (fvalue 1) ast.Or [1; 2] 0 1 false Sample.formulas
     = (Ok (VInt Sample.INT_MIN), Sample.formulas).
Proof.
  destruct (BoolOp_fvalue_scan (fvalue 1) 0 1 false) as (A & _ & _ & D & _).
  split.
  - apply (A [0; 2] 1 [3] [VInt 1; VInt Sample.INT_MIN] (VInt 0)
             Sample.formulas Sample.formulas Sample.formulas).
    + vm_compute. reflexivity.
    + repeat constructor.
    + vm_compute. reflexivity.
    + reflexivity.
    + reflexivity.
  - apply (D [1; 2] [VInt 0; VInt Sample.INT_MIN] Sample.formulas Sample.formulas).
    + vm_compute. reflexivity.
    + repeat constructor.
Defined.

(** [1 < 2 < 3] is 1 and [1 < 2 < 0] is 0. *)
Lemma Compare_fvalue_chain_witness :
  Compare_fvalue (fvalue 1) 0 [ast.Lt; ast.Lt] [6; 7] 0 1 false Sample.formulas
  = (Ok (VInt 1), Sample.formulas)
  /\ Compare_fvalue (fvalue 1) 0 [ast.Lt; ast.Lt] [6; 1] 0 1 false Sample.formulas
     = (Ok (VInt 0), Sample.formulas).
Proof.
  destruct (Compare_fvalue_chain (fvalue 1) 0 1 false) as (_ & B & C).
  split.
  - apply (B 0 [ast.Lt; ast.Lt] [6; 7] (VInt 1) [VInt 2; VInt 3]
             Sample.formulas Sample.formulas Sample.formulas).
    + vm_compute. reflexivity.
    + reflexivity.
    + reflexivity.
    + vm_compute. reflexivity.
    + repeat constructor.
    + cbn. auto.
  - apply (C 0 [ast.Lt] ast.Lt [] [6] 1 [] (VInt 1) [VInt 2] (VInt 0)
             Sample.formulas Sample.formulas Sample.formulas Sample.formulas).
    + vm_compute. reflexivity.
    + reflexivity.
    + reflexivity.
    + vm_compute. reflexivity.
    + repeat constructor.
    + cbn. auto.
    + vm_compute. reflexivity.
    + reflexivity.
    + reflexivity.
Defined.

(** C3 as stated fails: in [1 < 0 < NA] the last operand evaluates to a
    missing value, and the chain is 0, which is not missing. *)
Lemma Compare_missing_after_failing_pair :
  fvalue 1 2 0 1 false Sample.formulas = (Ok (VInt Sample.INT_MIN), Sample.formulas)
  /\ is_missing (VInt Sample.INT_MIN) = true
  /\ Compare_fvalue (fvalue 1) 0 [ast.Lt; ast.Lt] [1; 2] 0 1 false Sample.formulas
     = (Ok (VInt 0), Sample.formulas)
  /\ is_missing (VInt 0) = false
  /\ VInt 0 <> get_missing (Some TInt).
Proof.
  split; [vm_compute; reflexivity|].
  split; [reflexivity|].
  split; [vm_compute; reflexivity|].
  split; [reflexivity|].
  discriminate.
Qed.

(** [1 + NA] is missing; ["a" + "b"] is ["ab"]. *)
Lemma BinOp_fvalue_missing_witness :
  (exists v,
      BinOp_fvalue (data_type 1) (fvalue 1) 0 ast.Add 2 0 1 false Sample.formulas
      = (Ok v, Sample.formulas)
      /\ is_missing v = true)
  /\ BinOp_fvalue (data_type 1) (fvalue 1) 4 ast.Add 5 0 1 false Sample.formulas
     = (Ok (VStr "ab"), Sample.formulas).
Proof.
  split.
  - refine (proj1 (BinOp_fvalue_missing (data_type 1) (fvalue 1) 0 1 false
                     0 ast.Add 2 DataType.INTEGER (VInt 1) (VInt Sample.INT_MIN)
                     Sample.formulas Sample.formulas Sample.formulas Sample.formulas
                     _ _ _ _) _ _).
    + reflexivity.
    + vm_compute. reflexivity.
    + vm_compute. reflexivity.
    + vm_compute. reflexivity.
    + reflexivity.
    + right. reflexivity.
  - refine (proj2 (proj2 (BinOp_fvalue_missing (data_type 1) (fvalue 1) 0 1 false
                     4 ast.Add 5 DataType.TEXT (VStr "a") (VStr "b")
                     Sample.formulas Sample.formulas Sample.formulas Sample.formulas
                     _ _ _ _) _) "a" "b" _ _).
    + reflexivity.
    + vm_compute. reflexivity.
    + vm_compute. reflexivity.
    + vm_compute. reflexivity.
    + reflexivity.
    + reflexivity.
    + reflexivity.
Defined.

(** [1 + NA] is the integer sentinel. *)
Lemma BinOp_fvalue_integer_sentinel_witness :
  BinOp_fvalue (data_type 1) (fvalue 1) 0 ast.Add 2 0 1 false Sample.formulas
  = (Ok (get_missing (Some TInt)), Sample.formulas).
Proof.
  apply (BinOp_fvalue_integer_sentinel (data_type 1) (fvalue 1) 0 1 false
           0 ast.Add 2 DataType.INTEGER (VInt 1) (VInt Sample.INT_MIN)
           Sample.formulas Sample.formulas Sample.formulas Sample.formulas).
  - vm_compute. reflexivity.
  - vm_compute. reflexivity.
  - vm_compute. reflexivity.
  - reflexivity.
  - right. reflexivity.
Defined.

(** [2 // 3], an operator kind [BinOp.fvalue] has no branch for, evaluates
    to [get_missing()]; the unary and boolean nodes raise. *)
Lemma unsupported_operator_kind_witness :
  UnaryOp_fvalue (fvalue 1) ast.FloorDiv 6 0 1 false Sample.formulas
  = (Raise (RuntimeError "Shouldn't get here"), Sample.formulas)
  /\ BoolOp_fvalue (fvalue 1) ast.FloorDiv [6; 7] 0 1 false Sample.formulas
     = (Raise (RuntimeError "Shouldn't get here"), Sample.formulas)
  /\ BinOp_fvalue (data_type 1) (fvalue 1) 6 ast.FloorDiv 7 0 1 false Sample.formulas
     = (Ok (get_missing None), Sample.formulas).
Proof.
  destruct (unsupported_operator_kind (data_type 1) (fvalue 1) 0 1 false)
    as (A & _ & B & C).
  split; [|split].
  - apply (A ast.FloorDiv 6 (VInt 2)); [reflexivity | vm_compute; reflexivity].
  - apply B. reflexivity.
  - apply (C 6 ast.FloorDiv 7 DataType.INTEGER (VInt 2) (VInt 3)
             Sample.formulas Sample.formulas Sample.formulas Sample.formulas).
    + reflexivity.
    + vm_compute. reflexivity.
    + vm_compute. reflexivity.
    + vm_compute. reflexivity.
Defined.

(** C9 as stated fails for the binary node: [2 // 3] is evaluated to a value,
    the missing value [get_missing()], and nothing is raised. *)
Lemma BinOp_unsupported_returns_value :
  BinOp_supports ast.FloorDiv = false
  /\ fvalue 2 12 0 1 false Sample.formulas = (Ok (get_missing None), Sample.formulas)
  /\ is_missing (get_missing None) = true.
Proof. split; [reflexivity|]. split; [vm_compute; reflexivity | reflexivity]. Qed.

(** C5.  A node built with [ast.Pow] has data type decimal and measure type
    continuous whatever its operands are.  A node built with [ast.BitXor],
    which [fvalue] evaluates as a power, has not: [2 ^ 3] over two integer
    literals has data type integer and measure type ordinal, and its value
    is 8, computed in the integer domain. *)
Theorem BinOp_power_types :
  (forall (R : Runtime) (dt : data_type_t) (mt : measure_type_t) left_ right_ h,
      BinOp_data_type dt left_ ast.Pow right_ h = (Ok DataType.DECIMAL, h)
      /\ BinOp_measure_type dt mt left_ ast.Pow right_ h = (Ok MeasureType.CONTINUOUS, h))
  /\ data_type 2 11 Sample.formulas = (Ok DataType.INTEGER, Sample.formulas)
  /\ measure_type 2 11 Sample.formulas = (Ok MeasureType.ORDINAL, Sample.formulas)
  /\ fvalue 2 11 0 1 false Sample.formulas = (Ok (VInt 8), Sample.formulas).
Proof.
  split; [intros; apply BinOp_Pow_types|].
  repeat split; vm_compute; reflexivity.
Qed.

(** ** Call: reading and writing the node's fields *)

Section CallFieldsRun.
Context `{Runtime}.

Lemma run_deref self o h : objects h !! self = Some o -> deref self h = (Ok o, h).
Proof. intros E. unfold deref. now rewrite E. Qed.

Lemma run_read_list l a h : lists h !! l = Some a -> read_list l h = (Ok a, h).
Proof. intros E. unfold read_list. now rewrite E. Qed.

Lemma run_call_fields self o c h :
  objects h !! self = Some o -> class_ o = Call c -> call_fields self h = (Ok c, h).
Proof.
  intros E C. unfold call_fields. rewrite (run_bind _ _ _ _ _ (run_deref _ _ _ E)), C.
  reflexivity.
Qed.

Lemma run_update_call f self o c h :
  objects h !! self = Some o -> class_ o = Call c ->
  update_call f self h = (Ok tt, updated f self o c h).
Proof.
  intros E C. unfold update_call. rewrite (run_bind _ _ _ _ _ (run_deref _ _ _ E)), C.
  reflexivity.
Qed.

Lemma updated_lookup f self o c h :
  objects (updated f self o c h) !! self
  = Some {| class_ := Call (f c); _node_parents := _node_parents o |}.
Proof. cbn. apply lookup_insert_eq. Qed.

End CallFieldsRun.

(** ** Call: result types *)

Section CallTypes.
Context `{Runtime}.



(** When the types of the children can be read off without a change of the
    store, the entries gathered for the positions of [returns] are those of
    the arguments at these positions. *)
Lemma Call_arg_types_pure (data_type : data_type_t) (measure_type : measure_type_t)
    (D : oid -> DataType.t) (Mt : oid -> MeasureType.t) a returns_ h :
  (forall x g, data_type x g = (Ok (D x), g)) ->
  (forall x g, measure_type x g = (Ok (Mt x), g)) ->
  Call_arg_types data_type measure_type a returns_ h
  = (Ok ((fun arg_i => match a !! arg_i with
                       | Some arg => (Some (D arg), Some (Mt arg))
                       | None => (None, None)
                       end) <$> returns_), h).
Proof.
  intros HD HM. unfold Call_arg_types. induction returns_ as [|i returns_ IH]; [reflexivity|].
  rewrite run_mapM_cons. cbn [fmap list_fmap].
  destruct (a !! i) as [arg|].
  - unfold mbind at 1, M_bind at 1. unfold mbind at 1, M_bind at 1.
    rewrite HD. unfold mbind at 1, M_bind at 1. rewrite HM. rewrite run_ret.
    unfold mbind at 1, M_bind at 1. rewrite IH. reflexivity.
  - unfold mbind at 1, M_bind at 1. rewrite run_ret.
    unfold mbind at 1, M_bind at 1. rewrite IH. reflexivity.
Qed.

Variables (data_type : data_type_t) (measure_type : measure_type_t).



End CallTypes.


(** ** Call: memoization of whole-column functions *)

Section CallMemo.
Context `{Runtime}.

Lemma invocations_app self t e :
  invocations self (t ++ [e]) = invocations self t + (if invoked_by self e then 1 else 0).
Proof.
  unfold invocations. rewrite List.filter_app, length_app. cbn.
  now destruct (invoked_by self e).
Qed.

Lemma Call_fvalue_cached (fvalue : fvalue_t) self c value index row_count filt h :
  String.eqb (__name__ (_function c)) "OFFSET" = false ->
  is_column_wise (meta (_function c)) = true ->
  _cached_value c = Some value ->
  Call_fvalue fvalue self c index row_count filt h = (Ok value, h).
Proof. intros N W Cv. unfold Call_fvalue. now rewrite N, W, Cv. Qed.

Lemma fvalue_Call fuel self o c index row_count filt h :
  objects h !! self = Some o -> class_ o = Call c ->
  fvalue (S fuel) self index row_count filt h
  = Call_fvalue (fvalue fuel) self c index row_count filt h.
Proof.
  intros E C. cbn [fvalue]. now rewrite (run_bind _ _ _ _ _ (run_deref _ _ _ E)), C.
Qed.

Lemma fvalue_cached_rows self o c value h :
  objects h !! self = Some o -> class_ o = Call c ->
  String.eqb (__name__ (_function c)) "OFFSET" = false ->
  is_column_wise (meta (_function c)) = true ->
  _cached_value c = Some value ->
  forall (fuel : nat) (rows : list (Z * Z * bool)),
    mapM (fun r => fvalue (S fuel) self r.1.1 r.1.2 r.2) rows h
    = (Ok (replicate (length rows) value), h).
Proof.
  intros E C N W Cv fuel rows. induction rows as [|r rows IH]; [reflexivity|].
  assert (R : fvalue (S fuel) self r.1.1 r.1.2 r.2 h = (Ok value, h)).
  { rewrite (fvalue_Call _ _ _ _ _ _ _ _ E C). apply Call_fvalue_cached; assumption. }
  rewrite run_mapM_cons. cbv beta.
  rewrite (run_bind _ _ _ _ _ R). now rewrite (run_bind _ _ _ _ _ IH).
Qed.

Lemma needs_recalc_Call self o c h :
  objects h !! self = Some o -> class_ o = Call c ->
  needs_recalc self h = (Ok (Call_needs_recalc c), h).
Proof.
  intros E C. unfold needs_recalc.
  now rewrite (run_bind _ _ _ _ _ (run_deref _ _ _ E)), C.
Qed.

End CallMemo.

(** ** Recalculation notifications *)

Section Recalc.
Context `{Runtime}.

Lemma inval_obj_refl o : inval_obj o o.
Proof. split; [reflexivity | now left]. Qed.

Lemma inval_obj_trans o1 o2 o3 : inval_obj o1 o2 -> inval_obj o2 o3 -> inval_obj o1 o3.
Proof.
  intros [P1 C1] [P2 C2]. split; [congruence|].
  destruct C1 as [C1|(c & C1 & C1')], C2 as [C2|(c' & C2 & C2')].
  - left. congruence.
  - right. exists c'. split; congruence.
  - right. exists c. split; congruence.
  - right. exists c. split; [assumption|].
    rewrite C2'. rewrite C1' in C2. now injection C2 as <-.
Qed.

Lemma invalidated_refl h : invalidated h h.
Proof.
  split; [|split].
  - intros x. destruct (objects h !! x); constructor. apply inval_obj_refl.
  - exists []. now rewrite app_nil_r.
  - reflexivity.
Qed.

Lemma invalidated_trans h1 h2 h3 : invalidated h1 h2 -> invalidated h2 h3 -> invalidated h1 h3.
Proof.
  intros (O1 & (t1 & T1) & L1) (O2 & (t2 & T2) & L2). split; [|split].
  - intros x. specialize (O1 x). specialize (O2 x).
    destruct O1 as [o1 o2 I1|]; inversion O2 as [? o3 I2|]; subst; constructor.
    eapply inval_obj_trans; eauto.
  - exists (t1 ++ t2). now rewrite T2, T1, app_assoc.
  - congruence.
Qed.

Lemma invalidated_is_Some h h' x :
  invalidated h h' -> is_Some (objects h !! x) -> is_Some (objects h' !! x).
Proof.
  intros (O & _) [o E]. specialize (O x). rewrite E in O. inversion O. eauto.
Qed.

Lemma invalidated_lookup h h' x o :
  invalidated h h' -> objects h !! x = Some o ->
  exists o', objects h' !! x = Some o' /\ inval_obj o o'.
Proof.
  intros (O & _) E. specialize (O x). rewrite E in O. inversion O; subst. eauto.
Qed.

Lemma invalidated_trace h h' e : invalidated h h' -> e ∈ trace h -> e ∈ trace h'.
Proof. intros (_ & (t & ->) & _) I. apply elem_of_app. now left. Qed.

Lemma invalidated_ranked rk h h' : ranked rk h -> invalidated h h' -> ranked rk h'.
Proof.
  intros R I x o' E'. pose proof I as (O & _). specialize (O x). rewrite E' in O.
  inversion O as [o ? [P _] Eo|]; subst. symmetry in Eo.
  rewrite P. specialize (R x o Eo). cbn in R.
  eapply Forall_impl; [exact R|]. cbn. intros p [S L]. split; [|exact L].
  eapply invalidated_is_Some; eauto.
Qed.

Lemma invalidated_log e h : invalidated h (set_trace (fun t => t ++ [e]) h).
Proof.
  split; [|split].
  - intros x. cbn. destruct (objects h !! x); constructor. apply inval_obj_refl.
  - now exists [e].
  - reflexivity.
Qed.

Lemma invalidated_cleared self o c h :
  objects h !! self = Some o -> class_ o = Call c ->
  invalidated h (updated (with_cached_value None) self o c h).
Proof.
  intros E C. split; [|split].
  - intros x. cbn. destruct (decide (self = x)) as [<-|N].
    + rewrite lookup_insert_eq, E. constructor. split; [reflexivity|]. right. eauto.
    + rewrite lookup_insert_ne by assumption.
      destruct (objects h !! x); constructor. apply inval_obj_refl.
  - exists []. cbn. now rewrite app_nil_r.
  - reflexivity.
Qed.

(** The loop over the parents, given that a notification of a node of rank
    below [fuel] goes through. *)
Lemma for_each_set_needs_recalc rk fuel :
  (forall p h, ranked rk h -> is_Some (objects h !! p) -> rk p < fuel ->
     exists h', set_needs_recalc fuel p h = (Ok tt, h') /\ invalidated h h'
                /\ Notified p ∈ trace h') ->
  forall ps h, ranked rk h ->
    Forall (fun p => is_Some (objects h !! p) /\ rk p < fuel) ps ->
    exists h', for_each (set_needs_recalc fuel) ps h = (Ok tt, h') /\ invalidated h h'
               /\ Forall (fun p => Notified p ∈ trace h') ps.
Proof.
  intros IH ps. induction ps as [|p ps IHps]; intros h R F.
  - exists h. split; [reflexivity|]. split; [apply invalidated_refl | constructor].
  - inversion F as [|? ? [S L] F']; subst.
    destruct (IH p h R S L) as (h1 & E1 & I1 & N1).
    destruct (IHps h1) as (h2 & E2 & I2 & N2).
    + eapply invalidated_ranked; eauto.
    + eapply Forall_impl; [exact F'|]. cbn. intros q [Sq Lq]. split; [|exact Lq].
      eapply invalidated_is_Some; eauto.
    + exists h2. split; [|split].
      * cbn [for_each]. now rewrite (run_bind _ _ _ _ _ E1).
      * eapply invalidated_trans; eauto.
      * constructor; [|exact N2]. eapply invalidated_trace; eauto.
Qed.

Lemma Node_set_needs_recalc_run rk fuel self o h :
  (forall p h, ranked rk h -> is_Some (objects h !! p) -> rk p < fuel ->
     exists h', set_needs_recalc fuel p h = (Ok tt, h') /\ invalidated h h'
                /\ Notified p ∈ trace h') ->
  ranked rk h -> objects h !! self = Some o -> rk self < S fuel ->
  exists h', Node_set_needs_recalc (set_needs_recalc fuel) self h = (Ok tt, h')
             /\ invalidated h h'
             /\ Forall (fun p => Notified p ∈ trace h') (_node_parents o).
Proof.
  intros IH R E L. unfold Node_set_needs_recalc.
  rewrite (run_bind _ _ _ _ _ (run_deref _ _ _ E)).
  apply (for_each_set_needs_recalc rk fuel IH); [exact R|].
  specialize (R self o E). cbn in R.
  eapply Forall_impl; [exact R|]. cbn. intros p [S Lp]. split; [exact S|]. lia.
Qed.

(** A notification in a store without parent cycles goes through once the
    fuel exceeds the rank of the node: it clears nothing but memoized values,
    it is delivered to the node and to each of its parents, and it leaves a
    [Call] without a memoized value. *)
Lemma set_needs_recalc_run rk : forall fuel self h,
  ranked rk h -> is_Some (objects h !! self) -> rk self < fuel ->
  exists h', set_needs_recalc fuel self h = (Ok tt, h') /\ invalidated h h'
    /\ Notified self ∈ trace h'
    /\ (forall o, objects h !! self = Some o ->
          Forall (fun p => Notified p ∈ trace h') (_node_parents o))
    /\ (forall o c, objects h !! self = Some o -> class_ o = Call c ->
          exists o', objects h' !! self = Some o'
                     /\ class_ o' = Call (with_cached_value None c)
                     /\ _node_parents o' = _node_parents o).
Proof.
  induction fuel as [|fuel IH]; intros self h R [o E] L; [lia|].
  assert (IH' : forall p h, ranked rk h -> is_Some (objects h !! p) -> rk p < fuel ->
            exists h', set_needs_recalc fuel p h = (Ok tt, h') /\ invalidated h h'
                       /\ Notified p ∈ trace h').
  { intros p g Rg Sg Lg. destruct (IH p g Rg Sg Lg) as (g' & A & B & C & _). eauto. }
  set (ha := set_trace (fun t => t ++ [Notified self]) h).
  assert (Ia : invalidated h ha) by apply invalidated_log.
  assert (Ea : objects ha !! self = Some o) by exact E.
  assert (Na : Notified self ∈ trace ha) by (cbn; apply elem_of_app; right; constructor).
  assert (Ra : ranked rk ha) by (eapply invalidated_ranked; eauto).
  cbn [set_needs_recalc]. unfold log, modify at 1. unfold mbind at 1, M_bind at 1. fold ha.
  rewrite (run_bind _ _ _ _ _ (run_deref _ _ _ Ea)).
  destruct (class_ o) as [| | | |c| | |] eqn:C.
  5: { (* a Call: the memoized value goes first *)
    unfold Call_set_needs_recalc.
    rewrite (run_bind _ _ _ _ _ (run_update_call _ _ _ _ _ Ea C)).
    set (hb := updated (with_cached_value None) self o c ha).
    assert (Ib : invalidated ha hb) by (now apply invalidated_cleared).
    set (ob := {| class_ := Call (with_cached_value None c);
                  _node_parents := _node_parents o |}).
    assert (Eb : objects hb !! self = Some ob) by apply updated_lookup.
    destruct (Node_set_needs_recalc_run rk fuel self ob hb IH') as (h' & E' & I' & N');
      [eapply invalidated_ranked; eauto | exact Eb | exact L |].
    exists h'. split; [exact E'|].
    assert (I : invalidated h h')
      by (eapply invalidated_trans; [|exact I']; eapply invalidated_trans; eauto).
    split; [exact I|]. split; [|split].
    - eapply invalidated_trace; [|exact Na]. eapply invalidated_trans; eauto.
    - intros o0 E0. rewrite E in E0. injection E0 as <-. exact N'.
    - intros o0 c0 E0 C0. rewrite E in E0. injection E0 as <-.
      rewrite C in C0. injection C0 as <-.
      destruct (invalidated_lookup _ _ _ _ I' Eb) as (o' & Eo' & P' & K').
      exists o'. split; [exact Eo'|]. split; [|exact P'].
      destruct K' as [K'|(c' & K1 & K2)]; [exact K'|].
      cbn in K1. injection K1 as <-. exact K2. }
  all: destruct (Node_set_needs_recalc_run rk fuel self o ha IH' Ra Ea L)
         as (h' & E' & I' & N');
    exists h'; (split; [exact E'|]);
    (split; [eapply invalidated_trans; eauto|]);
    (split; [eapply invalidated_trace; eauto|]);
    (split; [intros o0 E0; rewrite E in E0; injection E0 as <-; exact N'
            |intros o0 c0 E0 C0; rewrite E in E0; injection E0 as <-;
             rewrite C in C0; discriminate C0]).
Qed.

End Recalc.

(** ** Call: level discovery *)

Section Levels.
Context `{Runtime}.

Lemma count_uses_cons v column level_use :
  count_uses (v :: column) level_use
  = count_uses column (match label_of v with
                       | Some s => od_incr s level_use
                       | None => level_use
                       end).
Proof.
  cbn [count_uses]. unfold label_of. destruct (is_missing v); [reflexivity|].
  now destruct (convert v (Some TStr)).
Qed.

Lemma od_incr_keys s d : (od_incr s d).*1 = d.*1.
Proof.
  induction d as [|[k n] d IH]; [reflexivity|]. cbn [od_incr].
  destruct (String.eqb s k); cbn; [reflexivity | now rewrite IH].
Qed.

Lemma used_labels_cons k n d :
  used_labels ((k, n) :: d) = if decide (0 < n) then k :: used_labels d else used_labels d.
Proof. unfold used_labels. rewrite filter_cons. cbn. now destruct (decide (0 < n)). Qed.

Lemma od_incr_used s d l :
  l ∈ used_labels (od_incr s d) <-> l ∈ used_labels d \/ (l = s /\ s ∈ d.*1).
Proof.
  induction d as [|[k n] d IH].
  - cbn. split; [intros I; now left|]. intros [I|[_ I]]; [exact I|]. inversion I.
  - cbn [od_incr]. destruct (String.eqb s k) eqn:Sk.
    + apply String.eqb_eq in Sk as ->. rewrite !used_labels_cons.
      destruct (decide (0 < S n)) as [_|N]; [|lia].
      destruct (decide (0 < n)); cbn [fmap list_fmap fst];
        rewrite ?elem_of_cons; intuition (subst; auto).
    + apply String.eqb_neq in Sk. rewrite !used_labels_cons.
      destruct (decide (0 < n)); cbn [fmap list_fmap fst];
        rewrite ?elem_of_cons, IH; intuition (subst; auto); congruence.
Qed.

Lemma count_uses_keys column : forall d, (count_uses column d).*1 = d.*1.
Proof.
  induction column as [|v column IH]; intros d; [reflexivity|].
  rewrite count_uses_cons, IH. destruct (label_of v); [apply od_incr_keys | reflexivity].
Qed.

Lemma count_uses_used column : forall d l,
  l ∈ used_labels (count_uses column d)
  <-> l ∈ used_labels d \/ (l ∈ d.*1 /\ exists v, v ∈ column /\ label_of v = Some l).
Proof.
  induction column as [|v column IH]; intros d l.
  - cbn. split; [now left|]. intros [I|(_ & w & I & _)]; [exact I | inversion I].
  - rewrite count_uses_cons, IH. destruct (label_of v) as [s|] eqn:Lv.
    + rewrite od_incr_used, od_incr_keys. split.
      * intros [[I|[-> I]]|(I & w & Iw & Lw)]; auto.
        -- right. split; [exact I|]. exists v. split; [left | exact Lv].
        -- right. split; [exact I|]. exists w. split; [now right | exact Lw].
      * intros [I|(I & w & Iw & Lw)]; auto.
        apply elem_of_cons in Iw as [->|Iw].
        -- left. right. rewrite Lv in Lw. injection Lw as ->. auto.
        -- right. eauto.
    + split.
      * intros [I|(I & w & Iw & Lw)]; auto.
        right. split; [exact I|]. exists w. split; [now right | exact Lw].
      * intros [I|(I & w & Iw & Lw)]; auto.
        apply elem_of_cons in Iw as [->|Iw]; [congruence|]. right. eauto.
Qed.

Lemma used_labels_sublist d : used_labels d `sublist_of` d.*1.
Proof. unfold used_labels. apply fmap_sublist, sublist_filter. Qed.

Lemma unused_used_labels d : unused d -> used_labels d = [].
Proof.
  induction 1 as [|[k n] d Z _ IH]; [reflexivity|].
  rewrite used_labels_cons. cbn in Z. subst n. exact IH.
Qed.

Lemma od_set_keys k d :
  (od_set k 0 d).*1 = if bool_decide (k ∈ d.*1) then d.*1 else d.*1 ++ [k].
Proof.
  induction d as [|[k' n] d IH]; [reflexivity|]. cbn [od_set].
  destruct (String.eqb k k') eqn:K.
  - apply String.eqb_eq in K as ->. cbn.
    rewrite bool_decide_eq_true_2 by (now left). reflexivity.
  - apply String.eqb_neq in K. cbn. rewrite IH.
    destruct (bool_decide (k ∈ d.*1)) eqn:B.
    + apply bool_decide_eq_true_1 in B.
      rewrite bool_decide_eq_true_2 by (now right). reflexivity.
    + apply bool_decide_eq_false_1 in B.
      rewrite bool_decide_eq_false_2; [reflexivity|].
      intros [E|I]%elem_of_cons; auto.
Qed.

Lemma od_set_NoDup k d : NoDup d.*1 -> NoDup (od_set k 0 d).*1.
Proof.
  intros N. rewrite od_set_keys. destruct (bool_decide (k ∈ d.*1)) eqn:B; [exact N|].
  apply bool_decide_eq_false_1 in B. apply NoDup_app. split; [exact N|].
  split; [|apply NoDup_singleton].
  intros x I J. apply list_elem_of_singleton in J as ->. auto.
Qed.

Lemma od_set_unused k d : unused d -> unused (od_set k 0 d).
Proof.
  induction 1 as [|[k' n] d Z U IH]; cbn [od_set].
  - repeat constructor.
  - destruct (String.eqb k k'); constructor; auto.
Qed.

Lemma seed_invariant (ls : list (Z * string)) : forall d,
  NoDup d.*1 /\ unused d ->
  let d' := foldl (fun d (level : Z * string) => od_set level.2 0 d) d ls in
  NoDup d'.*1 /\ unused d'.
Proof.
  induction ls as [|l ls IH]; intros d [N U]; [now split|].
  cbn [foldl]. apply IH. split; [now apply od_set_NoDup | now apply od_set_unused].
Qed.

(** The candidates are distinct and start uncounted. *)
Lemma Call_level_candidates_invariant (has_levels : has_levels_t) (get_levels : get_levels_t)
    self_args row_count indices : forall d d' h h',
  Call_level_candidates has_levels get_levels self_args indices row_count d h = (Ok d', h') ->
  NoDup d.*1 /\ unused d -> NoDup d'.*1 /\ unused d'.
Proof.
  induction indices as [|arg_i indices IH]; intros d d' h h' E I.
  - cbn in E. injection E as <- <-. exact I.
  - cbn [Call_level_candidates] in E.
    apply run_bind_inv in E as (a & h1 & _ & E).
    destruct (a !! arg_i) as [arg|]; [|now apply (IH _ _ _ _ E)].
    apply run_bind_inv in E as (b & h2 & _ & E).
    destruct b; [|now apply (IH _ _ _ _ E)].
    apply run_bind_inv in E as (ls & h3 & _ & E).
    apply (IH _ _ _ _ E). now apply seed_invariant.
Qed.

Lemma enumerate_from_codes labels : forall k : nat,
  (enumerate_from (Z.of_nat k) labels).*1 = Z.of_nat <$> seq k (length labels).
Proof.
  induction labels as [|l labels IH]; intros k; [reflexivity|].
  cbn [enumerate_from length seq fmap list_fmap fst]. f_equal.
  replace (Z.of_nat k + 1)%Z with (Z.of_nat (S k)) by lia. apply IH.
Qed.

Lemma enumerate_from_labels labels : forall i, (enumerate_from i labels).*2 = labels.
Proof.
  induction labels as [|l labels IH]; intros i; [reflexivity|].
  cbn [enumerate_from fmap list_fmap snd]. f_equal. apply IH.
Qed.

Variables (data_type : data_type_t) (measure_type : measure_type_t)
          (has_levels : has_levels_t) (get_levels : get_levels_t) (fvalue : fvalue_t).

(** What [Call.get_levels] returns.  A level-relevant call node
    (level-source positions declared, arguments present, text data type, a
    measure type other than identifier), whose level-source arguments yield
    the candidate labels [level_use] and whose column of values is [column]:
    the levels returned are the candidates used at least once in the column,
    missing values left out, in the order in which the candidates were
    collected, without repetition, and numbered 0, 1, ..., n-1. *)
Lemma Call_get_levels_discovered self o c a m level_use column row_count h h1 h2 h3 h4 :
  objects h !! self = Some o -> class_ o = Call c ->
  arg_level_indices (meta (_function c)) <> [] ->
  lists h !! args c = Some a -> a <> [] ->
  Call_data_type data_type measure_type self h = (Ok DataType.TEXT, h1) ->
  Call_measure_type data_type measure_type self h1 = (Ok m, h2) ->
  m <> MeasureType.ID ->
  Call_level_candidates has_levels get_levels (args c)
    (arg_level_indices (meta (_function c))) row_count [] h2 = (Ok level_use, h3) ->
  Node_fvalues fvalue self row_count false h3 = (Ok column, h4) ->
  exists labels,
    Call_get_levels data_type measure_type has_levels get_levels fvalue self row_count h
    = (Ok (enumerate_from 0 labels), h4)
    /\ labels = used_labels (count_uses column level_use)
    /\ (enumerate_from 0 labels).*1 = Z.of_nat <$> seq 0 (length labels)
    /\ (enumerate_from 0 labels).*2 = labels
    /\ NoDup labels
    /\ (forall l, l ∈ labels
                  <-> l ∈ level_use.*1 /\ exists v, v ∈ column /\ label_of v = Some l)
    /\ labels `sublist_of` level_use.*1.
Proof.
  intros E C Ni L Na Ed Em Nm Ec Ev.
  exists (used_labels (count_uses column level_use)).
  destruct (Call_level_candidates_invariant _ _ _ _ _ _ _ _ _ Ec) as [Nd U];
    [split; [constructor | constructor]|].
  split; [|split; [reflexivity|split; [|split; [|split; [|split]]]]].
  - unfold Call_get_levels.
    rewrite (run_bind _ _ _ _ _ (run_call_fields _ _ _ _ E C)). cbv zeta.
    rewrite bool_decide_eq_false_2
      by (now destruct (arg_level_indices (meta (_function c)))).
    rewrite (run_bind _ _ _ _ _ (run_read_list _ _ _ L)).
    rewrite bool_decide_eq_false_2 by (now destruct a).
    rewrite (run_bind _ _ _ _ _ Ed). cbn [is_TEXT negb].
    rewrite (run_bind _ _ _ _ _ Em).
    replace (is_ID m) with false by (now destruct m).
    rewrite (run_bind _ _ _ _ _ Ec), (run_bind _ _ _ _ _ Ev). reflexivity.
  - apply (enumerate_from_codes _ 0).
  - apply enumerate_from_labels.
  - eapply sublist_NoDup; [|apply used_labels_sublist].
    now rewrite count_uses_keys.
  - intros l. rewrite count_uses_used, (unused_used_labels _ U). split.
    + intros [I|I]; [inversion I | exact I].
    + intros I. now right.
  - rewrite <- (count_uses_keys column level_use). apply used_labels_sublist.
Qed.

End Levels.

(** C7 as stated fails in its last part: the column of [PICK("a", "b")] over
    two rows is ["b"; "a"], so the labels in the order of their first use
    are b, a; the levels discovered are (0, a), (1, b), in the order in
    which the candidates were collected from the arguments. *)
Lemma Call_get_levels_not_in_first_use_order :
  (Node_fvalues (fvalue 2) 2 2 false Sample.picks).1 = Ok [VStr "b"; VStr "a"]
  /\ (get_levels 3 2 2 Sample.picks).1 = Ok [(0%Z, "a"); (1%Z, "b")]
  /\ enumerate_from 0 (first_use_order ["a"; "b"] [] [VStr "b"; VStr "a"])
     = [(0%Z, "b"); (1%Z, "a")]
  /\ [(0%Z, "a"); (1%Z, "b")] <> [(0%Z, "b"); (1%Z, "a")].
Proof.
  split; [vm_compute; reflexivity|].
  split; [vm_compute; reflexivity|].
  split; [vm_compute; reflexivity|].
  discriminate.
Qed.

(** ** Call: construction and release with a shared argument *)

(** C6.  [CENTER(1 + 2)], with [CENTER(index, x, total=VSUM)].
    Construction does what the claim says: it synthesizes the call
    [VSUM(1 + 2)] (node 4) for the omitted parameter, on a list that holds
    the shared argument (node 2), appends it to the argument list of the
    outer call (node 3), and registers it as a parent of the shared argument.
    Release does not: the outer call releases the shared argument and
    unlinks itself from it, then releases the synthesized call, which
    releases the shared argument a second time; the sum is no longer among
    the parents of its operands and [list.remove] raises [ValueError], with
    whatever fuel.  The release stops there: the outer call is still a
    parent of the synthesized call.  When the shared argument is a literal,
    as in [CENTER(1)], whose release does nothing, the release goes through
    and leaves no parent reference behind. *)
Theorem Call_release_shared_argument :
  (lists Sample.centered_sum !! 0 = Some [2; 4]
   /\ Sample.call_of Sample.centered_sum 4 = Some ("VSUM", 1)
   /\ lists Sample.centered_sum !! 1 = Some [2]
   /\ Sample.parents_of Sample.centered_sum <$> [0; 1; 2; 3; 4]
      = [Some [2]; Some [2]; Some [4; 3]; Some []; Some [3]])
  /\ (forall fuel,
         (_release (4 + fuel) 3 Sample.centered_sum).1 = Raise ValueError
         /\ Sample.parents_of (_release (4 + fuel) 3 Sample.centered_sum).2 4 = Some [3])
  /\ (forall fuel,
         (_release (3 + fuel) 1 Sample.centered_one).1 = Ok tt
         /\ Sample.parents_of (_release (3 + fuel) 1 Sample.centered_one).2 <$> [0; 1; 2]
            = [Some []; Some []; Some []]).
Proof.
  split; [|split].
  - repeat split; vm_compute; reflexivity.
  - intros fuel. split; vm_compute; reflexivity.
  - intros fuel. split; vm_compute; reflexivity.
Qed.

(** ** Evaluating again *)

Section Replay.
Context `{Runtime}.
Variable rk : oid -> nat.

Lemma grow_call_refl c : grow_call c c.
Proof. repeat split; auto. Qed.

Lemma grow_call_trans c1 c2 c3 : grow_call c1 c2 -> grow_call c2 c3 -> grow_call c1 c3.
Proof.
  intros (F1 & A1 & T1 & V1 & D1 & M1) (F2 & A2 & T2 & V2 & D2 & M2).
  repeat split; try congruence; auto.
Qed.

Lemma grow_node_refl n : grow_node n n.
Proof. destruct n; cbn; auto. eexists. split; [reflexivity | apply grow_call_refl]. Qed.

Lemma grow_node_trans n1 n2 n3 : grow_node n1 n2 -> grow_node n2 n3 -> grow_node n1 n3.
Proof.
  destruct n1; cbn; try (intros -> G; exact G).
  intros (c2 & -> & G12) (c3 & -> & G23). exists c3. split; [reflexivity|].
  eapply grow_call_trans; eauto.
Qed.

Lemma grow_obj_refl o : grow_obj o o.
Proof. split; [reflexivity | apply grow_node_refl]. Qed.

Lemma grow_obj_trans o1 o2 o3 : grow_obj o1 o2 -> grow_obj o2 o3 -> grow_obj o1 o3.
Proof.
  intros [P1 G1] [P2 G2]. split; [congruence | eapply grow_node_trans; eauto].
Qed.

Lemma grows_refl h : grows h h.
Proof.
  split; [reflexivity|]. intros x. destruct (objects h !! x); constructor.
  apply grow_obj_refl.
Qed.

Lemma grows_trans h1 h2 h3 : grows h1 h2 -> grows h2 h3 -> grows h1 h3.
Proof.
  intros [L1 O1] [L2 O2]. split; [congruence|]. intros x.
  specialize (O1 x). specialize (O2 x).
  destruct O1 as [o1 o2 G1|]; inversion O2 as [? o3 G2|]; subst; constructor.
  eapply grow_obj_trans; eauto.
Qed.

Lemma grows_lookup h g x o :
  grows h g -> objects h !! x = Some o ->
  exists o', objects g !! x = Some o' /\ grow_obj o o'.
Proof.
  intros [_ O] E. specialize (O x). rewrite E in O. inversion O; subst. eauto.
Qed.

Lemma grows_set_trace f h : grows h (set_trace f h).
Proof.
  split; [reflexivity|]. intros x. cbn. destruct (objects h !! x); constructor.
  apply grow_obj_refl.
Qed.

Lemma well_formed_set_trace f h : well_formed rk h -> well_formed rk (set_trace f h).
Proof. intros W. exact W. Qed.

Lemma well_formed_lookup h x o :
  well_formed rk h -> objects h !! x = Some o ->
  Forall (fun y => rk y < rk x) (children (lists h) (class_ o))
  /\ memo_consistent (class_ o) = true.
Proof. intros W E. exact (W x o E). Qed.

(** Filling in a field of a call keeps the store well formed. *)
Lemma well_formed_updated f x o c h :
  well_formed rk h -> objects h !! x = Some o -> class_ o = Call c ->
  args (f c) = args c -> memo_consistent (Call (f c)) = true ->
  well_formed rk (updated f x o c h).
Proof.
  intros W E C A Mc. unfold well_formed, updated. cbn.
  apply map_Forall_insert_2; [|exact W].
  destruct (well_formed_lookup h x o W E) as [F _]. rewrite C in F. cbn in F.
  cbn. rewrite A. split; [exact F | exact Mc].
Qed.

Lemma grows_updated f x o c h :
  objects h !! x = Some o -> class_ o = Call c -> grow_call c (f c) ->
  grows h (updated f x o c h).
Proof.
  intros E C G. split; [reflexivity|]. intros y. cbn.
  destruct (decide (x = y)) as [<-|N].
  - rewrite lookup_insert_eq, E. constructor. split; [reflexivity|].
    rewrite C. cbn. eauto.
  - rewrite lookup_insert_ne by assumption.
    destruct (objects h !! y); constructor. apply grow_obj_refl.
Qed.

Lemma updated_frame f x o c h y : x <> y ->
  objects (updated f x o c h) !! y = objects h !! y.
Proof. intros N. cbn. now rewrite lookup_insert_ne. Qed.

(** *** The building blocks *)

Lemma advances_refl k h : well_formed rk h -> advances rk k h h.
Proof.
  intros W. split; [exact W|]. split; [apply grows_refl|]. split; [reflexivity|].
  exists []. split; [now rewrite app_nil_r | constructor].
Qed.

Lemma advances_trans k h1 h2 h3 :
  advances rk k h1 h2 -> advances rk k h2 h3 -> advances rk k h1 h3.
Proof.
  intros (_ & G1 & F1 & t1 & T1 & R1) (W2 & G2 & F2 & t2 & T2 & R2).
  split; [exact W2|]. split; [eapply grows_trans; eauto|]. split.
  - intros y Ly. now rewrite F2, F1.
  - exists (t1 ++ t2). split; [now rewrite T2, T1, app_assoc|].
    apply Forall_app. now split.
Qed.

Lemma advances_weaken k k' h h1 : k <= k' -> advances rk k h h1 -> advances rk k' h h1.
Proof.
  intros Lk (W & G & F & t & T & R). split; [exact W|]. split; [exact G|]. split.
  - intros y Ly. apply F. lia.
  - exists t. split; [exact T|]. eapply Forall_impl; [exact R|]. cbn. intros e Le. lia.
Qed.

Lemma advances_log k e h :
  rk (event_node e) < k -> well_formed rk h ->
  advances rk k h (set_trace (fun t => t ++ [e]) h).
Proof.
  intros Le W. split; [exact W|]. split; [apply grows_set_trace|]. split; [reflexivity|].
  exists [e]. split; [reflexivity|]. now constructor.
Qed.

(** Filling in a field of the call [x] advances the store for the rank
    above that of [x]. *)
Lemma advances_updated f x o c h :
  well_formed rk h -> objects h !! x = Some o -> class_ o = Call c ->
  grow_call c (f c) -> memo_consistent (Call (f c)) = true ->
  advances rk (S (rk x)) h (updated f x o c h).
Proof.
  intros W E C G Mc. split; [|split; [|split]].
  - apply well_formed_updated; auto. now destruct G as (_ & A & _).
  - now apply grows_updated.
  - intros y Ly. apply updated_frame. intros ->. lia.
  - exists []. split; [cbn; now rewrite app_nil_r | constructor].
Qed.

Lemma replay_ret {A} k (a : A) h : well_formed rk h -> replay_from rk k (mret a) h.
Proof.
  intros W r h1 [= <- <-]. split; [now apply advances_refl|].
  intros g G. exists g. split; [reflexivity | apply grows_refl].
Qed.

Lemma replay_lift {A} k (x : res A) h : well_formed rk h -> replay_from rk k (lift x) h.
Proof.
  intros W r h1 E. unfold lift in E. injection E as -> <-. now apply (replay_ret k r h).
Qed.

Lemma replay_raise {A} k e h : replay_from rk k (raise e : M A) h.
Proof. intros r h1 E. discriminate E. Qed.

Lemma replay_out_of_fuel {A} k h : replay_from rk k (out_of_fuel : M A) h.
Proof. intros r h1 E. discriminate E. Qed.

Lemma replay_log k e h :
  rk (event_node e) < k -> well_formed rk h -> replay_from rk k (log e) h.
Proof.
  intros Le W r h1 [= <- <-]. split; [now apply advances_log|].
  intros g G. eexists. split; [reflexivity | apply grows_set_trace].
Qed.

Lemma replay_read_list k l h : well_formed rk h -> replay_from rk k (read_list l) h.
Proof.
  intros W r h1 E. unfold read_list in E.
  destruct (lists h !! l) as [a|] eqn:L; [|discriminate E]. injection E as <- <-.
  split; [now apply advances_refl|].
  intros g [Lg _]. exists g. split; [|apply grows_refl].
  unfold read_list. now rewrite Lg, L.
Qed.

Lemma replay_weaken {A} k k' (E : M A) h :
  k <= k' -> replay_from rk k E h -> replay_from rk k' E h.
Proof.
  intros Lk R r h1 Er. destruct (R r h1 Er) as [Ad P].
  split; [eapply advances_weaken; eauto | exact P].
Qed.

Lemma replay_bind {A B} k (m : M A) (f : A -> M B) h :
  replay_from rk k m h ->
  (forall a h1, m h = (Ok a, h1) -> advances rk k h h1 -> replay_from rk k (f a) h1) ->
  replay_from rk k (m ≫= f) h.
Proof.
  intros Rm Rf b h2 E. apply run_bind_inv in E as (a & h1 & Em & Ef).
  destruct (Rm a h1 Em) as [A1 P1].
  destruct (Rf a h1 Em A1 b h2 Ef) as [A2 P2].
  split; [eapply advances_trans; eauto|].
  intros g Gg. pose proof A2 as (_ & G2 & _).
  destruct (P1 g (grows_trans _ _ _ G2 Gg)) as (g1 & Eg1 & Gg1).
  destruct (P2 g1 (grows_trans _ _ _ Gg Gg1)) as (g2 & Eg2 & Gg2).
  exists g2. split; [|eapply grows_trans; eauto].
  now rewrite (run_bind _ _ _ _ _ Eg1).
Qed.

Lemma replay_mapM {A B} k (f : A -> M B) l :
  (forall x h, x ∈ l -> well_formed rk h -> replay_from rk k (f x) h) ->
  forall h, well_formed rk h -> replay_from rk k (mapM f l) h.
Proof.
  induction l as [|x l IH]; intros Rf h W.
  - now apply (replay_ret k []).
  - change (mapM f (x :: l)) with (f x ≫= fun y => mapM f l ≫= fun k => mret (y :: k)).
    apply replay_bind; [apply Rf; [left | exact W]|].
    intros y h1 _ (W1 & _). apply replay_bind.
    + apply IH; [|exact W1]. intros z g Iz. apply Rf. now right.
    + intros ys h2 _ (W2 & _). now apply replay_ret.
Qed.

End Replay.

Section ReplayMethods.
Context `{Runtime}.
Variable rk : oid -> nat.

Ltac replay_auto :=
  repeat first
    [ assumption
    | apply replay_ret
    | apply replay_lift
    | apply replay_raise
    | apply replay_out_of_fuel
    | apply replay_read_list
    | (apply replay_bind; [|intros ? ? _ (? & _)])
    | match goal with
      | |- replay_from _ _ (if ?b then _ else _) _ => destruct b
      | |- replay_from _ _ (match ?x with _ => _ end) _ => destruct x
      end
    | solve [eauto] ].

Lemma run_read_list_inv l a h h1 :
  read_list l h = (Ok a, h1) -> h1 = h /\ lists h !! l = Some a.
Proof. unfold read_list. destruct (lists h !! l); intros [= <- <-]; auto. Qed.

Lemma run_deref_inv x o h h1 :
  deref x h = (Ok o, h1) -> h1 = h /\ objects h !! x = Some o.
Proof. unfold deref. destruct (objects h !! x); intros [= <- <-]; auto. Qed.

Lemma run_call_fields_inv x c h h1 :
  call_fields x h = (Ok c, h1) ->
  h1 = h /\ exists o, objects h !! x = Some o /\ class_ o = Call c.
Proof.
  unfold call_fields. intros E. apply run_bind_inv in E as (o & h' & Eo & E).
  apply run_deref_inv in Eo as [-> Eo].
  destruct (class_ o) eqn:C; try discriminate E. injection E as <- <-. eauto.
Qed.

Lemma replay_list_item {A} k (a : list A) i h :
  well_formed rk h -> replay_from rk k (list_item a i) h.
Proof. intros W. unfold list_item. replay_auto. Qed.

Lemma replay_convert_args k arg_types vs : forall i h,
  well_formed rk h -> replay_from rk k (convert_args arg_types i vs) h.
Proof.
  induction vs as [|v vs IH]; intros i h W; cbn [convert_args]; [replay_auto|].
  apply replay_bind; [now apply replay_list_item|]. intros t h1 _ (W1 & _).
  apply replay_bind; [now apply IH|]. intros ws h2 _ (W2 & _). replay_auto.
Qed.

Lemma replay_last_arg_type k arg_types n : forall i t h,
  well_formed rk h -> replay_from rk k (last_arg_type arg_types i n t) h.
Proof.
  induction n as [|n IH]; intros i t h W; cbn [last_arg_type]; [replay_auto|].
  apply replay_bind; [now apply replay_list_item|]. intros t' h1 _ (W1 & _). now apply IH.
Qed.

Lemma replay_UnaryOp_fvalue k (fvalue : fvalue_t) op operand index row_count filt h :
  (forall i rc f g, well_formed rk g -> replay_from rk k (fvalue operand i rc f) g) ->
  well_formed rk h ->
  replay_from rk k (UnaryOp_fvalue fvalue op operand index row_count filt) h.
Proof. intros Hf W. unfold UnaryOp_fvalue. replay_auto. Qed.

Lemma replay_BoolOp_and k (fvalue : fvalue_t) values index row_count filt :
  (forall x i rc f g, x ∈ values -> well_formed rk g ->
     replay_from rk k (fvalue x i rc f) g) ->
  forall to_return h, well_formed rk h ->
    replay_from rk k (BoolOp_and fvalue values to_return index row_count filt) h.
Proof.
  induction values as [|v values IH]; intros Hf c h W; cbn [BoolOp_and]; [replay_auto|].
  apply replay_bind; [apply Hf; [left | exact W]|]. intros w h1 _ (W1 & _).
  assert (Hf' : forall x i rc f g, x ∈ values -> well_formed rk g ->
                  replay_from rk k (fvalue x i rc f) g)
    by (intros; apply Hf; [now right | assumption]).
  destruct (is_missing w); [now apply IH|].
  destruct (py_bool (item0 w)); [now apply IH | replay_auto].
Qed.

Lemma replay_BoolOp_or k (fvalue : fvalue_t) values index row_count filt :
  (forall x i rc f g, x ∈ values -> well_formed rk g ->
     replay_from rk k (fvalue x i rc f) g) ->
  forall to_return h, well_formed rk h ->
    replay_from rk k (BoolOp_or fvalue values to_return index row_count filt) h.
Proof.
  induction values as [|v values IH]; intros Hf c h W; cbn [BoolOp_or]; [replay_auto|].
  apply replay_bind; [apply Hf; [left | exact W]|]. intros w h1 _ (W1 & _).
  assert (Hf' : forall x i rc f g, x ∈ values -> well_formed rk g ->
                  replay_from rk k (fvalue x i rc f) g)
    by (intros; apply Hf; [now right | assumption]).
  destruct (is_missing w); [now apply IH|].
  destruct (py_bool (item0 w)); [replay_auto | now apply IH].
Qed.

Lemma replay_BoolOp_fvalue k (fvalue : fvalue_t) op values index row_count filt h :
  (forall x i rc f g, x ∈ values -> well_formed rk g ->
     replay_from rk k (fvalue x i rc f) g) ->
  well_formed rk h ->
  replay_from rk k (BoolOp_fvalue fvalue op values index row_count filt) h.
Proof.
  intros Hf W. unfold BoolOp_fvalue.
  destruct op; try apply replay_raise;
    [now apply replay_BoolOp_and | now apply replay_BoolOp_or].
Qed.

Lemma replay_Compare_loop k (fvalue : fvalue_t) ops index row_count filt :
  forall comparators,
  (forall x i rc f g, x ∈ comparators -> well_formed rk g ->
     replay_from rk k (fvalue x i rc f) g) ->
  forall v1 h, well_formed rk h ->
    replay_from rk k (Compare_loop fvalue v1 ops comparators index row_count filt) h.
Proof.
  induction ops as [|op ops IH]; intros comparators Hf v1 h W; cbn [Compare_loop];
    [replay_auto|].
  destruct comparators as [|c comparators]; [apply replay_raise|].
  apply replay_bind; [apply Hf; [left | exact W]|]. intros v2 h1 _ (W1 & _).
  destruct (is_missing v2); [replay_auto|].
  apply replay_bind; [now apply replay_lift|]. intros b h2 _ (W2 & _).
  destruct b; [|replay_auto].
  apply IH; [|exact W2]. intros; apply Hf; [now right | assumption].
Qed.

Lemma replay_Compare_fvalue k (fvalue : fvalue_t) left_ ops comparators
    index row_count filt h :
  (forall x i rc f g, x ∈ left_ :: comparators -> well_formed rk g ->
     replay_from rk k (fvalue x i rc f) g) ->
  well_formed rk h ->
  replay_from rk k (Compare_fvalue fvalue left_ ops comparators index row_count filt) h.
Proof.
  intros Hf W. unfold Compare_fvalue.
  apply replay_bind; [apply Hf; [left | exact W]|]. intros v1 h1 _ (W1 & _).
  destruct (is_missing v1); [replay_auto|].
  apply replay_Compare_loop; [|exact W1]. intros; apply Hf; [now right | assumption].
Qed.

Lemma replay_BinOp_data_type k (data_type : data_type_t) left_ op right_ h :
  (forall x g, x ∈ [left_; right_] -> well_formed rk g ->
     replay_from rk k (data_type x) g) ->
  well_formed rk h ->
  replay_from rk k (BinOp_data_type data_type left_ op right_) h.
Proof.
  intros Hd W.
  assert (Hl : forall g, well_formed rk g -> replay_from rk k (data_type left_) g)
    by (intros; apply Hd; [left | assumption]).
  assert (Hr : forall g, well_formed rk g -> replay_from rk k (data_type right_) g)
    by (intros; apply Hd; [right; left | assumption]).
  unfold BinOp_data_type. destruct op; replay_auto.
Qed.

Lemma replay_BinOp_measure_type k (data_type : data_type_t) (measure_type : measure_type_t)
    left_ op right_ h :
  (forall x g, x ∈ [left_; right_] -> well_formed rk g ->
     replay_from rk k (data_type x) g) ->
  (forall x g, x ∈ [left_; right_] -> well_formed rk g ->
     replay_from rk k (measure_type x) g) ->
  well_formed rk h ->
  replay_from rk k (BinOp_measure_type data_type measure_type left_ op right_) h.
Proof.
  intros Hd Hm W.
  assert (Hl : forall g, well_formed rk g -> replay_from rk k (measure_type left_) g)
    by (intros; apply Hm; [left | assumption]).
  assert (Hr : forall g, well_formed rk g -> replay_from rk k (measure_type right_) g)
    by (intros; apply Hm; [right; left | assumption]).
  assert (Hb : forall g, well_formed rk g ->
                 replay_from rk k (BinOp_data_type data_type left_ op right_) g)
    by (intros; now apply replay_BinOp_data_type).
  unfold BinOp_measure_type. destruct op; try (replay_auto; fail).
  all: apply replay_bind; [now apply Hl|]; intros lmt h1 _ (W1 & _);
    apply replay_bind; [now apply Hr|]; intros rmt h2 _ (W2 & _); cbv zeta;
    destruct (is_ID lmt || is_ID rmt), (is_CONTINUOUS lmt || is_CONTINUOUS rmt),
      (is_NOMINAL lmt || is_NOMINAL rmt);
    repeat first [ apply replay_ret; assumption
                 | (apply replay_bind; [now apply Hb|]; intros ? ? _ (? & _))
                 | match goal with
                   | |- replay_from _ _ (if ?b then _ else _) _ => destruct b
                   end ].
Qed.

Lemma replay_UnaryOp_data_type k (data_type : data_type_t) op operand h :
  (forall g, well_formed rk g -> replay_from rk k (data_type operand) g) ->
  well_formed rk h ->
  replay_from rk k (UnaryOp_data_type data_type op operand) h.
Proof. intros Hd W. unfold UnaryOp_data_type. destruct op; replay_auto. Qed.

Lemma replay_UnaryOp_measure_type k (data_type : data_type_t)
    (measure_type : measure_type_t) op operand h :
  (forall g, well_formed rk g -> replay_from rk k (data_type operand) g) ->
  (forall g, well_formed rk g -> replay_from rk k (measure_type operand) g) ->
  well_formed rk h ->
  replay_from rk k (UnaryOp_measure_type data_type measure_type op operand) h.
Proof. intros Hd Hm W. unfold UnaryOp_measure_type. destruct op; replay_auto. Qed.

End ReplayMethods.

Section ReplayDispatch.
Context `{Runtime}.
Variable rk : oid -> nat.

Lemma node_Call_dec n : (exists c, n = Call c) \/ (forall c, n <> Call c).
Proof. destruct n; eauto; right; discriminate. Qed.

Lemma grow_node_not_Call n n' : (forall c, n <> Call c) -> grow_node n n' -> n' = n.
Proof. destruct n; cbn; auto. intros N. now destruct (N c). Qed.

(** Dispatch on the class of [x]: what is done for a class other than
    [Call] is the same in any grown store; what is done for a [Call] may
    read the fields that have grown. *)
Lemma replay_dispatch {A} k x (Kn : node -> M A) h :
  (forall o, objects h !! x = Some o -> (forall c, class_ o <> Call c) ->
     replay_from rk k (Kn (class_ o)) h) ->
  (forall o c r h1, objects h !! x = Some o -> class_ o = Call c ->
     Kn (Call c) h = (Ok r, h1) ->
     advances rk k h h1
     /\ forall g o' c', grows h1 g -> objects g !! x = Some o' -> class_ o' = Call c' ->
          exists g', Kn (Call c') g = (Ok r, g') /\ grows g g') ->
  replay_from rk k (deref x ≫= fun o => Kn (class_ o)) h.
Proof.
  intros Hn Hc r h1 E. apply run_bind_inv in E as (o & h' & Eo & E).
  apply run_deref_inv in Eo as [-> Eo].
  destruct (node_Call_dec (class_ o)) as [[c C]|N].
  - rewrite C in E. destruct (Hc o c r h1 Eo C E) as [A1 P1].
    split; [exact A1|]. pose proof A1 as (_ & G1 & _). intros g Gg.
    destruct (grows_lookup _ _ _ _ (grows_trans _ _ _ G1 Gg) Eo) as (o' & Eo' & _ & Gn).
    rewrite C in Gn. destruct Gn as (c' & C' & _).
    destruct (P1 g o' c' Gg Eo' C') as (g' & Eg & Gg'). exists g'. split; [|exact Gg'].
    now rewrite (run_bind _ _ _ _ _ (run_deref _ _ _ Eo')), C'.
  - destruct (Hn o Eo N r h1 E) as [A1 P1].
    split; [exact A1|]. pose proof A1 as (_ & G1 & _). intros g Gg.
    destruct (grows_lookup _ _ _ _ (grows_trans _ _ _ G1 Gg) Eo) as (o' & Eo' & _ & Gn).
    apply (grow_node_not_Call _ _ N) in Gn.
    destruct (P1 g Gg) as (g' & Eg & Gg'). exists g'. split; [|exact Gg'].
    now rewrite (run_bind _ _ _ _ _ (run_deref _ _ _ Eo')), Gn.
Qed.

(** The children of a node of a well-formed store have a smaller rank. *)
Lemma children_rank h x o y :
  well_formed rk h -> objects h !! x = Some o -> y ∈ children (lists h) (class_ o) ->
  rk y < rk x.
Proof.
  intros W E I. destruct (well_formed_lookup rk h x o W E) as [F _].
  rewrite Forall_forall in F. now apply F.
Qed.

(** A run over the children of [x] leaves [x] as it is. *)
Lemma advances_self h h1 x o :
  advances rk (rk x) h h1 -> objects h !! x = Some o -> objects h1 !! x = Some o.
Proof. intros (_ & _ & F & _) E. rewrite F; [exact E | lia]. Qed.

(** *** The result types *)

Lemma replay_Call_arg_types k (data_type : data_type_t) (measure_type : measure_type_t)
    a returns_ h :
  (forall y g, y ∈ a -> well_formed rk g ->
     replay_from rk k (data_type y) g /\ replay_from rk k (measure_type y) g) ->
  well_formed rk h ->
  replay_from rk k (Call_arg_types data_type measure_type a returns_) h.
Proof.
  intros Ht W. unfold Call_arg_types. apply replay_mapM; [|exact W].
  intros arg_i g _ Wg. destruct (a !! arg_i) as [arg|] eqn:Ea; [|now apply replay_ret].
  assert (Ia : arg ∈ a) by (eapply list_elem_of_lookup_2; eauto).
  apply replay_bind; [now apply Ht|]. intros d g1 _ (W1 & _).
  apply replay_bind; [now apply Ht|]. intros m g2 _ (W2 & _). now apply replay_ret.
Qed.

Lemma memo_consistent_None c :
  memo_consistent (Call c) = true -> (_d_type c = None <-> _m_type c = None).
Proof. cbn. destruct (_d_type c), (_m_type c); intros [=]; split; congruence. Qed.

(** [_determine_d_m_types] on a call whose types are not determined: the
    types end up in the node. *)
Lemma Call__determine_advances (data_type : data_type_t) (measure_type : measure_type_t)
    x o c dm h h1 :
  (forall y g, rk y < rk x -> well_formed rk g ->
     replay_from rk (rk x) (data_type y) g /\ replay_from rk (rk x) (measure_type y) g) ->
  well_formed rk h -> objects h !! x = Some o -> class_ o = Call c ->
  _d_type c = None -> _m_type c = None ->
  Call__determine_d_m_types data_type measure_type x h = (Ok dm, h1) ->
  advances rk (S (rk x)) h h1
  /\ exists o1 c1, objects h1 !! x = Some o1 /\ class_ o1 = Call c1
                   /\ _d_type c1 = Some dm.1 /\ _m_type c1 = Some dm.2.
Proof.
  intros Ht W E C Dn Mn R. unfold Call__determine_d_m_types in R.
  rewrite (run_bind _ _ _ _ _ (run_call_fields _ _ _ _ E C)) in R.
  apply run_bind_inv in R as (a & h' & Ea & R). apply run_read_list_inv in Ea as [-> La].
  assert (Store : forall d m hm,
             advances rk (rk x) h hm ->
             let h2 := updated (with_types d m) x o c hm in
             advances rk (S (rk x)) h h2
             /\ exists o1 c1, objects h2 !! x = Some o1 /\ class_ o1 = Call c1
                              /\ _d_type c1 = Some d /\ _m_type c1 = Some m).
  { intros d m hm Am h2. split.
    - eapply advances_trans; [eapply advances_weaken; [|exact Am]; lia|].
      apply advances_updated; [apply Am | now apply (advances_self h) | exact C | |].
      + repeat split; cbn; auto; congruence.
      + reflexivity.
    - eexists _, _. split; [apply updated_lookup|]. repeat split. }
  destruct (bool_decide (length a = 0)).
  { rewrite (run_bind _ _ _ _ _ (run_update_call _ _ _ _ _ E C)) in R.
    injection R as <- <-. apply Store. now apply advances_refl. }
  destruct (bool_decide (length (returns (meta (_function c))) = 0)).
  { rewrite (run_bind _ _ _ _ _ (run_update_call _ _ _ _ _ E C)) in R.
    injection R as <- <-. apply Store. now apply advances_refl. }
  apply run_bind_inv in R as (types & hm & Et & R). cbv zeta in R.
  assert (Rt : replay_from rk (rk x)
                 (Call_arg_types data_type measure_type a (returns (meta (_function c)))) h).
  { apply replay_Call_arg_types; [|exact W]. intros y g Iy Wg. apply Ht; [|exact Wg].
    apply (children_rank h x o y W E). rewrite C. cbn. now rewrite La. }
  destruct (Rt types hm Et) as [Am _].
  rewrite (run_bind _ _ _ _ _
             (run_update_call _ _ _ _ _ (advances_self _ _ _ _ Am E) C)) in R.
  injection R as <- <-. now apply Store.
Qed.

Lemma replay_Call_types (data_type : data_type_t) (measure_type : measure_type_t) x h :
  (forall y g, rk y < rk x -> well_formed rk g ->
     replay_from rk (rk x) (data_type y) g /\ replay_from rk (rk x) (measure_type y) g) ->
  well_formed rk h ->
  replay_from rk (S (rk x)) (Call_data_type data_type measure_type x) h
  /\ replay_from rk (S (rk x)) (Call_measure_type data_type measure_type x) h.
Proof.
  intros Ht W. split.
  - intros r h1 R. unfold Call_data_type in R.
    apply run_bind_inv in R as (c & h' & Ec & R).
    apply run_call_fields_inv in Ec as [-> (o & E & C)].
    destruct (well_formed_lookup rk h x o W E) as [_ Mc]. rewrite C in Mc.
    destruct (_d_type c) as [d|] eqn:Dc.
    + injection R as <- <-. split; [now apply advances_refl|].
      intros g Gg. exists g. split; [|apply grows_refl].
      destruct (grows_lookup _ _ _ _ Gg E) as (o' & E' & _ & Gn).
      rewrite C in Gn. destruct Gn as (c' & C' & _ & _ & _ & _ & Gd & _).
      unfold Call_data_type.
      now rewrite (run_bind _ _ _ _ _ (run_call_fields _ _ _ _ E' C')), (Gd d Dc).
    + apply run_bind_inv in R as (dm & h2 & Ed & R). injection R as <- <-.
      destruct (Call__determine_advances data_type measure_type x o c dm h h2 Ht W E C Dc
                  (proj1 (memo_consistent_None c Mc) Dc) Ed)
        as (A2 & o1 & c1 & E1 & C1 & D1 & _).
      split; [exact A2|].
      intros g Gg. exists g. split; [|apply grows_refl].
      destruct (grows_lookup _ _ _ _ Gg E1) as (o' & E' & _ & Gn).
      rewrite C1 in Gn. destruct Gn as (c' & C' & _ & _ & _ & _ & Gd & _).
      unfold Call_data_type.
      now rewrite (run_bind _ _ _ _ _ (run_call_fields _ _ _ _ E' C')), (Gd _ D1).
  - intros r h1 R. unfold Call_measure_type in R.
    apply run_bind_inv in R as (c & h' & Ec & R).
    apply run_call_fields_inv in Ec as [-> (o & E & C)].
    destruct (well_formed_lookup rk h x o W E) as [_ Mc]. rewrite C in Mc.
    destruct (_m_type c) as [m|] eqn:Mt.
    + injection R as <- <-. split; [now apply advances_refl|].
      intros g Gg. exists g. split; [|apply grows_refl].
      destruct (grows_lookup _ _ _ _ Gg E) as (o' & E' & _ & Gn).
      rewrite C in Gn. destruct Gn as (c' & C' & _ & _ & _ & _ & _ & Gm).
      unfold Call_measure_type.
      now rewrite (run_bind _ _ _ _ _ (run_call_fields _ _ _ _ E' C')), (Gm m Mt).
    + apply run_bind_inv in R as (dm & h2 & Ed & R). injection R as <- <-.
      destruct (Call__determine_advances data_type measure_type x o c dm h h2 Ht W E C
                  (proj2 (memo_consistent_None c Mc) Mt) Mt Ed)
        as (A2 & o1 & c1 & E1 & C1 & _ & M1).
      split; [exact A2|].
      intros g Gg. exists g. split; [|apply grows_refl].
      destruct (grows_lookup _ _ _ _ Gg E1) as (o' & E' & _ & Gn).
      rewrite C1 in Gn. destruct Gn as (c' & C' & _ & _ & _ & _ & _ & Gm).
      unfold Call_measure_type.
      now rewrite (run_bind _ _ _ _ _ (run_call_fields _ _ _ _ E' C')), (Gm _ M1).
Qed.

End ReplayDispatch.

Section ReplayEvaluation.
Context `{Runtime}.
Variable rk : oid -> nat.

Ltac replay_auto :=
  repeat first
    [ assumption
    | apply replay_ret
    | apply replay_lift
    | apply replay_raise
    | apply replay_out_of_fuel
    | apply replay_read_list
    | (apply replay_bind; [|intros ? ? _ (? & _)])
    | match goal with
      | |- replay_from _ _ (if ?b then _ else _) _ => destruct b
      | |- replay_from _ _ (match ?x with _ => _ end) _ => destruct x
      end
    | solve [eauto] ].

(** The result types of a node are reproducible. *)
Lemma replay_types : forall fuel x h,
  well_formed rk h ->
  replay_from rk (S (rk x)) (data_type fuel x) h
  /\ replay_from rk (S (rk x)) (measure_type fuel x) h.
Proof.
  induction fuel as [|fuel IH]; intros x h W; [split; apply replay_out_of_fuel|].
  assert (IHc : forall y g, rk y < rk x -> well_formed rk g ->
            replay_from rk (rk x) (data_type fuel y) g
            /\ replay_from rk (rk x) (measure_type fuel y) g).
  { intros y g Ly Wg. destruct (IH y g Wg) as [Rd Rm].
    split; eapply replay_weaken; eauto. }
  split.
  - cbn [data_type]. apply replay_dispatch.
    + intros o Eo N. apply replay_weaken with (rk x); [lia|].
      pose proof (fun y => children_rank rk h x o y W Eo) as Ch.
      destruct (class_ o) eqn:C; cbn [class_data_type]; cbn [children] in Ch;
        try (now apply replay_ret).
      * apply replay_UnaryOp_data_type; [|exact W].
        intros g Wg. apply IHc; [apply Ch; left | exact Wg].
      * now destruct (N c).
      * apply replay_BinOp_data_type; [|exact W].
        intros y g Iy Wg. apply IHc; [now apply Ch | exact Wg].
    + intros o c r h1 Eo C E. cbn [class_data_type] in E.
      destruct (replay_Call_types rk (data_type fuel) (measure_type fuel) x h IHc W)
        as [Rd _].
      destruct (Rd r h1 E) as [A1 P1]. split; [exact A1|].
      intros g o' c' Gg _ _. cbn [class_data_type]. now apply P1.
  - cbn [measure_type]. apply replay_dispatch.
    + intros o Eo N. apply replay_weaken with (rk x); [lia|].
      pose proof (fun y => children_rank rk h x o y W Eo) as Ch.
      destruct (class_ o) eqn:C; cbn [class_measure_type]; cbn [children] in Ch;
        try (now apply replay_ret).
      * apply replay_UnaryOp_measure_type; [| |exact W];
          intros g Wg; apply IHc; try exact Wg; apply Ch; left.
      * now destruct (N c).
      * apply replay_BinOp_measure_type; [| |exact W];
          intros y g Iy Wg; apply IHc; try exact Wg; now apply Ch.
    + intros o c r h1 Eo C E. cbn [class_measure_type] in E.
      destruct (replay_Call_types rk (data_type fuel) (measure_type fuel) x h IHc W)
        as [_ Rm].
      destruct (Rm r h1 E) as [A1 P1]. split; [exact A1|].
      intros g o' c' Gg _ _. cbn [class_measure_type]. now apply P1.
Qed.

Lemma replay_operand_value k (fvalue : fvalue_t) x index row_count filt h :
  (forall g, well_formed rk g -> replay_from rk k (fvalue x index row_count filt) g) ->
  well_formed rk h ->
  replay_from rk k (operand_value fvalue x index row_count filt) h.
Proof.
  intros Hf W. unfold operand_value.
  apply (replay_dispatch rk k x
           (fun n => match n with Num n => mret n | _ => fvalue x index row_count filt end)).
  - intros o _ _. destruct (class_ o); replay_auto.
  - intros o c r h1 _ _ E. destruct (Hf h W r h1 E) as [A1 P1].
    split; [exact A1|]. intros g o' c' Gg _ _. now apply P1.
Qed.

Lemma replay_BinOp_apply k op lv rv h :
  well_formed rk h -> replay_from rk k (BinOp_apply op lv rv) h.
Proof.
  intros W. unfold BinOp_apply. destruct op; try (now apply replay_lift);
    try (now apply replay_ret).
  destruct (py_arith ast.Div lv rv) as [a|[]| |];
    first [now apply replay_ret | now apply replay_lift].
Qed.

Lemma replay_BinOp_fvalue k (data_type : data_type_t) (fvalue : fvalue_t)
    left_ op right_ index row_count filt h :
  (forall x g, x ∈ [left_; right_] -> well_formed rk g ->
     replay_from rk k (data_type x) g) ->
  (forall x i rc f g, x ∈ [left_; right_] -> well_formed rk g ->
     replay_from rk k (fvalue x i rc f) g) ->
  well_formed rk h ->
  replay_from rk k (BinOp_fvalue data_type fvalue left_ op right_ index row_count filt) h.
Proof.
  intros Hd Hf W. unfold BinOp_fvalue.
  apply replay_bind; [now apply replay_BinOp_data_type|]. intros dt h1 _ (W1 & _).
  cbv zeta. apply replay_bind.
  { apply replay_operand_value; [|exact W1]. intros g Wg. apply Hf; [left | exact Wg]. }
  intros lv h2 _ (W2 & _). apply replay_bind.
  { apply replay_operand_value; [|exact W2].
    intros g Wg. apply Hf; [right; left | exact Wg]. }
  intros rv h3 _ (W3 & _).
  destruct (is_concatenation _ _); [now apply replay_BinOp_apply|].
  destruct (_ || _); [now apply replay_ret | now apply replay_BinOp_apply].
Qed.

Lemma replay_Node_fvalues k (fvalue : fvalue_t) x row_count filt h :
  (forall i rc f g, well_formed rk g -> replay_from rk k (fvalue x i rc f) g) ->
  well_formed rk h ->
  replay_from rk k (Node_fvalues fvalue x row_count filt) h.
Proof.
  intros Hf W. unfold Node_fvalues. apply replay_mapM; [|exact W].
  intros; apply Hf; assumption.
Qed.

(** The branches of [Call.fvalue] that keep nothing in the node read only
    fields that do not change. *)
Lemma Call_fvalue_unmemoized (fvalue : fvalue_t) x c c' index row_count filt :
  grow_call c c' ->
  String.eqb (__name__ (_function c)) "OFFSET" = true
  \/ is_column_wise (meta (_function c)) = false ->
  Call_fvalue fvalue x c' index row_count filt
  = Call_fvalue fvalue x c index row_count filt.
Proof.
  intros (F & A & T & _) D. unfold Call_fvalue. rewrite F, A, T.
  destruct (String.eqb _ _); [reflexivity|].
  destruct D as [D|D]; [discriminate D|]. now rewrite D.
Qed.

(** What a function reads of its generators is reproducible. *)
Lemma replay_consume k (fvalue : fvalue_t) a row_count filt arg_type :
  (forall y i rc f g, y ∈ a -> well_formed rk g -> replay_from rk k (fvalue y i rc f) g) ->
  forall r rows h, well_formed rk h ->
    replay_from rk k (consume fvalue a row_count filt arg_type r rows) h.
Proof.
  intros Hf. induction r as [result|i kk IH]; intros rows h W; cbn [consume].
  - now apply replay_lift.
  - destruct (a !! i) as [arg|] eqn:Ea; [|now apply replay_lift].
    destruct (rows !! i) as [index|]; [|now apply replay_lift].
    destruct (index <? row_count)%Z; [|now apply IH].
    apply replay_bind.
    + apply Hf; [|exact W]. eapply list_elem_of_lookup_2; eauto.
    + intros v h1 _ (W1 & _). now apply IH.
Qed.

(** The first evaluation of a whole-column call in an expression graph,
    taken apart: the function is invoked on generators over the arguments,
    what it reads of them is evaluated in a run that leaves the node as it is
    and is about nodes of smaller rank, and its result is stored. *)
Lemma Call_fvalue_first_inv (fvalue : fvalue_t) x o c value index row_count filt h h' :
  (forall y i rc f g, rk y < rk x -> well_formed rk g ->
     replay_from rk (rk x) (fvalue y i rc f) g) ->
  well_formed rk h -> objects h !! x = Some o -> class_ o = Call c ->
  String.eqb (__name__ (_function c)) "OFFSET" = false ->
  is_column_wise (meta (_function c)) = true ->
  _cached_value c = None ->
  Call_fvalue fvalue x c index row_count filt h = (Ok value, h') ->
  exists arguments h1 hm,
    advances rk (rk x) h h1
    /\ advances rk (rk x) (set_trace (fun t => t ++ [Invoked x arguments]) h1) hm
    /\ h' = updated (with_cached_value (Some value)) x o c hm.
Proof.
  intros Hf W E C N Wc Cv R. unfold Call_fvalue in R. rewrite N, Wc, Cv in R.
  pose proof (fun y => children_rank rk h x o y W E) as Ch. rewrite C in Ch. cbn in Ch.
  apply run_bind_inv in R as (a & h1 & Ea & R). apply run_read_list_inv in Ea as [-> La].
  rewrite La in Ch.
  apply run_bind_inv in R as (arg_type & h2 & Et & R).
  destruct (replay_last_arg_type rk (rk x) _ _ _ _ h W _ _ Et) as [A2 _].
  cbv zeta in R.
  apply run_bind_inv in R as ([] & h3 & El & R). injection El as <-.
  apply run_bind_inv in R as (v & h4 & Ec & R).
  assert (Rc : replay_from rk (rk x)
                 (consume fvalue a row_count filt arg_type
                    (column_body (_function c)
                       ((fun arg => AGen arg row_count filt arg_type) <$> a))
                    (replicate (length a) 0%Z))
                 (set_trace (fun t => t ++ [Invoked x
                    ((fun arg => AGen arg row_count filt arg_type) <$> a)]) h2)).
  { apply replay_consume; [|apply well_formed_set_trace, A2].
    intros y i rc f g Iy Wg. apply Hf; auto. }
  destruct (Rc v h4 Ec) as [A3 _].
  apply run_bind_inv in R as ([] & h5 & Eu & R). injection R as <- <-.
  pose proof (advances_self rk _ _ _ _ A2 E) as E2.
  assert (E3 : objects (set_trace (fun t => t ++ [Invoked x
                 ((fun arg => AGen arg row_count filt arg_type) <$> a)]) h2) !! x = Some o)
    by exact E2.
  pose proof (advances_self rk _ _ _ _ A3 E3) as E4.
  rewrite (run_update_call _ _ _ _ _ E4 C) in Eu. injection Eu as <-.
  eexists _, h2, h4. split; [exact A2|]. split; [exact A3 | reflexivity].
Qed.

Lemma replay_Call_fvalue (fvalue : fvalue_t) x o c index row_count filt h :
  (forall y i rc f g, rk y < rk x -> well_formed rk g ->
     replay_from rk (rk x) (fvalue y i rc f) g) ->
  well_formed rk h -> objects h !! x = Some o -> class_ o = Call c ->
  forall r h1, Call_fvalue fvalue x c index row_count filt h = (Ok r, h1) ->
    advances rk (S (rk x)) h h1
    /\ forall g o' c', grows h1 g -> objects g !! x = Some o' -> class_ o' = Call c' ->
         exists g', Call_fvalue fvalue x c' index row_count filt g = (Ok r, g')
                    /\ grows g g'.
Proof.
  intros Hf W E C r h1 R.
  pose proof (fun y => children_rank rk h x o y W E) as Ch. rewrite C in Ch. cbn in Ch.
  assert (Unmemoized :
    String.eqb (__name__ (_function c)) "OFFSET" = true
    \/ is_column_wise (meta (_function c)) = false ->
    replay_from rk (S (rk x)) (Call_fvalue fvalue x c index row_count filt) h ->
    advances rk (S (rk x)) h h1
    /\ forall g o' c', grows h1 g -> objects g !! x = Some o' -> class_ o' = Call c' ->
         exists g', Call_fvalue fvalue x c' index row_count filt g = (Ok r, g')
                    /\ grows g g').
  { intros D Rp. destruct (Rp r h1 R) as [A1 P1]. split; [exact A1|].
    pose proof A1 as (_ & G1 & _). intros g o' c' Gg Eo' C'.
    destruct (grows_lookup _ _ _ _ (grows_trans _ _ _ G1 Gg) E) as (o2 & E2 & _ & Gn).
    rewrite Eo' in E2. injection E2 as <-. rewrite C, C' in Gn.
    destruct Gn as (c2 & [= <-] & Gc).
    rewrite (Call_fvalue_unmemoized fvalue x c c' index row_count filt Gc D).
    now apply P1. }
  assert (Hf' : forall y i rc f g, rk y < rk x -> well_formed rk g ->
                  replay_from rk (S (rk x)) (fvalue y i rc f) g).
  { intros. eapply replay_weaken; [|now apply Hf]. lia. }
  destruct (String.eqb (__name__ (_function c)) "OFFSET") eqn:N.
  { (* OFFSET *)
    apply Unmemoized; [now left|]. unfold Call_fvalue. rewrite N.
    apply replay_bind; [now apply replay_read_list|]. intros a h2 Ea (W2 & _).
    apply run_read_list_inv in Ea as [-> La]. rewrite La in Ch.
    apply replay_bind; [now apply replay_list_item|]. intros a1 h3 E1 (W3 & _).
    assert (I1 : a1 ∈ a).
    { unfold list_item in E1. destruct (a !! 1) eqn:L1; [|discriminate E1].
      injection E1 as <- <-. eapply list_elem_of_lookup_2; eauto. }
    apply replay_bind; [apply Hf'; auto|]. intros v h4 _ (W4 & _).
    destruct (convert v (Some TInt)); try apply replay_raise.
    destruct (index <? n)%Z; [now apply replay_ret|].
    apply replay_bind; [now apply replay_list_item|]. intros a0 h5 E0 (W5 & _).
    assert (I0 : a0 ∈ a).
    { unfold list_item in E0. destruct (a !! 0) eqn:L0; [|discriminate E0].
      injection E0 as <- <-. eapply list_elem_of_lookup_2; eauto. }
    apply Hf'; auto. }
  destruct (is_column_wise (meta (_function c))) eqn:Wc.
  2: { (* row-wise *)
    apply Unmemoized; [now right|]. unfold Call_fvalue. rewrite N, Wc.
    apply replay_bind; [now apply replay_read_list|]. intros a h2 Ea (W2 & _).
    apply run_read_list_inv in Ea as [-> La]. rewrite La in Ch.
    apply replay_bind.
    { apply replay_mapM; [|exact W2]. intros y g Iy Wg. apply Hf'; auto. }
    intros vs h3 _ (W3 & _).
    apply replay_bind; [now apply replay_convert_args|]. intros ws h4 _ (W4 & _). cbv zeta.
    apply replay_bind; [apply replay_log; [cbn; lia | exact W4]|]. intros [] h5 _ (W5 & _).
    now apply replay_lift. }
  (* column-wise *)
  assert (Cached : forall v g o' c',
             (exists o1 c1, objects h1 !! x = Some o1 /\ class_ o1 = Call c1
                            /\ _function c1 = _function c /\ _cached_value c1 = Some v) ->
             grows h1 g -> objects g !! x = Some o' -> class_ o' = Call c' ->
             Call_fvalue fvalue x c' index row_count filt g = (Ok v, g)).
  { intros v g o' c' (o1 & c1 & E1 & C1 & F1 & V1) Gg Eo' C'.
    destruct (grows_lookup _ _ _ _ Gg E1) as (o2 & E2 & _ & Gn).
    rewrite Eo' in E2. injection E2 as <-. rewrite C1, C' in Gn.
    destruct Gn as (c2 & [= <-] & Fc & _ & _ & Vc & _).
    apply Call_fvalue_cached; [now rewrite Fc, F1 | now rewrite Fc, F1 | now apply Vc]. }
  destruct (_cached_value c) as [v|] eqn:Cv.
  { (* a memoized value *)
    rewrite (Call_fvalue_cached _ _ _ v _ _ _ _ N Wc Cv) in R. injection R as <- <-.
    split; [now apply advances_refl|]. intros g o' c' Gg Eo' C'. exists g.
    split; [|apply grows_refl]. eapply Cached; eauto. exists o, c. auto. }
  (* no memoized value: the arguments, the call, the store *)
  destruct (Call_fvalue_first_inv fvalue x o c r index row_count filt h h1
              Hf W E C N Wc Cv R) as (arguments & h2 & hm & A2 & Am & ->).
  pose proof (advances_self rk _ _ _ _ A2 E) as E2.
  assert (El : objects (set_trace (fun t => t ++ [Invoked x arguments]) h2) !! x = Some o)
    by exact E2.
  pose proof (advances_self rk _ _ _ _ Am El) as Em.
  destruct (well_formed_lookup rk h x o W E) as [_ Mc]. rewrite C in Mc.
  split.
  - eapply advances_trans; [eapply advances_weaken; [|exact A2]; lia|].
    apply advances_trans with (set_trace (fun t => t ++ [Invoked x arguments]) h2);
      [apply advances_log; [cbn; lia | apply A2]|].
    eapply advances_trans; [eapply advances_weaken; [|exact Am]; lia|].
    apply advances_updated; [apply Am | exact Em | exact C | | exact Mc].
    repeat split; auto. cbn. congruence.
  - intros g o' c' Gg Eo' C'. exists g. split; [|apply grows_refl].
    eapply Cached; eauto. eexists _, _. split; [apply updated_lookup|]. now repeat split.
Qed.

(** The value of a node at a row is reproducible. *)
Lemma replay_fvalue : forall fuel x index row_count filt h,
  well_formed rk h ->
  replay_from rk (S (rk x)) (fvalue fuel x index row_count filt) h.
Proof.
  induction fuel as [|fuel IH]; intros x index row_count filt h W;
    [apply replay_out_of_fuel|].
  assert (IHc : forall y i rc f g, rk y < rk x -> well_formed rk g ->
            replay_from rk (rk x) (fvalue fuel y i rc f) g).
  { intros y i rc f g Ly Wg. eapply replay_weaken; [|apply IH; exact Wg]. lia. }
  assert (IHt : forall y g, rk y < rk x -> well_formed rk g ->
            replay_from rk (rk x) (data_type fuel y) g).
  { intros y g Ly Wg. eapply replay_weaken; [|apply replay_types; exact Wg]. lia. }
  cbn [fvalue].
  apply (replay_dispatch rk (S (rk x)) x
           (class_fvalue (data_type fuel) (fvalue fuel) x index row_count filt)).
  - intros o Eo N.
    pose proof (fun y => children_rank rk h x o y W Eo) as Ch.
    destruct (class_ o) eqn:C; cbn [class_fvalue]; cbn [children] in Ch.
    + now apply replay_ret.
    + now apply replay_ret.
    + apply replay_weaken with (rk x); [lia|]. apply replay_UnaryOp_fvalue; [|exact W].
      intros i rc f g Wg. apply IHc; [apply Ch; left | exact Wg].
    + apply replay_weaken with (rk x); [lia|]. apply replay_BoolOp_fvalue; [|exact W].
      intros y i rc f g Iy Wg. apply IHc; [now apply Ch | exact Wg].
    + now destruct (N c).
    + apply replay_weaken with (rk x); [lia|]. apply replay_BinOp_fvalue; [| |exact W].
      * intros y g Iy Wg. apply IHt; [now apply Ch | exact Wg].
      * intros y i rc f g Iy Wg. apply IHc; [now apply Ch | exact Wg].
    + apply replay_weaken with (rk x); [lia|]. apply replay_Compare_fvalue; [|exact W].
      intros y i rc f g Iy Wg. apply IHc; [now apply Ch | exact Wg].
    + apply replay_bind; [apply replay_log; [cbn; lia | exact W]|].
      intros [] h1 _ (W1 & _). now apply replay_lift.
  - intros o c r h1 Eo C E. cbn [class_fvalue] in E.
    destruct (replay_Call_fvalue (fvalue fuel) x o c index row_count filt h IHc W Eo C r h1 E)
      as [A1 P1].
    split; [exact A1|].
    intros g o' c' Gg Eo' C'. cbn [class_fvalue]. eapply P1; eauto.
Qed.

End ReplayEvaluation.

Section ReplayLevels.
Context `{Runtime}.
Variable rk : oid -> nat.

Lemma replay_call_fields_stable {A} k x (K : CallFields -> M A) h :
  (forall c c', grow_call c c' -> K c' = K c) ->
  (forall o c, objects h !! x = Some o -> class_ o = Call c -> replay_from rk k (K c) h) ->
  replay_from rk k (call_fields x ≫= K) h.
Proof.
  intros St RK r h1 E. apply run_bind_inv in E as (c & h' & Ec & E).
  apply run_call_fields_inv in Ec as [-> (o & Eo & C)].
  destruct (RK o c Eo C r h1 E) as [A1 P1]. split; [exact A1|].
  pose proof A1 as (_ & G1 & _). intros g Gg.
  destruct (grows_lookup _ _ _ _ (grows_trans _ _ _ G1 Gg) Eo) as (o' & Eo' & _ & Gn).
  rewrite C in Gn. destruct Gn as (c' & C' & Gc).
  destruct (P1 g Gg) as (g' & Eg & Gg'). exists g'. split; [|exact Gg'].
  rewrite (run_bind _ _ _ _ _ (run_call_fields _ _ _ _ Eo' C')). now rewrite (St c c' Gc).
Qed.

Lemma replay_has_levels k x h : well_formed rk h -> replay_from rk k (has_levels x) h.
Proof.
  intros W. unfold has_levels. apply (replay_dispatch rk k x class_has_levels).
  - intros o _ _. destruct (class_ o); now apply replay_ret.
  - intros o c r h1 _ _ [= <- <-]. split; [now apply advances_refl|].
    intros g o' c' _ _ _. exists g. split; [reflexivity | apply grows_refl].
Qed.

Lemma replay_Call_level_candidates k (get_levels : get_levels_t) self_args a row_count
    indices :
  (forall y rc g, y ∈ a -> well_formed rk g -> replay_from rk k (get_levels y rc) g) ->
  forall level_use h, well_formed rk h -> lists h !! self_args = Some a ->
    replay_from rk k
      (Call_level_candidates has_levels get_levels self_args indices row_count level_use) h.
Proof.
  intros Hg. induction indices as [|arg_i indices IH]; intros d h W L;
    cbn [Call_level_candidates]; [now apply replay_ret|].
  apply replay_bind; [now apply replay_read_list|]. intros a' h1 Ea (W1 & _).
  apply run_read_list_inv in Ea as [-> Ea]. rewrite L in Ea. injection Ea as <-.
  destruct (a !! arg_i) as [arg|] eqn:Ei; [|now apply IH].
  assert (Ia : arg ∈ a) by (eapply list_elem_of_lookup_2; eauto).
  apply replay_bind; [now apply replay_has_levels|]. intros b h2 _ (W2 & [L2 _] & _).
  destruct b; [|apply IH; [exact W2 | now rewrite L2]].
  apply replay_bind; [now apply Hg|]. intros ls h3 _ (W3 & [L3 _] & _).
  apply IH; [exact W3 | now rewrite L3, L2].
Qed.

Lemma replay_Call_get_levels (data_type : data_type_t) (measure_type : measure_type_t)
    (get_levels : get_levels_t) (fvalue : fvalue_t) x row_count h :
  (forall y g, rk y < rk x -> well_formed rk g ->
     replay_from rk (rk x) (data_type y) g /\ replay_from rk (rk x) (measure_type y) g) ->
  (forall y rc g, rk y < rk x -> well_formed rk g ->
     replay_from rk (S (rk x)) (get_levels y rc) g) ->
  (forall i rc f g, well_formed rk g -> replay_from rk (S (rk x)) (fvalue x i rc f) g) ->
  well_formed rk h ->
  replay_from rk (S (rk x))
    (Call_get_levels data_type measure_type has_levels get_levels fvalue x row_count) h.
Proof.
  intros Ht Hg Hf W. unfold Call_get_levels. apply replay_call_fields_stable.
  { intros c c' (F & A & _). cbv beta zeta. now rewrite F, A. }
  intros o c E C. cbv zeta.
  pose proof (fun y => children_rank rk h x o y W E) as Ch. rewrite C in Ch. cbn in Ch.
  destruct (bool_decide _); [now apply replay_ret|].
  apply replay_bind; [now apply replay_read_list|]. intros a h1 Ea (W1 & _).
  apply run_read_list_inv in Ea as [-> La]. rewrite La in Ch.
  destruct (bool_decide _); [now apply replay_ret|].
  apply replay_bind; [now apply replay_Call_types|]. intros d h2 _ (W2 & [L2 _] & _).
  destruct (negb (is_TEXT d)); [now apply replay_ret|].
  apply replay_bind; [now apply replay_Call_types|]. intros m h3 _ (W3 & [L3 _] & _).
  destruct (is_ID m); [now apply replay_ret|].
  apply replay_bind.
  { apply replay_Call_level_candidates with a; [|exact W3 | now rewrite L3, L2].
    intros y rc g Iy Wg. apply Hg; auto. }
  intros level_use h4 _ (W4 & _).
  apply replay_bind; [now apply replay_Node_fvalues|]. intros column_ h5 _ (W5 & _).
  now apply replay_ret.
Qed.

(** The levels of a node are reproducible. *)
Lemma replay_get_levels : forall fuel x row_count h,
  well_formed rk h ->
  replay_from rk (S (rk x)) (get_levels fuel x row_count) h.
Proof.
  induction fuel as [|fuel IH]; intros x row_count h W; [apply replay_out_of_fuel|].
  assert (R : replay_from rk (S (rk x))
                (Call_get_levels (data_type fuel) (measure_type fuel) has_levels
                   (get_levels fuel) (fvalue fuel) x row_count) h).
  { apply replay_Call_get_levels; [| | |exact W].
    + intros y g Ly Wg. destruct (replay_types rk fuel y g Wg).
      split; eapply replay_weaken; eauto.
    + intros y rc g Ly Wg. eapply replay_weaken; [|apply IH; exact Wg]. lia.
    + intros. now apply replay_fvalue. }
  cbn [get_levels].
  apply (replay_dispatch rk (S (rk x)) x
           (class_get_levels (data_type fuel) (measure_type fuel) (get_levels fuel)
              (fvalue fuel) x row_count)).
  - intros o _ N. destruct (class_ o); cbn [class_get_levels];
      first [now apply replay_ret | apply replay_raise | now destruct (N c)].
  - intros o c r h1 _ _ E. cbn [class_get_levels] in E.
    destruct (R r h1 E) as [A1 P1]. split; [exact A1|].
    intros g o' c' Gg _ _. cbn [class_get_levels]. now apply P1.
Qed.

(** Discovering the levels of a node twice in a row gives the same list. *)
Lemma get_levels_idempotent fuel x row_count h levels h1 :
  well_formed rk h ->
  get_levels fuel x row_count h = (Ok levels, h1) ->
  exists h2, get_levels fuel x row_count h1 = (Ok levels, h2).
Proof.
  intros W E. destruct (replay_get_levels fuel x row_count h W levels h1 E) as [_ P].
  destruct (P h1 (grows_refl h1)) as (h2 & E2 & _). eauto.
Qed.

End ReplayLevels.

(** ** Notifications and the nodes above *)

Section Ancestors.
Context `{Runtime}.

Lemma inval_obj_parents o o' : inval_obj o o' -> _node_parents o' = _node_parents o.
Proof. now intros [P _]. Qed.

Lemma invalidated_lookup_inv h h' x o' :
  invalidated h h' -> objects h' !! x = Some o' ->
  exists o, objects h !! x = Some o /\ inval_obj o o'.
Proof.
  intros (O & _) E. specialize (O x). rewrite E in O. inversion O; subst. eauto.
Qed.

Lemma ancestor_invalidated h h' x q :
  invalidated h h' -> ancestor h x q <-> ancestor h' x q.
Proof.
  intros I. split; induction 1 as [|x o p q E Ip _ IH]; try constructor.
  - destruct (invalidated_lookup _ _ _ _ I E) as (o' & E' & [P _]).
    eapply ancestor_parent; [exact E' | rewrite P; exact Ip | exact IH].
  - destruct (invalidated_lookup_inv _ _ _ _ I E) as (o' & E' & [P _]).
    eapply ancestor_parent; [exact E' | rewrite <- P; exact Ip | exact IH].
Qed.

Lemma ancestor_inv h x q :
  ancestor h x q ->
  q = x \/ exists o p, objects h !! x = Some o /\ p ∈ _node_parents o /\ ancestor h p q.
Proof. destruct 1; eauto 6. Qed.

Lemma ancestor_trans h x y z : ancestor h x y -> ancestor h y z -> ancestor h x z.
Proof.
  induction 1 as [|x o p q E Ip _ IH]; [auto|]. intros A.
  eapply ancestor_parent; eauto.
Qed.

Lemma no_memo_invalidated h h' x : invalidated h h' -> no_memo h x -> no_memo h' x.
Proof.
  intros I N o' c' E' C'.
  destruct (invalidated_lookup_inv _ _ _ _ I E') as (o & E & _ & [K|(c & K1 & K2)]).
  - apply (N o c' E). congruence.
  - rewrite K2 in C'. now injection C' as <-.
Qed.

Lemma updated_frame_ne f self o c h x :
  x <> self -> objects (updated f self o c h) !! x = objects h !! x.
Proof. intros N. cbn. now rewrite lookup_insert_ne by congruence. Qed.

Lemma for_each_notified rk fuel :
  (forall p h, ranked rk h -> is_Some (objects h !! p) -> rk p < fuel ->
     exists h', set_needs_recalc fuel p h = (Ok tt, h') /\ notified_from h p h') ->
  forall ps h, ranked rk h ->
    Forall (fun p => is_Some (objects h !! p) /\ rk p < fuel) ps ->
    exists h', for_each (set_needs_recalc fuel) ps h = (Ok tt, h') /\ invalidated h h'
      /\ (forall p q, p ∈ ps -> ancestor h p q -> Notified q ∈ trace h' /\ no_memo h' q)
      /\ (forall x, (forall p, p ∈ ps -> ~ ancestor h p x) ->
            objects h' !! x = objects h !! x).
Proof.
  intros IH ps. induction ps as [|p ps IHps]; intros h R F.
  - exists h. split; [reflexivity|]. split; [apply invalidated_refl|]. split.
    + intros p q I. inversion I.
    + reflexivity.
  - inversion F as [|? ? [S L] F']; subst.
    destruct (IH p h R S L) as (h1 & E1 & I1 & A1 & N1).
    destruct (IHps h1) as (h2 & E2 & I2 & A2 & N2).
    + eapply invalidated_ranked; eauto.
    + eapply Forall_impl; [exact F'|]. cbn. intros q [Sq Lq]. split; [|exact Lq].
      eapply invalidated_is_Some; eauto.
    + exists h2. split; [|split; [|split]].
      * cbn [for_each]. now rewrite (run_bind _ _ _ _ _ E1).
      * eapply invalidated_trans; eauto.
      * intros p' q Ip Aq. apply elem_of_cons in Ip as [->|Ip].
        -- destruct (A1 q Aq) as [Tq Mq]. split.
           ++ eapply invalidated_trace; eauto.
           ++ eapply no_memo_invalidated; eauto.
        -- apply (A2 p' q Ip). now apply (proj1 (ancestor_invalidated h h1 p' q I1)).
      * intros x Nx. rewrite N2, N1; [reflexivity| |].
        -- apply Nx. left.
        -- intros p' Ip Ap. apply (Nx p'); [now right|].
           now apply (proj2 (ancestor_invalidated h h1 p' x I1)).
Qed.

Lemma set_needs_recalc_notified rk : forall fuel self h,
  ranked rk h -> is_Some (objects h !! self) -> rk self < fuel ->
  exists h', set_needs_recalc fuel self h = (Ok tt, h') /\ notified_from h self h'.
Proof.
  induction fuel as [|fuel IH]; intros self h R [o E] L; [lia|].
  set (ha := set_trace (fun t => t ++ [Notified self]) h).
  assert (Ia : invalidated h ha) by apply invalidated_log.
  assert (Ea : objects ha !! self = Some o) by exact E.
  assert (Na : Notified self ∈ trace ha) by (cbn; apply elem_of_app; right; constructor).
  assert (Ra : ranked rk ha) by (eapply invalidated_ranked; eauto).
  assert (Parents : forall hb ob,
             invalidated ha hb -> objects hb !! self = Some ob ->
             _node_parents ob = _node_parents o -> no_memo hb self ->
             (forall x, x <> self -> objects hb !! x = objects h !! x) ->
             exists h', Node_set_needs_recalc (set_needs_recalc fuel) self hb = (Ok tt, h')
                        /\ notified_from h self h').
  { intros hb ob Ib Eb Pb Mb Fb.
    assert (Ihb : invalidated h hb) by (eapply invalidated_trans; eauto).
    assert (Rb : ranked rk hb) by (eapply invalidated_ranked; eauto).
    unfold Node_set_needs_recalc. rewrite (run_bind _ _ _ _ _ (run_deref _ _ _ Eb)).
    destruct (for_each_notified rk fuel IH (_node_parents ob) hb Rb)
      as (h' & E' & I' & A' & N').
    { specialize (Rb self ob Eb). cbn in Rb.
      eapply Forall_impl; [exact Rb|]. cbn. intros p [S Lp]. split; [exact S|]. lia. }
    exists h'. split; [exact E'|]. split; [eapply invalidated_trans; eauto|]. split.
    - intros q Aq. apply ancestor_inv in Aq as [->|(o0 & p & E0 & Ip & Ap)].
      + split.
        * eapply invalidated_trace; [exact I'|].
          eapply invalidated_trace; [exact Ib | exact Na].
        * eapply no_memo_invalidated; eauto.
      + rewrite E in E0. injection E0 as <-.
        apply (A' p q); [now rewrite Pb|].
        now apply (proj1 (ancestor_invalidated h hb p q Ihb)).
    - intros x Nx. rewrite N'.
      + apply Fb. intros ->. apply Nx. constructor.
      + intros p Ip Ap. apply Nx.
        eapply ancestor_parent; [exact E | rewrite <- Pb; exact Ip |].
        now apply (proj2 (ancestor_invalidated h hb p x Ihb)). }
  cbn [set_needs_recalc]. unfold log, modify at 1. unfold mbind at 1, M_bind at 1. fold ha.
  rewrite (run_bind _ _ _ _ _ (run_deref _ _ _ Ea)).
  destruct (class_ o) as [| | | |c| | |] eqn:C.
  5: { unfold Call_set_needs_recalc.
       rewrite (run_bind _ _ _ _ _ (run_update_call _ _ _ _ _ Ea C)).
       eapply Parents.
       - now apply invalidated_cleared.
       - apply updated_lookup.
       - reflexivity.
       - intros o' c' E' C'. rewrite updated_lookup in E'. injection E' as <-.
         cbn in C'. now injection C' as <-.
       - intros x Nx. now rewrite updated_frame_ne. }
  all: apply (Parents ha o); [apply invalidated_refl | exact Ea | reflexivity | | reflexivity];
    intros o' c' E' C'; rewrite Ea in E'; injection E' as <-; congruence.
Qed.

End Ancestors.

(** ** Call: the memoization claim *)

Section CallMemoization.
Context `{Runtime}.

Lemma invocations_concat self t1 t2 :
  invocations self (t1 ++ t2) = invocations self t1 + invocations self t2.
Proof. unfold invocations. now rewrite List.filter_app, length_app. Qed.

(** Events about nodes of a smaller rank are no invocations of [self]. *)
Lemma invocations_below rk self t :
  Forall (fun e => rk (event_node e) < rk self) t -> invocations self t = 0.
Proof.
  induction 1 as [|e t Le _ IH]; [reflexivity|].
  change (e :: t) with ([e] ++ t). rewrite invocations_concat, IH.
  unfold invocations. cbn. destruct e as [s ?| |]; cbn in *; try reflexivity.
  rewrite bool_decide_eq_false_2; [reflexivity|]. intros ->. lia.
Qed.

(** Notifications keep an expression graph one. *)
Lemma invalidated_well_formed rk h h' :
  invalidated h h' -> well_formed rk h -> well_formed rk h'.
Proof.
  intros (O & _ & L) W x o' E'. specialize (O x). rewrite E' in O.
  inversion O as [o ? [_ K] Eo|]; subst. symmetry in Eo.
  specialize (W x o Eo). cbn in W. cbn. rewrite L.
  destruct K as [->|(c & C & ->)]; [exact W|]. now rewrite C in W.
Qed.

(** C2.  A whole-column call node that is not OFFSET, in an expression graph.
    (1) When an evaluation of the node, at any row, returns [value]: the
    function of the node has been invoked once in it if the node had no
    memoized value and not at all if it had one; [value] is now the memoized
    value and [needs_recalc] is false; and any number of later evaluations, at
    any rows, row counts and filter flags, return [value] and leave the store,
    and so the trace of invocations, as it is.
    (2) [needs_recalc] is true exactly when the memoized value is absent.
    (3) In a store without parent cycles the recalculation notification
    goes through: it clears the memoized value, so that [needs_recalc] is
    true and the next evaluation invokes the function again by (1); it goes
    on to the parents and from them upward, so that every call among the
    nodes reached through parent references has lost its memoized value and
    [needs_recalc] is true of it, and every node reached is notified; and
    it changes nothing but memoized values, and none of a node that is not
    reached: an expression graph remains one. *)
Theorem Call_memoization :
  (forall rk fuel self o c value index row_count filt h h',
      well_formed rk h ->
      objects h !! self = Some o -> class_ o = Call c ->
      String.eqb (__name__ (_function c)) "OFFSET" = false ->
      is_column_wise (meta (_function c)) = true ->
      fvalue (S fuel) self index row_count filt h = (Ok value, h') ->
      invocations self (trace h')
      = invocations self (trace h) + (if Call_needs_recalc c then 1 else 0)
      /\ (exists o' c', objects h' !! self = Some o' /\ class_ o' = Call c'
                        /\ _cached_value c' = Some value)
      /\ needs_recalc self h' = (Ok false, h')
      /\ (forall fuel' (later : list (Z * Z * bool)),
             mapM (fun r => fvalue (S fuel') self r.1.1 r.1.2 r.2) later h'
             = (Ok (replicate (length later) value), h')))
  /\ (forall self o c h,
         objects h !! self = Some o -> class_ o = Call c ->
         exists b, needs_recalc self h = (Ok b, h) /\ (b = true <-> _cached_value c = None))
  /\ (forall rk fuel self o c h,
         ranked rk h -> objects h !! self = Some o -> class_ o = Call c -> rk self < fuel ->
         exists h',
           set_needs_recalc fuel self h = (Ok tt, h')
           /\ (exists o', objects h' !! self = Some o'
                          /\ class_ o' = Call (with_cached_value None c))
           /\ needs_recalc self h' = (Ok true, h')
           /\ Forall (fun p => Notified p ∈ trace h') (_node_parents o)
           /\ (forall q, ancestor h self q -> Notified q ∈ trace h')
           /\ (forall q oq cq,
                 ancestor h self q -> objects h !! q = Some oq -> class_ oq = Call cq ->
                 objects h' !! q = Some {| class_ := Call (with_cached_value None cq);
                                           _node_parents := _node_parents oq |}
                 /\ needs_recalc q h' = (Ok true, h'))
           /\ (forall x, ~ ancestor h self x -> objects h' !! x = objects h !! x)
           /\ invalidated h h'
           /\ (forall rk', well_formed rk' h -> well_formed rk' h')).
Proof.
  split; [|split].
  - intros rk fuel self o c value index row_count filt h h' W E C N Wc R.
    rewrite (fvalue_Call _ _ _ _ _ _ _ _ E C) in R.
    assert (Memoized : forall o' c' g,
              objects g !! self = Some o' -> class_ o' = Call c' ->
              _function c' = _function c -> _cached_value c' = Some value ->
              (exists o' c', objects g !! self = Some o' /\ class_ o' = Call c'
                             /\ _cached_value c' = Some value)
              /\ needs_recalc self g = (Ok false, g)
              /\ (forall fuel' (later : list (Z * Z * bool)),
                     mapM (fun r => fvalue (S fuel') self r.1.1 r.1.2 r.2) later g
                     = (Ok (replicate (length later) value), g))).
    { intros o' c' g E' C' F' V'. split; [eauto|]. split.
      - rewrite (needs_recalc_Call self o' c' g E' C'). unfold Call_needs_recalc.
        now rewrite V'.
      - intros fuel' later.
        apply (fvalue_cached_rows self o' c' value g E' C'); [now rewrite F'.. | exact V']. }
    unfold Call_needs_recalc. destruct (_cached_value c) as [v|] eqn:Cv.
    + rewrite (Call_fvalue_cached _ _ _ v _ _ _ _ N Wc Cv) in R. injection R as <- <-.
      split; [lia|]. now apply (Memoized o c h).
    + destruct (Call_fvalue_first_inv rk (fvalue fuel) self o c value index row_count filt
                  h h') as (arguments & h1 & hm & A1 & Am & ->); auto.
      { intros y i rc f g Ly Wg. eapply replay_weaken; [|now apply replay_fvalue]. lia. }
      split.
      * destruct A1 as (_ & _ & _ & t1 & T1 & B1). destruct Am as (_ & _ & _ & t & Tm & Bt).
        assert (Tr : trace (updated (with_cached_value (Some value)) self o c hm)
                     = ((trace h ++ t1) ++ [Invoked self arguments]) ++ t)
          by (cbn in *; now rewrite Tm, T1).
        rewrite Tr, invocations_concat, invocations_app, invocations_concat,
          (invocations_below rk self t1 B1), (invocations_below rk self t Bt).
        cbn [invoked_by]. rewrite bool_decide_eq_true_2 by reflexivity. lia.
      * eapply Memoized; [apply updated_lookup | reflexivity..].
  - intros self o c h E C. exists (Call_needs_recalc c).
    split; [now apply (needs_recalc_Call self o c h)|].
    unfold Call_needs_recalc. destruct (_cached_value c); split; congruence.
  - intros rk fuel self o c h R E C L.
    destruct (set_needs_recalc_notified rk fuel self h R (mk_is_Some _ _ E) L)
      as (h' & E' & I' & A' & N').
    assert (Cleared : forall q oq cq,
              ancestor h self q -> objects h !! q = Some oq -> class_ oq = Call cq ->
              objects h' !! q = Some {| class_ := Call (with_cached_value None cq);
                                        _node_parents := _node_parents oq |}
              /\ needs_recalc q h' = (Ok true, h')).
    { intros q oq cq Aq Eq Cq. destruct (A' q Aq) as [_ Mq].
      destruct (invalidated_lookup _ _ _ _ I' Eq) as (o' & Eo' & Po' & Ko').
      assert (Co' : class_ o' = Call (with_cached_value None cq)).
      { destruct Ko' as [Ko'|(c0 & K1 & K2)].
        - rewrite Cq in Ko'. pose proof (Mq o' cq Eo' Ko') as V.
          rewrite Ko'. f_equal. destruct cq; cbn in *. now rewrite V.
        - rewrite Cq in K1. now injection K1 as <-. }
      split.
      - rewrite Eo'. f_equal. destruct o'; cbn in *. now rewrite Co', Po'.
      - now rewrite (needs_recalc_Call q o' _ h' Eo' Co'). }
    destruct (Cleared self o c (ancestor_self h self) E C) as [Es Ns].
    exists h'. split; [exact E'|]. split; [eexists; split; [exact Es | reflexivity]|].
    split; [exact Ns|]. split.
    { apply Forall_forall. intros p Ip. apply A'.
      eapply ancestor_parent; [exact E | exact Ip | constructor]. }
    split; [intros q Aq; now apply A'|]. split; [exact Cleared|].
    split; [exact N'|]. split; [exact I'|].
    intros rk'. now apply invalidated_well_formed.
Qed.

End CallMemoization.

(** [VSUM(x)] over three rows is 6 at row 0, where VSUM is invoked, and at
    the rows evaluated afterwards, where it is not; a notification of the
    node reaches its parent, the sum node 3.  [HEAD(1 % (x - 2))] over three
    rows is 0 and memoized, HEAD invoked once, although the argument cannot
    be evaluated at row 1: evaluating the call at that row gives 0 again. *)
Lemma Call_memoization_witness :
  (fvalue 2 1 0 3 false Sample.sums = (Ok (VInt 6), Sample.sums_evaluated)
   /\ invocations 1 (trace Sample.sums_evaluated) = 1
   /\ mapM (fun r : Z * Z * bool => fvalue 2 1 r.1.1 r.1.2 r.2)
        [(2, 3, false); (1, 5, true)]%Z Sample.sums_evaluated
      = (Ok [VInt 6; VInt 6], Sample.sums_evaluated))
  /\ (exists b, needs_recalc 1 Sample.sums = (Ok b, Sample.sums) /\ b = true)
  /\ (exists h', set_needs_recalc 4 1 Sample.sums = (Ok tt, h')
                 /\ Notified 3 ∈ trace h')
  /\ (exists h', @fvalue Cases.runtime 4 5 0 3 false Cases.heads = (Ok (VInt 0), h')
                 /\ invocations 5 (trace h') = 1
                 /\ mapM (fun r : Z * Z * bool => @fvalue Cases.runtime 4 5 r.1.1 r.1.2 r.2)
                      [(1, 3, false)]%Z h'
                    = (Ok [VInt 0], h')).
Proof.
  destruct (@Call_memoization Sample.runtime) as (A & B & C).
  assert (E : fvalue 2 1 0 3 false Sample.sums = (Ok (VInt 6), Sample.sums_evaluated))
    by (vm_compute; reflexivity).
  split; [|split; [|split]].
  4: { destruct (@Call_memoization Cases.runtime) as (A' & _ & _).
       set (h' := (@fvalue Cases.runtime 4 5 0 3 false Cases.heads).2).
       assert (E' : @fvalue Cases.runtime 4 5 0 3 false Cases.heads = (Ok (VInt 0), h'))
         by (vm_compute; reflexivity).
       destruct (A' (fun x => x) 3 5 (Cases.obj (Call Cases.heads_call) []) Cases.heads_call
                   (VInt 0) 0%Z 3%Z false Cases.heads h') as (I & _ & _ & R).
       - unfold well_formed. apply (bool_decide_unpack _). vm_compute. reflexivity.
       - vm_compute. reflexivity.
       - reflexivity.
       - reflexivity.
       - reflexivity.
       - exact E'.
       - exists h'. split; [exact E'|]. split; [exact I|].
         exact (R 3 [(1, 3, false)]%Z). }
  - destruct (A (fun x => x) 1 1 {| class_ := Call Sample.sums_call; _node_parents := [3] |}
                Sample.sums_call (VInt 6) 0%Z 3%Z false Sample.sums Sample.sums_evaluated)
      as (I & _ & _ & R).
    + unfold well_formed. apply (bool_decide_unpack _). vm_compute. reflexivity.
    + vm_compute. reflexivity.
    + reflexivity.
    + reflexivity.
    + reflexivity.
    + exact E.
    + split; [exact E|]. split; [exact I|].
      exact (R 1 [(2, 3, false); (1, 5, true)]%Z).
  - destruct (B 1 {| class_ := Call Sample.sums_call; _node_parents := [3] |}
                Sample.sums_call Sample.sums) as (b & Eb & Hb).
    + vm_compute. reflexivity.
    + reflexivity.
    + exists b. split; [exact Eb|]. now apply Hb.
  - destruct (C (fun x => 3 - x) 4 1 {| class_ := Call Sample.sums_call; _node_parents := [3] |}
                Sample.sums_call Sample.sums) as (h' & E' & _ & _ & P' & _).
    + unfold ranked. apply (bool_decide_unpack _). vm_compute. reflexivity.
    + vm_compute. reflexivity.
    + reflexivity.
    + cbn. lia.
    + exists h'. split; [exact E'|]. now inversion P'.
Defined.

(** ** Call: the level discovery claim *)

(** C7, as the code has it.  (1) A level-relevant call node (level-source
    positions declared, arguments present, text data type, a measure type
    other than identifier), whose level-source arguments yield the candidate
    labels [level_use] and whose column of values is [column]: the levels
    returned are numbered 0, 1, ..., n-1; the labels retained are exactly
    the candidates used at least once in the column, missing values left out;
    they come without repetition and in the order in which the candidates
    were collected from the arguments (not in that of their first use in the
    column).  (2) In an expression graph, discovering the levels of a node
    twice in a row yields the same list of (code, label) pairs. *)
Theorem Call_level_discovery :
  (forall (R : Runtime) (data_type : data_type_t) (measure_type : measure_type_t)
          (has_levels : has_levels_t) (get_levels : get_levels_t) (fvalue : fvalue_t)
          self o c a m level_use column row_count h h1 h2 h3 h4,
      objects h !! self = Some o -> class_ o = Call c ->
      arg_level_indices (meta (_function c)) <> [] ->
      lists h !! args c = Some a -> a <> [] ->
      Call_data_type data_type measure_type self h = (Ok DataType.TEXT, h1) ->
      Call_measure_type data_type measure_type self h1 = (Ok m, h2) ->
      m <> MeasureType.ID ->
      Call_level_candidates has_levels get_levels (args c)
        (arg_level_indices (meta (_function c))) row_count [] h2 = (Ok level_use, h3) ->
      Node_fvalues fvalue self row_count false h3 = (Ok column, h4) ->
      exists labels,
        Call_get_levels data_type measure_type has_levels get_levels fvalue self row_count h
        = (Ok (enumerate_from 0 labels), h4)
        /\ labels = used_labels (count_uses column level_use)
        /\ (enumerate_from 0 labels).*1 = Z.of_nat <$> seq 0 (length labels)
        /\ (enumerate_from 0 labels).*2 = labels
        /\ NoDup labels
        /\ (forall l, l ∈ labels
                      <-> l ∈ level_use.*1 /\ exists v, v ∈ column /\ label_of v = Some l)
        /\ labels `sublist_of` level_use.*1)
  /\ (forall (R : Runtime) (rk : oid -> nat) fuel self row_count h levels h1,
         well_formed rk h ->
         get_levels fuel self row_count h = (Ok levels, h1) ->
         exists h2, get_levels fuel self row_count h1 = (Ok levels, h2)).
Proof.
  split.
  - intros R data_type measure_type has_levels get_levels fvalue. intros.
    eapply Call_get_levels_discovered; eauto.
  - intros R rk fuel self row_count h levels h1. apply get_levels_idempotent.
Qed.

(** The levels of [PICK("a", "b")] over two rows, discovered once and
    again. *)
Lemma Call_level_discovery_witness :
  Call_get_levels (data_type 1) (measure_type 1) has_levels (get_levels 1) (fvalue 2)
    2 2 Sample.picks
  = (Ok [(0%Z, "a"); (1%Z, "b")], Sample.picks_evaluated)
  /\ exists h2,
       get_levels 3 2 2 (get_levels 3 2 2 Sample.picks).2
       = (Ok [(0%Z, "a"); (1%Z, "b")], h2).
Proof.
  destruct Call_level_discovery as [A B]. split.
  - destruct (A Sample.runtime (data_type 1) (measure_type 1) has_levels
                (get_levels 1) (fvalue 2) 2
                {| class_ := Call Sample.picks_call; _node_parents := [] |}
                Sample.picks_call [0; 1] MeasureType.NOMINAL
                [("a", 0); ("b", 0)] [VStr "b"; VStr "a"] 2%Z
                Sample.picks Sample.picks_typed Sample.picks_typed Sample.picks_typed
                Sample.picks_evaluated)
      as (labels & E & -> & _).
    + vm_compute. reflexivity.
    + reflexivity.
    + discriminate.
    + vm_compute. reflexivity.
    + discriminate.
    + vm_compute. reflexivity.
    + vm_compute. reflexivity.
    + discriminate.
    + vm_compute. reflexivity.
    + vm_compute. reflexivity.
    + exact E.
  - apply (B Sample.runtime (fun x => x) 3 2 2%Z Sample.picks).
    + unfold well_formed. apply (bool_decide_unpack _). vm_compute. reflexivity.
    + vm_compute. reflexivity.
Defined.

(** * More of the code *)

(** ** Node: parent references *)

Section ParentReferences.

Lemma list_remove_first_None x l : x ∉ l -> list_remove_first x l = None.
Proof.
  induction l as [|y l IH]; [reflexivity|]. intros N. cbn [list_remove_first].
  apply not_elem_of_cons in N as [N1 N2]. destruct (decide (x = y)); [contradiction|].
  now rewrite IH.
Qed.

Lemma list_remove_first_Some x l1 l2 :
  x ∉ l1 -> list_remove_first x (l1 ++ x :: l2) = Some (l1 ++ l2).
Proof.
  induction l1 as [|y l1 IH]; intros N; cbn [app list_remove_first].
  - now destruct (decide (x = x)).
  - apply not_elem_of_cons in N as [N1 N2]. destruct (decide (x = y)); [contradiction|].
    now rewrite IH.
Qed.

Lemma list_remove_first_inv x l l' :
  list_remove_first x l = Some l' ->
  exists l1 l2, l = l1 ++ x :: l2 /\ l' = l1 ++ l2 /\ x ∉ l1.
Proof.
  revert l'. induction l as [|y l IH]; intros l'; [discriminate|]. cbn [list_remove_first].
  destruct (decide (x = y)) as [<-|N].
  - intros [= <-]. exists [], l. repeat split. apply not_elem_of_nil.
  - destruct (list_remove_first x l) as [l0|]; [|discriminate]. intros [= <-].
    destruct (IH l0 eq_refl) as (l1 & l2 & -> & -> & N1).
    exists (y :: l1), l2. repeat split. apply not_elem_of_cons. now split.
Qed.

Lemma set_parents_run f self o h :
  objects h !! self = Some o ->
  set_parents f self h
  = (Ok tt, set_objects (<[self := {| class_ := class_ o;
                                     _node_parents := f (_node_parents o) |}]>) h).
Proof. intros E. unfold set_parents. now rewrite (run_bind _ _ _ _ _ (run_deref _ _ _ E)). Qed.

Lemma set_objects_id self o h :
  objects h !! self = Some o ->
  set_objects (<[self := {| class_ := class_ o; _node_parents := _node_parents o |}]>) h = h.
Proof.
  intros E. destruct h as [objs ls no nl t]. unfold set_objects. cbn in *.
  f_equal. destruct o. now apply insert_id.
Qed.

(** X1.  The parent references of a node are a list.  [_remove_node_parent]
    takes out the first reference to the given node and leaves the others,
    later references to the same node included; where there is none it
    raises [ValueError] and the store is as it was.  Registering a node that
    was not a parent and unregistering it again leaves the store as it was;
    registering a node twice takes two removals to undo. *)
Theorem Node_parent_references self node_ o h :
  objects h !! self = Some o ->
  (node_ ∉ _node_parents o -> _remove_node_parent self node_ h = (Raise ValueError, h))
  /\ (forall l1 l2, _node_parents o = l1 ++ node_ :: l2 -> node_ ∉ l1 ->
        _remove_node_parent self node_ h
        = (Ok tt, set_objects (<[self := {| class_ := class_ o;
                                            _node_parents := l1 ++ l2 |}]>) h))
  /\ (node_ ∉ _node_parents o ->
        (_ ← _add_node_parent self node_; _remove_node_parent self node_) h = (Ok tt, h))
  /\ (node_ ∉ _node_parents o ->
        (_ ← _add_node_parent self node_; _ ← _add_node_parent self node_;
         _remove_node_parent self node_) h
        = _add_node_parent self node_ h).
Proof.
  intros E. split; [|split; [|split]].
  - intros N. unfold _remove_node_parent.
    rewrite (run_bind _ _ _ _ _ (run_deref _ _ _ E)).
    now rewrite (list_remove_first_None _ _ N).
  - intros l1 l2 P N. unfold _remove_node_parent.
    rewrite (run_bind _ _ _ _ _ (run_deref _ _ _ E)).
    rewrite P, (list_remove_first_Some _ _ _ N).
    now rewrite (set_parents_run _ _ _ _ E).
  - intros N. unfold _add_node_parent.
    rewrite (run_bind _ _ _ _ _ (set_parents_run _ _ _ _ E)).
    unfold _remove_node_parent.
    erewrite run_bind; [|apply run_deref; cbn; apply lookup_insert_eq].
    cbn [_node_parents].
    replace (_node_parents o ++ [node_]) with (_node_parents o ++ node_ :: []) by reflexivity.
    rewrite (list_remove_first_Some _ _ _ N), app_nil_r.
    erewrite set_parents_run; [|cbn; apply lookup_insert_eq].
    cbn [class_ _node_parents]. f_equal.
    rewrite <- (set_objects_id self o h E) at 2.
    unfold set_objects. cbn. f_equal. apply insert_insert_eq.
  - intros N. unfold _add_node_parent.
    rewrite (run_bind _ _ _ _ _ (set_parents_run _ _ _ _ E)).
    erewrite run_bind; [|apply set_parents_run; cbn; apply lookup_insert_eq].
    cbn [class_ _node_parents].
    unfold _remove_node_parent.
    erewrite run_bind; [|apply run_deref; cbn; apply lookup_insert_eq].
    cbn [_node_parents].
    replace ((_node_parents o ++ [node_]) ++ [node_])
      with (_node_parents o ++ node_ :: [node_]) by (now rewrite <- app_assoc).
    rewrite (list_remove_first_Some _ _ _ N).
    erewrite set_parents_run; [|cbn; apply lookup_insert_eq].
    rewrite (set_parents_run _ _ _ _ E).
    cbn [class_ _node_parents]. f_equal.
    unfold set_objects. cbn. f_equal. now rewrite !insert_insert_eq.
Qed.

End ParentReferences.


(** In [VSUM(x) + 1] the call, node 1, has the sum for its one parent: the
    column is no parent of it. *)
Lemma Node_parent_references_witness :
  _remove_node_parent 1 0 Sample.sums = (Raise ValueError, Sample.sums)
  /\ (_ ← _add_node_parent 1 0; _remove_node_parent 1 0) Sample.sums
     = (Ok tt, Sample.sums).
Proof.
  destruct (Node_parent_references 1 0 (Cases.obj (Call Sample.sums_call) [3]) Sample.sums)
    as (A & _ & B & _).
  - vm_compute. reflexivity.
  - assert (N : 0 ∉ [3]) by (intros I; apply list_elem_of_singleton in I; discriminate I).
    split; [exact (A N) | exact (B N)].
Defined.

(** ** Recalculation notifications reach the ancestors, and only them *)

Section RecalcAncestors.
Context `{Runtime}.

(** X2.  In a store without parent cycles, a recalculation notification of
    a node goes through once the fuel exceeds the node's rank, and then: the
    node and every node reached from it through parent references has been
    notified and, if it is a call, is left without a memoized value, so that
    [needs_recalc] is true of it; every other node of the store is exactly as
    it was; and no node has lost anything but a memoized value: the result
    types a call has determined are kept. *)
Theorem set_needs_recalc_ancestors rk fuel self h :
  ranked rk h -> is_Some (objects h !! self) -> rk self < fuel ->
  exists h',
    set_needs_recalc fuel self h = (Ok tt, h')
    /\ (forall q, ancestor h self q -> Notified q ∈ trace h')
    /\ (forall q o c, ancestor h self q -> objects h !! q = Some o -> class_ o = Call c ->
          objects h' !! q = Some {| class_ := Call (with_cached_value None c);
                                    _node_parents := _node_parents o |}
          /\ needs_recalc q h' = (Ok true, h'))
    /\ (forall x, ~ ancestor h self x -> objects h' !! x = objects h !! x)
    /\ lists h' = lists h.
Proof.
  intros R S L.
  destruct (set_needs_recalc_notified rk fuel self h R S L) as (h' & E & I & A & N).
  exists h'. split; [exact E|]. split; [intros q Aq; now apply A|].
  split; [|split; [exact N | apply I]].
  intros q o c Aq Eq Cq. destruct (A q Aq) as [_ Mq].
  destruct (invalidated_lookup _ _ _ _ I Eq) as (o' & E' & P' & K').
  assert (C' : class_ o' = Call (with_cached_value None c)).
  { destruct K' as [K'|(c0 & K1 & K2)].
    - rewrite Cq in K'. pose proof (Mq o' c E' K') as V.
      rewrite K'. f_equal. destruct c; cbn in *. now rewrite V.
    - rewrite Cq in K1. now injection K1 as <-. }
  split.
  - rewrite E'. f_equal. destruct o'; cbn in *. now rewrite C', P'.
  - now rewrite (needs_recalc_Call q o' _ h' E' C').
Qed.

End RecalcAncestors.


(** In [VSUM(x) + 1], once the call is evaluated, a notification of the
    column [x] clears the memoized sum and reaches the node [VSUM(x) + 1]. *)
Lemma set_needs_recalc_ancestors_witness :
  exists h',
    set_needs_recalc 4 0 Sample.sums_evaluated = (Ok tt, h')
    /\ needs_recalc 1 Sample.sums_evaluated = (Ok false, Sample.sums_evaluated)
    /\ needs_recalc 1 h' = (Ok true, h')
    /\ Notified 3 ∈ trace h'.
Proof.
  destruct (set_needs_recalc_ancestors (fun x => 3 - x) 4 0 Sample.sums_evaluated)
    as (h' & E & N & C & _).
  - unfold ranked. apply (bool_decide_unpack _). vm_compute. reflexivity.
  - exists (Cases.obj (Source {| column := "x" |}) [1]). vm_compute. reflexivity.
  - cbn. lia.
  - set (o1 := Cases.obj (Call (with_cached_value (Some (VInt 6)) Sample.sums_call)) [3]).
    assert (E0 : objects Sample.sums_evaluated !! 0
                 = Some (Cases.obj (Source {| column := "x" |}) [1]))
      by (vm_compute; reflexivity).
    assert (E1 : objects Sample.sums_evaluated !! 1 = Some o1) by (vm_compute; reflexivity).
    assert (A1 : ancestor Sample.sums_evaluated 0 1).
    { eapply ancestor_parent; [exact E0 | left | constructor]. }
    assert (A3 : ancestor Sample.sums_evaluated 0 3).
    { eapply ancestor_parent; [exact E0 | left |].
      eapply ancestor_parent; [exact E1 | left | constructor]. }
    exists h'. split; [exact E|]. split; [vm_compute; reflexivity|].
    split; [exact (proj2 (C 1 o1 _ A1 E1 eq_refl)) | exact (N 3 A3)].
Defined.

(** ** Call: the branches that keep nothing *)

Section CallBranches.
Context `{Runtime}.
Variable rk : oid -> nat.

Lemma convert_args_run arg_types vs : forall i h r h',
  convert_args arg_types i vs h = (r, h') ->
  h' = h
  /\ (forall ws, r = Ok ws ->
        ws = imap (fun j v => convert v (clamped_type arg_types (i + j))) vs).
Proof.
  induction vs as [|v vs IH]; intros i h r h'; cbn [convert_args].
  - intros [= <- <-]. split; [reflexivity|]. now intros ws [= <-].
  - unfold arg_type_at, list_item.
    destruct (arg_types !! (i `min` (length arg_types - 1))) as [t|] eqn:E0.
    + rewrite run_bind with (a := t) (h1 := h) by reflexivity.
      destruct (convert_args arg_types (S i) vs h) as [r1 h1] eqn:E1.
      destruct (IH (S i) h r1 h1 E1) as [-> S1].
      unfold mbind, M_bind. rewrite E1.
      destruct r1 as [ws1| | |]; intros [= <- <-]; (split; [reflexivity|]);
        intros ws [= <-]. cbn [imap]. rewrite (S1 ws1 eq_refl). f_equal.
      * unfold clamped_type. now rewrite Nat.add_0_r, E0.
      * apply imap_ext. intros j w _. cbn. do 2 f_equal. lia.
    + intros [= <- <-]. split; [reflexivity|]. intros ws [=].
Qed.


Lemma invocations_after self t1 t2 e :
  Forall (fun e => rk (event_node e) < rk self) t2 ->
  invocations self ((t1 ++ t2) ++ [e])
  = invocations self t1 + (if invoked_by self e then 1 else 0).
Proof.
  intros B. rewrite invocations_app, invocations_concat, (invocations_below rk self t2 B).
  lia.
Qed.

Lemma last_snoc_event (t : list event) e : last (t ++ [e]) = Some e.
Proof. apply last_snoc. Qed.

(** X3.  A row-wise call (any function that is neither column-wise nor
    named OFFSET) in an expression graph keeps nothing: every evaluation
    that returns has evaluated each argument at the row asked for, with the
    filter off, has invoked the function once, on the row index followed by
    the argument values, each converted to the type declared at its position
    (the last declared type serves for the positions beyond), and has left the
    node as it was, without a memoized value. *)
Theorem Call_fvalue_row_wise fuel self o c value index row_count filt h h' :
  well_formed rk h ->
  objects h !! self = Some o -> class_ o = Call c ->
  String.eqb (__name__ (_function c)) "OFFSET" = false ->
  is_column_wise (meta (_function c)) = false ->
  fvalue (S fuel) self index row_count filt h = (Ok value, h') ->
  exists a vs hm,
    lists h !! args c = Some a
    /\ mapM (fun arg => fvalue fuel arg index row_count false) a h = (Ok vs, hm)
    /\ (let arguments :=
          AVal (VInt index)
            :: imap (fun i v => AVal (convert v (clamped_type (_arg_types c) i))) vs in
        body (_function c) arguments = Ok value
        /\ h' = set_trace (fun t => t ++ [Invoked self arguments]) hm)
    /\ invocations self (trace h') = S (invocations self (trace h))
    /\ objects h' !! self = Some o
    /\ well_formed rk h'.
Proof.
  intros W E C N Wc R. rewrite (fvalue_Call _ _ _ _ _ _ _ _ E C) in R.
  unfold Call_fvalue in R. rewrite N, Wc in R.
  apply run_bind_inv in R as (a & h0 & Ea & R). apply run_read_list_inv in Ea as [-> La].
  apply run_bind_inv in R as (vs & hm & Ev & R).
  apply run_bind_inv in R as (ws & h1 & Ec & R).
  destruct (convert_args_run _ _ _ _ _ _ Ec) as [-> Sw]. specialize (Sw ws eq_refl).
  apply run_bind_inv in R as ([] & h2 & El & R). injection El as <-.
  unfold lift in R.
  assert (Am : advances rk (rk self) h hm).
  { refine (proj1 (replay_mapM rk (rk self) _ a _ h W vs hm Ev)).
    intros y g Iy Wg. eapply replay_weaken; [|now apply replay_fvalue].
    pose proof (children_rank rk h self o y W E) as Ch. rewrite C in Ch. cbn in Ch.
    rewrite La in Ch. specialize (Ch Iy). lia. }
  assert (Ew : AVal <$> ws
               = imap (fun i v => AVal (convert v (clamped_type (_arg_types c) i))) vs).
  { rewrite Sw. rewrite fmap_imap. reflexivity. }
  rewrite Ew in R. injection R as Eb <-.
  exists a, vs, hm. split; [exact La|]. split; [exact Ev|]. split; [now split|].
  pose proof Am as (Wm & _ & _ & t & Tm & Bt).
  split; [|split].
  - cbn [trace set_trace]. rewrite Tm, (invocations_after self _ _ _ Bt).
    cbn [invoked_by]. rewrite bool_decide_eq_true_2 by reflexivity. lia.
  - exact (advances_self rk _ _ _ _ Am E).
  - exact Wm.
Qed.

(** X4.  A call of the function named OFFSET in an expression graph is
    evaluated by the node itself: an evaluation that returns has found at
    least two arguments, has evaluated the second at the row asked for, with
    the filter off, and converted it to an integer [offset]; for a row before
    [offset] the value is not-a-number and the first argument is not
    evaluated; for any other row it is the value of the first argument
    [offset] rows earlier, with the filter off.  The function of the registry
    is not invoked and nothing is memoized. *)
Theorem Call_fvalue_OFFSET fuel self o c value index row_count filt h h' :
  well_formed rk h ->
  objects h !! self = Some o -> class_ o = Call c ->
  String.eqb (__name__ (_function c)) "OFFSET" = true ->
  fvalue (S fuel) self index row_count filt h = (Ok value, h') ->
  exists a0 a1 rest v offset h1,
    lists h !! args c = Some (a0 :: a1 :: rest)
    /\ fvalue fuel a1 index row_count false h = (Ok v, h1)
    /\ convert v (Some TInt) = VInt offset
    /\ ((index < offset)%Z -> value = VFloat PrimFloat.nan /\ h' = h1)
    /\ ((offset <= index)%Z ->
          fvalue fuel a0 (index - offset) row_count false h1 = (Ok value, h'))
    /\ invocations self (trace h') = invocations self (trace h)
    /\ objects h' !! self = Some o.
Proof.
  intros W E C N R. rewrite (fvalue_Call _ _ _ _ _ _ _ _ E C) in R.
  unfold Call_fvalue in R. rewrite N in R.
  apply run_bind_inv in R as (a & h0 & Ea & R). apply run_read_list_inv in Ea as [-> La].
  apply run_bind_inv in R as (a1 & h0 & E1 & R).
  unfold list_item in E1. destruct (a !! 1) as [a1'|] eqn:L1; [|discriminate E1].
  injection E1 as -> <-.
  apply run_bind_inv in R as (v & h1 & Ev & R).
  destruct a as [|a0 [|a1' rest]]; try discriminate L1. injection L1 as ->.
  pose proof (fun y => children_rank rk h self o y W E) as Ch. rewrite C in Ch. cbn in Ch.
  rewrite La in Ch.
  assert (Below : forall y i g r g',
             y ∈ a0 :: a1 :: rest -> well_formed rk g ->
             fvalue fuel y i row_count false g = (Ok r, g') -> advances rk (rk self) g g').
  { intros y i g r g' Iy Wg Ey.
    destruct (replay_fvalue rk fuel y i row_count false g Wg r g' Ey) as [Ay _].
    eapply advances_weaken; [|exact Ay]. specialize (Ch y Iy). lia. }
  assert (A1 : advances rk (rk self) h h1).
  { eapply Below; [|exact W|exact Ev]. right. left. }
  assert (Quiet : forall g, advances rk (rk self) h g ->
             invocations self (trace g) = invocations self (trace h)
             /\ objects g !! self = Some o).
  { intros g Ag. split; [|exact (advances_self rk _ _ _ _ Ag E)].
    destruct Ag as (_ & _ & _ & t & -> & Bt).
    rewrite invocations_concat, (invocations_below rk self t Bt). lia. }
  destruct (convert v (Some TInt)) as [offset| | |] eqn:Cv; try discriminate R.
  exists a0, a1, rest, v, offset, h1.
  split; [exact La|]. split; [exact Ev|]. split; [exact Cv|].
  destruct (index <? offset)%Z eqn:Lt.
  - injection R as <- <-. apply Z.ltb_lt in Lt.
    split; [auto|]. split; [lia|]. now apply Quiet.
  - apply Z.ltb_ge in Lt. cbn [list_item lookup list_lookup] in R.
    rewrite run_bind with (a := a0) (h1 := h1) in R by reflexivity.
    split; [lia|]. split; [auto|]. apply Quiet.
    eapply advances_trans; [exact A1|].
    eapply Below; [|apply A1|exact R]. left.
Qed.


End CallBranches.


(** [PICK("a", "b")] at row 0 of 2 is "b", and PICK has been invoked
    once. *)
Lemma Call_fvalue_row_wise_witness :
  exists h',
    fvalue 2 2 0 2 false Sample.picks = (Ok (VStr "b"), h')
    /\ invocations 2 (trace h') = 1
    /\ objects h' !! 2 = objects Sample.picks !! 2.
Proof.
  set (h' := (fvalue 2 2 0 2 false Sample.picks).2).
  assert (E : fvalue 2 2 0 2 false Sample.picks = (Ok (VStr "b"), h'))
    by (vm_compute; reflexivity).
  destruct (Call_fvalue_row_wise (fun x => x) 1 2 (Cases.obj (Call Sample.picks_call) [])
              Sample.picks_call (VStr "b") 0 2 false Sample.picks h')
    as (a & vs & hm & _ & _ & _ & I & O & _).
  - unfold well_formed. apply (bool_decide_unpack _). vm_compute. reflexivity.
  - vm_compute. reflexivity.
  - reflexivity.
  - reflexivity.
  - reflexivity.
  - exact E.
  - exists h'. split; [exact E|]. split; [exact I|].
    etransitivity; [exact O|]. vm_compute. reflexivity.
Defined.

(** [OFFSET(x, 1)] over the column 1, 2, 3: not-a-number at row 0, the
    value of row 1 at row 2; OFFSET is never invoked. *)
Lemma Call_fvalue_OFFSET_witness :
  (exists h', @fvalue Cases.runtime 2 2 0 3 false Cases.shifted
              = (Ok (VFloat PrimFloat.nan), h')
              /\ invocations 2 (trace h') = 0)
  /\ (exists h', @fvalue Cases.runtime 2 2 2 3 false Cases.shifted = (Ok (VInt 2), h')
                 /\ invocations 2 (trace h') = 0).
Proof.
  assert (W : well_formed (fun x => x) Cases.shifted)
    by (unfold well_formed; apply (bool_decide_unpack _); vm_compute; reflexivity).
  assert (E : objects Cases.shifted !! 2 = Some (Cases.obj (Call Cases.shifted_call) []))
    by (vm_compute; reflexivity).
  split.
  - set (h' := (@fvalue Cases.runtime 2 2 0 3 false Cases.shifted).2).
    assert (R : @fvalue Cases.runtime 2 2 0 3 false Cases.shifted
                = (Ok (VFloat PrimFloat.nan), h')) by (vm_compute; reflexivity).
    destruct (@Call_fvalue_OFFSET Cases.runtime (fun x => x) 1 2 _ Cases.shifted_call
                (VFloat PrimFloat.nan) 0 3 false Cases.shifted h' W E eq_refl eq_refl R)
      as (a0 & a1 & rest & v & offset & h1 & _ & _ & _ & _ & _ & I & _).
    exists h'. split; [exact R | exact I].
  - set (h' := (@fvalue Cases.runtime 2 2 2 3 false Cases.shifted).2).
    assert (R : @fvalue Cases.runtime 2 2 2 3 false Cases.shifted = (Ok (VInt 2), h'))
      by (vm_compute; reflexivity).
    destruct (@Call_fvalue_OFFSET Cases.runtime (fun x => x) 1 2 _ Cases.shifted_call
                (VInt 2) 2 3 false Cases.shifted h' W E eq_refl eq_refl R)
      as (a0 & a1 & rest & v & offset & h1 & _ & _ & _ & _ & _ & I & _).
    exists h'. split; [exact R | exact I].
Defined.


(** ** The result types can always be determined *)

Section TypesSteady.
Context `{Runtime}.
Variable rk : oid -> nat.

Lemma grows_lookup_inv h g x o' :
  grows h g -> objects g !! x = Some o' ->
  exists o, objects h !! x = Some o /\ grow_obj o o'.
Proof.
  intros [_ O] E. specialize (O x). rewrite E in O. inversion O; subst. eauto.
Qed.

Lemma children_grow_node ls n n' : grow_node n n' -> children ls n' = children ls n.
Proof.
  destruct n; cbn; try (now intros ->). intros (c' & -> & _ & A & _). cbn. now rewrite A.
Qed.

Lemma grows_is_Some h g x : grows h g -> is_Some (objects h !! x) -> is_Some (objects g !! x).
Proof. intros G [o E]. destruct (grows_lookup _ _ _ _ G E) as (o' & E' & _). eauto. Qed.

Lemma closed_lookup h x o :
  closed h -> objects h !! x = Some o ->
  Forall (fun y => is_Some (objects h !! y)) (children (lists h) (class_ o))
  /\ forall c, class_ o = Call c -> is_Some (lists h !! args c).
Proof.
  intros Cl E. destruct (Cl x o E) as [F L]. cbn in F, L. split; [exact F|].
  intros c C. rewrite C in L. cbn in L. now apply bool_decide_eq_true in L.
Qed.

Lemma closed_grows h g : grows h g -> closed h -> closed g.
Proof.
  intros G Cl x o' E'. destruct (grows_lookup_inv _ _ _ _ G E') as (o & E & _ & Gn).
  destruct (closed_lookup h x o Cl E) as [F L]. destruct G as [Ls Os]. cbn. split.
  - rewrite Ls, (children_grow_node _ _ _ Gn).
    eapply Forall_impl; [exact F|]. cbn. intros y Sy.
    eapply grows_is_Some; [|exact Sy]. now split.
  - destruct (class_ o) eqn:Co; cbn in Gn; try (now rewrite Gn).
    destruct Gn as (c2 & -> & _ & A & _). cbn. apply bool_decide_eq_true.
    rewrite Ls, A. now apply (L c).
Qed.

Lemma steady_ret {A} k (a : A) h : well_formed rk h -> steady rk k (mret a) h.
Proof. intros W. exists a, h. split; [reflexivity|]. split; [reflexivity|]. now apply advances_refl. Qed.

Lemma steady_run {A} k (E E' : M A) h : E h = E' h -> steady rk k E' h -> steady rk k E h.
Proof. intros Eq (r & h1 & E1 & T). exists r, h1. now rewrite Eq. Qed.

Lemma steady_weaken {A} k k' (E : M A) h : k <= k' -> steady rk k E h -> steady rk k' E h.
Proof.
  intros L (r & h1 & E1 & T & Ad). exists r, h1. split; [exact E1|]. split; [exact T|].
  eapply advances_weaken; eauto.
Qed.

Lemma steady_bind {A B} k (m : M A) (f : A -> M B) h :
  steady rk k m h ->
  (forall a h1, m h = (Ok a, h1) -> advances rk k h h1 -> steady rk k (f a) h1) ->
  steady rk k (m ≫= f) h.
Proof.
  intros (a & h1 & E & T & Ad) Hf. destruct (Hf a h1 E Ad) as (b & h2 & E2 & T2 & A2).
  exists b, h2. split; [now rewrite (run_bind _ _ _ _ _ E)|].
  split; [congruence | eapply advances_trans; eauto].
Qed.

Lemma steady_mapM {A B} k (f : A -> M B) l : forall h,
  (forall x g, x ∈ l -> advances rk k h g -> steady rk k (f x) g) ->
  well_formed rk h -> steady rk k (mapM f l) h.
Proof.
  induction l as [|x l IH]; intros h Hf W; [now apply (steady_ret k [])|].
  change (steady rk k (f x ≫= fun y => mapM f l ≫= fun ys => mret (y :: ys)) h).
  apply steady_bind.
  { apply Hf; [left | now apply advances_refl]. }
  intros y h1 _ A1. apply steady_bind.
  { apply IH; [|apply A1]. intros z g Iz Ag. apply Hf; [now right|].
    eapply advances_trans; eauto. }
  intros ys h2 _ A2. apply steady_ret. apply A2.
Qed.

Lemma BinOp_data_type_steady k (dt : data_type_t) l op r h :
  (forall y g, y ∈ [l; r] -> advances rk k h g -> steady rk k (dt y) g) ->
  forall g, advances rk k h g -> steady rk k (BinOp_data_type dt l op r) g.
Proof.
  intros Hd g Ag. unfold BinOp_data_type.
  destruct op; try (apply steady_ret; apply Ag);
    (apply steady_bind; [apply Hd; [left | exact Ag]|]; intros ld g1 _ A1;
     apply steady_bind;
     [apply Hd; [right; left | eapply advances_trans; eauto]|];
     intros rd g2 _ A2; apply steady_ret; apply A2).
Qed.

Lemma BinOp_measure_type_steady k (dt : data_type_t) (mt : measure_type_t) l op r h :
  (forall y g, y ∈ [l; r] -> advances rk k h g -> steady rk k (dt y) g) ->
  (forall y g, y ∈ [l; r] -> advances rk k h g -> steady rk k (mt y) g) ->
  forall g, advances rk k h g -> steady rk k (BinOp_measure_type dt mt l op r) g.
Proof.
  intros Hd Hm g Ag.
  assert (D : forall g, advances rk k h g -> steady rk k (BinOp_data_type dt l op r) g)
    by (now apply BinOp_data_type_steady).
  assert (T : forall lm rm g, advances rk k h g ->
            steady rk k (if is_NOMINAL lm || is_NOMINAL rm
                         then mret MeasureType.NOMINAL else mret MeasureType.ORDINAL) g).
  { intros lm rm g0 A0. destruct (_ || _); apply steady_ret; apply A0. }
  assert (Cn : forall lm rm g, advances rk k h g ->
            steady rk k
              (if is_CONTINUOUS lm || is_CONTINUOUS rm then
                 d ← BinOp_data_type dt l op r;
                 if is_TEXT d
                 then (if is_NOMINAL lm || is_NOMINAL rm
                       then mret MeasureType.NOMINAL else mret MeasureType.ORDINAL)
                 else mret MeasureType.CONTINUOUS
               else (if is_NOMINAL lm || is_NOMINAL rm
                     then mret MeasureType.NOMINAL else mret MeasureType.ORDINAL)) g).
  { intros lm rm g0 A0. destruct (is_CONTINUOUS lm || is_CONTINUOUS rm); [|now apply T].
    apply steady_bind; [now apply D|]. intros d g1 _ A1.
    pose proof (advances_trans rk _ _ _ _ A0 A1) as A01.
    destruct (is_TEXT d); [now apply T | apply steady_ret; apply A1]. }
  assert (Rest : steady rk k
            (lmt ← mt l; rmt ← mt r;
             if is_ID lmt || is_ID rmt then
               d ← BinOp_data_type dt l op r;
               if is_TEXT d then mret MeasureType.ID
               else (if is_CONTINUOUS lmt || is_CONTINUOUS rmt then
                       d ← BinOp_data_type dt l op r;
                       if is_TEXT d
                       then (if is_NOMINAL lmt || is_NOMINAL rmt
                             then mret MeasureType.NOMINAL else mret MeasureType.ORDINAL)
                       else mret MeasureType.CONTINUOUS
                     else (if is_NOMINAL lmt || is_NOMINAL rmt
                           then mret MeasureType.NOMINAL else mret MeasureType.ORDINAL))
             else (if is_CONTINUOUS lmt || is_CONTINUOUS rmt then
                     d ← BinOp_data_type dt l op r;
                     if is_TEXT d
                     then (if is_NOMINAL lmt || is_NOMINAL rmt
                           then mret MeasureType.NOMINAL else mret MeasureType.ORDINAL)
                     else mret MeasureType.CONTINUOUS
                   else (if is_NOMINAL lmt || is_NOMINAL rmt
                         then mret MeasureType.NOMINAL else mret MeasureType.ORDINAL))) g).
  { apply steady_bind; [apply Hm; [left | exact Ag]|]. intros lm g1 _ A1.
    pose proof (advances_trans rk _ _ _ _ Ag A1) as A01.
    apply steady_bind; [apply Hm; [right; left | exact A01]|]. intros rm g2 _ A2.
    pose proof (advances_trans rk _ _ _ _ A01 A2) as A02.
    destruct (is_ID lm || is_ID rm); [|now apply Cn].
    apply steady_bind; [now apply D|]. intros d g3 _ A3.
    pose proof (advances_trans rk _ _ _ _ A02 A3) as A03.
    destruct (is_TEXT d); [apply steady_ret; apply A3 | now apply Cn]. }
  unfold BinOp_measure_type. destruct op; try exact Rest. apply steady_ret. apply Ag.
Qed.

(** The types of the children of [x], from any store the evaluation of [x]
    goes through. *)
Lemma types_steady : forall fuel x h,
  well_formed rk h -> closed h -> is_Some (objects h !! x) -> rk x < fuel ->
  steady rk (S (rk x)) (data_type fuel x) h
  /\ steady rk (S (rk x)) (measure_type fuel x) h.
Proof.
  induction fuel as [|fuel IH]; intros x h W Cl [o E] L; [lia|].
  destruct (closed_lookup h x o Cl E) as [Fc Lc].
  pose proof (proj1 (well_formed_lookup rk h x o W E)) as Fr.
  rewrite Forall_forall in Fc, Fr.
  assert (Child : forall y g, y ∈ children (lists h) (class_ o) -> advances rk (rk x) h g ->
            steady rk (rk x) (data_type fuel y) g
            /\ steady rk (rk x) (measure_type fuel y) g).
  { intros y g Iy (Wg & Gg & _).
    destruct (IH y g Wg) as [Sd Sm].
    - eapply closed_grows; eauto.
    - eapply grows_is_Some; eauto.
    - specialize (Fr y Iy). lia.
    - specialize (Fr y Iy). split; eapply steady_weaken; eauto. }
  assert (A0 : advances rk (rk x) h h) by now apply advances_refl.
  assert (CallT : forall c, class_ o = Call c ->
            steady rk (S (rk x)) (Call_data_type (data_type fuel) (measure_type fuel) x) h
            /\ steady rk (S (rk x))
                 (Call_measure_type (data_type fuel) (measure_type fuel) x) h).
  { intros c C. rewrite C in Child. cbn [children] in Child.
    destruct (Lc c C) as [a La]. rewrite La in Child.
    pose proof (proj2 (well_formed_lookup rk h x o W E)) as Mc. rewrite C in Mc.
    assert (Store : forall d m hm, advances rk (rk x) h hm -> trace hm = trace h ->
               _d_type c = None -> _m_type c = None ->
               steady rk (S (rk x))
                 (update_call (with_types d m) x ≫= fun _ => mret (d, m)) hm).
    { intros d m hm Am Tm Dn Mn.
      pose proof (advances_self rk _ _ _ _ Am E) as Em.
      exists (d, m), (updated (with_types d m) x o c hm).
      split; [now rewrite (run_bind _ _ _ _ _ (run_update_call _ _ _ _ _ Em C))|].
      split; [reflexivity|].
      apply advances_updated; [apply Am | exact Em | exact C | | reflexivity].
      repeat split; cbn; auto; congruence. }
    assert (Det : _d_type c = None -> _m_type c = None ->
              exists dm h1,
                Call__determine_d_m_types (data_type fuel) (measure_type fuel) x h
                = (Ok dm, h1)
                /\ trace h1 = trace h /\ advances rk (S (rk x)) h h1).
    { intros Dn Mn. unfold Call__determine_d_m_types.
      rewrite (run_bind _ _ _ _ _ (run_call_fields _ _ _ _ E C)).
      rewrite (run_bind _ _ _ _ _ (run_read_list _ _ _ La)).
      destruct (bool_decide (length a = 0)); [now apply Store|].
      destruct (bool_decide (length (returns (meta (_function c))) = 0));
        [now apply Store|].
      assert (St : steady rk (rk x)
                     (Call_arg_types (data_type fuel) (measure_type fuel) a
                        (returns (meta (_function c)))) h).
      { unfold Call_arg_types. apply steady_mapM; [|exact W].
        intros arg_i g _ Ag. destruct (a !! arg_i) as [arg|] eqn:Ea;
          [|apply steady_ret; apply Ag].
        assert (Ia : arg ∈ a) by (eapply list_elem_of_lookup_2; eauto).
        apply steady_bind; [now apply Child|]. intros d g1 _ A1.
        apply steady_bind; [apply Child; [exact Ia | eapply advances_trans; eauto]|].
        intros m g2 _ A2. apply steady_ret. apply A2. }
      destruct St as (types & hm & Et & Tm & Am).
      rewrite (run_bind _ _ _ _ _ Et). cbv zeta.
      destruct (Store (pick_data_type (types.*1) DataType.INTEGER)
                  (pick_measure_type (pick_data_type (types.*1) DataType.INTEGER) (types.*2))
                  hm Am Tm Dn Mn) as (dm & h1 & E1 & T1 & A1).
      exists dm, h1. split; [exact E1|]. split; [congruence|].
      eapply advances_trans; [|exact A1]. eapply advances_weaken; [|exact Am]. lia. }
    split.
    - eapply steady_run;
        [unfold Call_data_type;
         rewrite (run_bind _ _ _ _ _ (run_call_fields _ _ _ _ E C)); reflexivity|].
      destruct (_d_type c) as [d|] eqn:Dc.
      + now apply steady_ret.
      + destruct (Det eq_refl (proj1 (memo_consistent_None c Mc) Dc))
          as (dm & h1 & E1 & T1 & A1).
        exists dm.1, h1. split; [now rewrite (run_bind _ _ _ _ _ E1)|]. now split.
    - eapply steady_run;
        [unfold Call_measure_type;
         rewrite (run_bind _ _ _ _ _ (run_call_fields _ _ _ _ E C)); reflexivity|].
      destruct (_m_type c) as [m|] eqn:Mt.
      + now apply steady_ret.
      + destruct (Det (proj2 (memo_consistent_None c Mc) Mt) eq_refl)
          as (dm & h1 & E1 & T1 & A1).
        exists dm.2, h1. split; [now rewrite (run_bind _ _ _ _ _ E1)|]. now split. }
  assert (Up : forall A (E0 : M A), steady rk (rk x) E0 h -> steady rk (S (rk x)) E0 h)
    by (intros; eapply steady_weaken; [|eassumption]; lia).
  split.
  - eapply steady_run;
      [cbn [data_type]; rewrite (run_bind _ _ _ _ _ (run_deref _ _ _ E)); reflexivity|].
    destruct (class_ o) as [n|s|op y|op vs|c|l op r|l ops cs|s] eqn:C; cbn [class_data_type].
    + apply Up. now apply steady_ret.
    + apply Up. now apply steady_ret.
    + apply Up. cbn [children] in Child. unfold UnaryOp_data_type.
      destruct op; try (apply Child; [left | exact A0]).
      * now apply steady_ret.
      * apply steady_bind; [apply Child; [left | exact A0]|]. intros d g1 _ A1.
        destruct d; try (apply Child; [left | exact A1]). apply steady_ret. apply A1.
    + apply Up. now apply steady_ret.
    + now apply (CallT c).
    + apply Up. cbn [children] in Child.
      apply (BinOp_data_type_steady (rk x) _ l op r h); [|exact A0].
      intros y g Iy Ag. now apply Child.
    + apply Up. now apply steady_ret.
    + apply Up. now apply steady_ret.
  - eapply steady_run;
      [cbn [measure_type]; rewrite (run_bind _ _ _ _ _ (run_deref _ _ _ E)); reflexivity|].
    destruct (class_ o) as [n|s|op y|op vs|c|l op r|l ops cs|s] eqn:C;
      cbn [class_measure_type].
    + apply Up. now apply steady_ret.
    + apply Up. now apply steady_ret.
    + apply Up. cbn [children] in Child. unfold UnaryOp_measure_type.
      destruct op; try (apply Child; [left | exact A0]).
      * now apply steady_ret.
      * apply steady_bind; [apply Child; [left | exact A0]|]. intros d g1 _ A1.
        destruct d; try (apply Child; [left | exact A1]). apply steady_ret. apply A1.
    + apply Up. now apply steady_ret.
    + now apply (CallT c).
    + apply Up. cbn [children] in Child.
      apply (BinOp_measure_type_steady (rk x) _ _ l op r h); [| |exact A0];
        intros y g Iy Ag; now apply Child.
    + apply Up. now apply steady_ret.
    + apply Up. now apply steady_ret.
Qed.


(** X6.  In an expression graph whose operands and arguments are all in the
    store, the data type and the measure type of a node can always be
    determined once the fuel exceeds the node's rank: both queries return,
    they record no event (no function is invoked and no cell of the dataset
    is fetched), the store has only gained memoized fields, and the same
    queries give the same types in any store that evaluation grows from
    there. *)
Theorem types_determined fuel x h :
  well_formed rk h -> closed h -> is_Some (objects h !! x) -> rk x < fuel ->
  exists d m h1 h2,
    data_type fuel x h = (Ok d, h1)
    /\ measure_type fuel x h1 = (Ok m, h2)
    /\ trace h2 = trace h
    /\ grows h h2
    /\ forall g, grows h2 g ->
         (data_type fuel x g).1 = Ok d /\ (measure_type fuel x g).1 = Ok m.
Proof.
  intros W Cl S L.
  destruct (proj1 (types_steady fuel x h W Cl S L)) as (d & h1 & E1 & T1 & A1).
  pose proof A1 as (W1 & G1 & _).
  destruct (proj2 (types_steady fuel x h1 W1 (closed_grows _ _ G1 Cl)
                     (grows_is_Some _ _ _ G1 S) L)) as (m & h2 & E2 & T2 & A2).
  pose proof A2 as (W2 & G2 & _).
  exists d, m, h1, h2. split; [exact E1|]. split; [exact E2|].
  split; [congruence|]. split; [eapply grows_trans; eauto|].
  intros g Gg. split.
  - destruct (proj1 (replay_types rk fuel x h W) d h1 E1) as [_ P].
    destruct (P g (grows_trans _ _ _ G2 Gg)) as (g' & -> & _). reflexivity.
  - destruct (proj2 (replay_types rk fuel x h1 W1) m h2 E2) as [_ P].
    destruct (P g Gg) as (g' & -> & _). reflexivity.
Qed.

End TypesSteady.


(** The types of [VSUM(x) + 1] are determined without a look at the
    column. *)
Lemma types_determined_witness :
  exists h1 h2,
    data_type 4 3 Sample.sums = (Ok DataType.INTEGER, h1)
    /\ measure_type 4 3 h1 = (Ok MeasureType.CONTINUOUS, h2)
    /\ trace h2 = trace Sample.sums.
Proof.
  destruct (types_determined (fun x => x) 4 3 Sample.sums)
    as (d & m & h1 & h2 & Ed & Em & T & _ & St).
  - unfold well_formed. apply (bool_decide_unpack _). vm_compute. reflexivity.
  - unfold closed. apply (bool_decide_unpack _). vm_compute. reflexivity.
  - exists (Cases.obj (BinOp 1 ast.Add 2) []). vm_compute. reflexivity.
  - cbn. lia.
  - assert (Xd : (data_type 4 3 Sample.sums).1 = Ok DataType.INTEGER)
      by (vm_compute; reflexivity).
    assert (Xm : (measure_type 4 3 (data_type 4 3 Sample.sums).2).1
                 = Ok MeasureType.CONTINUOUS) by (vm_compute; reflexivity).
    rewrite Ed in Xd, Xm. cbn [fst snd] in Xd, Xm. rewrite Em in Xm. cbn [fst] in Xm.
    injection Xd as ->. injection Xm as ->. exists h1, h2. auto.
Defined.

(** ** Call: the edges of type inference and of level discovery *)

Section CallEdges.
Context `{Runtime}.

Lemma Call_arg_types_out_of_range (data_type : data_type_t) (measure_type : measure_type_t)
    a returns_ h :
  Forall (fun arg_i => length a <= arg_i) returns_ ->
  Call_arg_types data_type measure_type a returns_ h
  = (Ok (replicate (length returns_) (None, None)), h).
Proof.
  unfold Call_arg_types. induction 1 as [|i returns_ Li _ IH]; [reflexivity|].
  rewrite run_mapM_cons. rewrite (lookup_ge_None_2 a i Li).
  rewrite run_bind with (a := (None, None)) (h1 := h) by reflexivity.
  now rewrite (run_bind _ _ _ _ _ IH).
Qed.

Lemma pick_data_type_unknown n dt : pick_data_type (replicate n None) dt = dt.
Proof. induction n as [|n IH]; [reflexivity|]. exact IH. Qed.

Lemma pick_measure_type_unknown n :
  pick_measure_type DataType.INTEGER (replicate n None) = MeasureType.NOMINAL.
Proof.
  unfold pick_measure_type.
  rewrite !bool_decide_eq_false_2; [reflexivity|..];
    intros I; apply elem_of_replicate in I as [[=] _].
Qed.

(** X7.  The result types of a call whose types are not yet determined,
    whatever the types of its arguments are and without asking for them:
    a call without arguments, or of a function without type-deriving
    positions, has the types of the function's meta data; a call all of whose
    type-deriving positions lie beyond its arguments is an integer nominal.
    Either way the types are stored in the node. *)
Theorem Call_types_without_deriving_arguments
    (data_type : data_type_t) (measure_type : measure_type_t) self o c a h :
  objects h !! self = Some o -> class_ o = Call c ->
  _d_type c = None -> _m_type c = None ->
  lists h !! args c = Some a ->
  let func_meta := meta (_function c) in
  let typed d m := updated (with_types d m) self o c h in
  (a = [] \/ returns func_meta = [] ->
     Call_data_type data_type measure_type self h
     = (Ok (d_type func_meta), typed (d_type func_meta) (m_type func_meta))
     /\ Call_measure_type data_type measure_type self h
        = (Ok (m_type func_meta), typed (d_type func_meta) (m_type func_meta)))
  /\ (a <> [] -> returns func_meta <> [] ->
      Forall (fun arg_i => length a <= arg_i) (returns func_meta) ->
      Call_data_type data_type measure_type self h
      = (Ok DataType.INTEGER, typed DataType.INTEGER MeasureType.NOMINAL)
      /\ Call_measure_type data_type measure_type self h
         = (Ok MeasureType.NOMINAL, typed DataType.INTEGER MeasureType.NOMINAL)).
Proof.
  intros E C Dn Mn La. cbv zeta.
  set (typed d m := updated (with_types d m) self o c h).
  assert (Q : forall d m,
             Call__determine_d_m_types data_type measure_type self h = (Ok (d, m), typed d m) ->
             Call_data_type data_type measure_type self h = (Ok d, typed d m)
             /\ Call_measure_type data_type measure_type self h = (Ok m, typed d m)).
  { intros d m R. unfold Call_data_type, Call_measure_type.
    rewrite !(run_bind _ _ _ _ _ (run_call_fields _ _ _ _ E C)), Dn, Mn.
    now rewrite !(run_bind _ _ _ _ _ R). }
  split.
  - intros Em. apply Q. unfold Call__determine_d_m_types.
    rewrite (run_bind _ _ _ _ _ (run_call_fields _ _ _ _ E C)).
    rewrite (run_bind _ _ _ _ _ (run_read_list _ _ _ La)).
    destruct (bool_decide (length a = 0)) eqn:B1.
    + now rewrite (run_bind _ _ _ _ _ (run_update_call _ _ _ _ _ E C)).
    + destruct Em as [-> | Er]; [discriminate B1|]. rewrite Er. cbn [length].
      rewrite bool_decide_eq_true_2 by reflexivity.
      now rewrite (run_bind _ _ _ _ _ (run_update_call _ _ _ _ _ E C)).
  - intros Na Nr F. apply Q. unfold Call__determine_d_m_types.
    rewrite (run_bind _ _ _ _ _ (run_call_fields _ _ _ _ E C)).
    rewrite (run_bind _ _ _ _ _ (run_read_list _ _ _ La)).
    rewrite bool_decide_eq_false_2 by (now destruct a).
    rewrite bool_decide_eq_false_2 by (now destruct (returns (meta (_function c)))).
    rewrite (run_bind _ _ _ _ _ (Call_arg_types_out_of_range _ _ _ _ _ F)). cbv zeta.
    rewrite !fmap_replicate. cbn [fst snd].
    rewrite pick_data_type_unknown, pick_measure_type_unknown.
    now rewrite (run_bind _ _ _ _ _ (run_update_call _ _ _ _ _ E C)).
Qed.

(** X8.  A call that is not level-relevant has no levels, and finding that
    out evaluates nothing: whatever the level discovery and the evaluation
    of nodes would do, a call of a function without level-source positions,
    or a call without arguments, yields the empty list in the store as it is;
    a call whose data type is not text, or whose measure type is identifier,
    yields the empty list in the store in which its types are determined. *)
Theorem Call_get_levels_not_relevant
    (data_type : data_type_t) (measure_type : measure_type_t)
    (has_levels : has_levels_t) (get_levels : get_levels_t) (fvalue : fvalue_t)
    self o c a row_count h :
  objects h !! self = Some o -> class_ o = Call c ->
  lists h !! args c = Some a ->
  let levels := Call_get_levels data_type measure_type has_levels get_levels fvalue
                  self row_count in
  (arg_level_indices (meta (_function c)) = [] \/ a = [] -> levels h = (Ok [], h))
  /\ (forall d h1,
        arg_level_indices (meta (_function c)) <> [] -> a <> [] ->
        Call_data_type data_type measure_type self h = (Ok d, h1) ->
        d <> DataType.TEXT -> levels h = (Ok [], h1))
  /\ (forall h1 h2,
        arg_level_indices (meta (_function c)) <> [] -> a <> [] ->
        Call_data_type data_type measure_type self h = (Ok DataType.TEXT, h1) ->
        Call_measure_type data_type measure_type self h1 = (Ok MeasureType.ID, h2) ->
        levels h = (Ok [], h2)).
Proof.
  intros E C La levels. unfold levels, Call_get_levels.
  rewrite (run_bind _ _ _ _ _ (run_call_fields _ _ _ _ E C)). cbv zeta.
  split; [|split].
  - intros [-> | ->].
    + now rewrite bool_decide_eq_true_2 by reflexivity.
    + destruct (bool_decide _); [reflexivity|].
      rewrite (run_bind _ _ _ _ _ (run_read_list _ _ _ La)).
      now rewrite bool_decide_eq_true_2 by reflexivity.
  - intros d h1 Ni Na Ed Nd.
    rewrite bool_decide_eq_false_2
      by (now destruct (arg_level_indices (meta (_function c)))).
    rewrite (run_bind _ _ _ _ _ (run_read_list _ _ _ La)).
    rewrite bool_decide_eq_false_2 by (now destruct a).
    rewrite (run_bind _ _ _ _ _ Ed). now destruct d.
  - intros h1 h2 Ni Na Ed Em.
    rewrite bool_decide_eq_false_2
      by (now destruct (arg_level_indices (meta (_function c)))).
    rewrite (run_bind _ _ _ _ _ (run_read_list _ _ _ La)).
    rewrite bool_decide_eq_false_2 by (now destruct a).
    rewrite (run_bind _ _ _ _ _ Ed). cbn [is_TEXT negb].
    now rewrite (run_bind _ _ _ _ _ Em).
Qed.

End CallEdges.


(** [VSUM] has no type-deriving position: [VSUM(x)] has the types of its
    meta data, whatever the column is. *)
Lemma Call_types_without_deriving_arguments_witness :
  exists h1,
    Call_data_type (data_type 1) (measure_type 1) 1 Sample.sums
    = (Ok DataType.INTEGER, h1)
    /\ Call_measure_type (data_type 1) (measure_type 1) 1 Sample.sums
       = (Ok MeasureType.CONTINUOUS, h1).
Proof.
  destruct (Call_types_without_deriving_arguments (data_type 1) (measure_type 1) 1
              (Cases.obj (Call Sample.sums_call) [3]) Sample.sums_call [0] Sample.sums)
    as [A _].
  - vm_compute. reflexivity.
  - reflexivity.
  - reflexivity.
  - reflexivity.
  - vm_compute. reflexivity.
  - eexists. exact (A (or_intror eq_refl)).
Defined.

(** [VSUM] has no level-source position either: [VSUM(x)] has no levels. *)
Lemma Call_get_levels_not_relevant_witness :
  Call_get_levels (data_type 1) (measure_type 1) has_levels (get_levels 1) (fvalue 1)
    1 3 Sample.sums
  = (Ok [], Sample.sums).
Proof.
  destruct (Call_get_levels_not_relevant (data_type 1) (measure_type 1) has_levels
              (get_levels 1) (fvalue 1) 1 (Cases.obj (Call Sample.sums_call) [3])
              Sample.sums_call [0] 3 Sample.sums) as [A _].
  - vm_compute. reflexivity.
  - reflexivity.
  - vm_compute. reflexivity.
  - exact (A (or_introl eq_refl)).
Defined.

(** ** The logic of the operators *)

Section Logic3.
Context `{Runtime}.

Lemma UnaryOp_Not_run (fvalue : fvalue_t) x index row_count filt h :
  UnaryOp_fvalue fvalue ast.Not x index row_count filt h
  = (fvalue x index row_count filt ≫= fun v => mret (negation v)) h.
Proof.
  unfold UnaryOp_fvalue, negation, mbind, M_bind.
  destruct (fvalue x index row_count filt h) as [[v| | |] h1]; try reflexivity.
  now destruct (is_missing v).
Qed.

Lemma negation_0 : is_missing (VInt 0) = false -> negation (VInt 0) = VInt 1.
Proof. unfold negation. now intros ->. Qed.

Lemma negation_1 : is_missing (VInt 1) = false -> negation (VInt 1) = VInt 0.
Proof. unfold negation. now intros ->. Qed.

Lemma negation_missing v : is_missing v = true -> negation v = v.
Proof. unfold negation. now intros ->. Qed.

Lemma negation_truth v : truth_value (negation v).
Proof.
  unfold negation, truth_value. destruct (is_missing v) eqn:M; [auto|].
  destruct (py_bool (item0 v)); auto.
Qed.

Lemma fvalue_UnaryOp fuel self o op operand index row_count filt h :
  objects h !! self = Some o -> class_ o = UnaryOp op operand ->
  fvalue (S fuel) self index row_count filt h
  = UnaryOp_fvalue (fvalue fuel) op operand index row_count filt h.
Proof.
  intros E C. cbn [fvalue]. now rewrite (run_bind _ _ _ _ _ (run_deref _ _ _ E)), C.
Qed.

Lemma fvalue_BoolOp fuel self o op values index row_count filt h :
  objects h !! self = Some o -> class_ o = BoolOp op values ->
  fvalue (S fuel) self index row_count filt h
  = BoolOp_fvalue (fvalue fuel) op values index row_count filt h.
Proof.
  intros E C. cbn [fvalue]. now rewrite (run_bind _ _ _ _ _ (run_deref _ _ _ E)), C.
Qed.

(** X9.  Negation is three-valued.  [not x] is 1 where [x] is falsy, 0 where
    it is truthy and the missing value of [x] itself where [x] is missing;
    it evaluates [x] once.  Given that 0 and 1 are not missing values,
    negating twice gives 1 where [x] is truthy, 0 where it is falsy and the
    missing value where it is missing, and negating three times is negating
    once. *)
Theorem UnaryOp_Not_three_valued fuel x n1 n2 n3 v index row_count filt h h1 :
  is_missing (VInt 0) = false -> is_missing (VInt 1) = false ->
  is_node h n1 (UnaryOp ast.Not x) ->
  is_node h n2 (UnaryOp ast.Not n1) ->
  is_node h n3 (UnaryOp ast.Not n2) ->
  fvalue fuel x index row_count filt h = (Ok v, h1) ->
  let once := if is_missing v then v else if py_bool (item0 v) then VInt 0 else VInt 1 in
  let twice := if is_missing v then v else if py_bool (item0 v) then VInt 1 else VInt 0 in
  fvalue (1 + fuel) n1 index row_count filt h = (Ok once, h1)
  /\ fvalue (2 + fuel) n2 index row_count filt h = (Ok twice, h1)
  /\ fvalue (3 + fuel) n3 index row_count filt h = (Ok once, h1).
Proof.
  intros M0 M1 (o1 & E1 & C1) (o2 & E2 & C2) (o3 & E3 & C3) Ev once twice.
  assert (R1 : fvalue (1 + fuel) n1 index row_count filt h = (Ok (negation v), h1)).
  { cbn [Nat.add]. rewrite (fvalue_UnaryOp _ _ _ _ _ _ _ _ _ E1 C1), UnaryOp_Not_run.
    now rewrite (run_bind _ _ _ _ _ Ev). }
  assert (R2 : fvalue (2 + fuel) n2 index row_count filt h
               = (Ok (negation (negation v)), h1)).
  { cbn [Nat.add]. rewrite (fvalue_UnaryOp _ _ _ _ _ _ _ _ _ E2 C2), UnaryOp_Not_run.
    now rewrite (run_bind _ _ _ _ _ R1). }
  assert (R3 : fvalue (3 + fuel) n3 index row_count filt h
               = (Ok (negation (negation (negation v))), h1)).
  { cbn [Nat.add]. rewrite (fvalue_UnaryOp _ _ _ _ _ _ _ _ _ E3 C3), UnaryOp_Not_run.
    now rewrite (run_bind _ _ _ _ _ R2). }
  assert (N1 : negation v = once) by reflexivity.
  assert (N2 : negation (negation v) = twice).
  { unfold twice, negation at 2. destruct (is_missing v) eqn:Mv.
    - now apply negation_missing.
    - destruct (py_bool (item0 v)); [now apply negation_0 | now apply negation_1]. }
  assert (N3 : negation (negation (negation v)) = once).
  { rewrite N2. unfold twice, once. destruct (is_missing v) eqn:Mv.
    - now apply negation_missing.
    - destruct (py_bool (item0 v)); [now apply negation_1 | now apply negation_0]. }
  rewrite <- N1 at 1. rewrite <- N2, <- N3. auto.
Qed.

End Logic3.


(** [not 1], [not not 1] and [not not not 1] are 0, 1 and 0. *)
Lemma UnaryOp_Not_three_valued_witness :
  fvalue 2 5 0 1 false Cases.logic = (Ok (VInt 0), Cases.logic)
  /\ fvalue 3 9 0 1 false Cases.logic = (Ok (VInt 1), Cases.logic)
  /\ fvalue 4 10 0 1 false Cases.logic = (Ok (VInt 0), Cases.logic).
Proof.
  assert (I1 : is_node Cases.logic 5 (UnaryOp ast.Not 0))
    by (exists (Cases.obj (UnaryOp ast.Not 0) []); split; [vm_compute|]; reflexivity).
  assert (I2 : is_node Cases.logic 9 (UnaryOp ast.Not 5))
    by (exists (Cases.obj (UnaryOp ast.Not 5) []); split; [vm_compute|]; reflexivity).
  assert (I3 : is_node Cases.logic 10 (UnaryOp ast.Not 9))
    by (exists (Cases.obj (UnaryOp ast.Not 9) []); split; [vm_compute|]; reflexivity).
  assert (E : fvalue 1 0 0 1 false Cases.logic = (Ok (VInt 1), Cases.logic))
    by (vm_compute; reflexivity).
  exact (UnaryOp_Not_three_valued 1 0 5 9 10 (VInt 1) 0 1 false Cases.logic Cases.logic
           eq_refl eq_refl I1 I2 I3 E).
Defined.

Section DeMorgan.
Context `{Runtime}.
Variable rk : oid -> nat.

Lemma is_node_grows h g x n :
  grows h g -> (forall c, n <> Call c) -> is_node h x n -> is_node g x n.
Proof.
  intros G N (o & E & C). destruct (grows_lookup _ _ _ _ G E) as (o' & E' & _ & Gn).
  exists o'. split; [exact E'|]. rewrite C in Gn.
  now rewrite (grow_node_not_Call _ _ N Gn).
Qed.

Lemma fvalue_negated fuel n x index row_count filt g :
  is_node g n (UnaryOp ast.Not x) ->
  fvalue (S (S fuel)) n index row_count filt g
  = (fvalue (S fuel) x index row_count filt ≫= fun v => mret (negation v)) g.
Proof.
  intros (o & E & C). now rewrite (fvalue_UnaryOp _ _ _ _ _ _ _ _ _ E C), UnaryOp_Not_run.
Qed.

Lemma bind_run_eq {A B} (m m' : M A) (f : A -> M B) h :
  m h = m' h -> (m ≫= f) h = (m' ≫= f) h.
Proof. unfold mbind, M_bind. now intros ->. Qed.

Lemma De_Morgan_and fuel index row_count filt h0 ns xs :
  is_missing (VInt 0) = false -> is_missing (VInt 1) = false ->
  Forall2 (fun n x => is_node h0 n (UnaryOp ast.Not x)) ns xs ->
  forall g c, grows h0 g -> well_formed rk g ->
    (BoolOp_and (fvalue (S fuel)) xs c index row_count filt ≫= fun v => mret (negation v)) g
    = BoolOp_or (fvalue (S (S fuel))) ns (negation c) index row_count filt g.
Proof.
  intros M0 M1 F. induction F as [|n x ns xs Hn F IH]; intros g c G W; [reflexivity|].
  cbn [BoolOp_and BoolOp_or].
  assert (Hg : is_node g n (UnaryOp ast.Not x))
    by (eapply is_node_grows; [exact G | discriminate | exact Hn]).
  rewrite (bind_run_eq _ _ _ _ (fvalue_negated fuel n x index row_count filt g Hg)).
  destruct (fvalue (S fuel) x index row_count filt g) as [r g1] eqn:Ex.
  destruct r as [v| | |]; try (unfold mbind, M_bind; now rewrite Ex).
  destruct (replay_fvalue rk (S fuel) x index row_count filt g W v g1 Ex)
    as [(W1 & G1 & _) _].
  pose proof (grows_trans _ _ _ G G1) as G01.
  unfold mbind at 1 2 3 4, M_bind at 1 2 3 4. rewrite Ex. cbn [mret M_ret].
  unfold negation at 2 3 4.
  destruct (is_missing v) eqn:Mv.
  - rewrite Mv. rewrite <- (negation_missing v Mv) at 2. now apply IH.
  - destruct (py_bool (item0 v)).
    + rewrite M0. cbn [item0 py_bool Z.eqb negb]. now apply IH.
    + rewrite M1. cbn [item0 py_bool Z.eqb negb]. unfold mbind, M_bind. cbn [mret M_ret].
      now rewrite negation_0.
Qed.

Lemma De_Morgan_or fuel index row_count filt h0 ns xs :
  is_missing (VInt 0) = false -> is_missing (VInt 1) = false ->
  Forall2 (fun n x => is_node h0 n (UnaryOp ast.Not x)) ns xs ->
  forall g c, grows h0 g -> well_formed rk g ->
    (BoolOp_or (fvalue (S fuel)) xs c index row_count filt ≫= fun v => mret (negation v)) g
    = BoolOp_and (fvalue (S (S fuel))) ns (negation c) index row_count filt g.
Proof.
  intros M0 M1 F. induction F as [|n x ns xs Hn F IH]; intros g c G W; [reflexivity|].
  cbn [BoolOp_and BoolOp_or].
  assert (Hg : is_node g n (UnaryOp ast.Not x))
    by (eapply is_node_grows; [exact G | discriminate | exact Hn]).
  rewrite (bind_run_eq _ _ _ _ (fvalue_negated fuel n x index row_count filt g Hg)).
  destruct (fvalue (S fuel) x index row_count filt g) as [r g1] eqn:Ex.
  destruct r as [v| | |]; try (unfold mbind, M_bind; now rewrite Ex).
  destruct (replay_fvalue rk (S fuel) x index row_count filt g W v g1 Ex)
    as [(W1 & G1 & _) _].
  pose proof (grows_trans _ _ _ G G1) as G01.
  unfold mbind at 1 2 3 4, M_bind at 1 2 3 4. rewrite Ex. cbn [mret M_ret].
  unfold negation at 2 3 4.
  destruct (is_missing v) eqn:Mv.
  - rewrite Mv. rewrite <- (negation_missing v Mv) at 2. now apply IH.
  - destruct (py_bool (item0 v)).
    + rewrite M0. cbn [item0 py_bool Z.eqb negb]. unfold mbind, M_bind. cbn [mret M_ret].
      now rewrite negation_1.
    + rewrite M1. cbn [item0 py_bool Z.eqb negb]. now apply IH.
Qed.

(** X10.  De Morgan's laws hold of the formulas, missing values and
    evaluation order included.  In an expression graph, given that 0 and 1
    are not missing values: [not (x1 and ... and xn)] and
    [(not x1) or ... or (not xn)] give the same outcome at every row (the
    same value or the same exception) and leave the same store, having
    evaluated the same operands; and so do [not (x1 or ... or xn)] and
    [(not x1) and ... and (not xn)]. *)
Theorem BoolOp_De_Morgan fuel xs ns index row_count filt h :
  well_formed rk h ->
  is_missing (VInt 0) = false -> is_missing (VInt 1) = false ->
  Forall2 (fun n x => is_node h n (UnaryOp ast.Not x)) ns xs ->
  (forall conj not_conj disj,
      is_node h conj (BoolOp ast.And xs) ->
      is_node h not_conj (UnaryOp ast.Not conj) ->
      is_node h disj (BoolOp ast.Or ns) ->
      fvalue (3 + fuel) not_conj index row_count filt h
      = fvalue (3 + fuel) disj index row_count filt h)
  /\ (forall disj not_disj conj,
      is_node h disj (BoolOp ast.Or xs) ->
      is_node h not_disj (UnaryOp ast.Not disj) ->
      is_node h conj (BoolOp ast.And ns) ->
      fvalue (3 + fuel) not_disj index row_count filt h
      = fvalue (3 + fuel) conj index row_count filt h).
Proof.
  intros W M0 M1 F. split.
  - intros conj not_conj disj (oc & Ec & Cc) Hn (od & Ed & Cd). cbn [Nat.add].
    rewrite (fvalue_negated (S fuel) not_conj conj index row_count filt h Hn).
    rewrite (fvalue_BoolOp _ _ _ _ _ _ _ _ _ Ed Cd). cbn [BoolOp_fvalue].
    rewrite <- (negation_1 M1).
    rewrite <- (De_Morgan_and fuel index row_count filt h ns xs M0 M1 F h (VInt 1)
                  (grows_refl h) W).
    apply bind_run_eq. now rewrite (fvalue_BoolOp _ _ _ _ _ _ _ _ _ Ec Cc).
  - intros disj not_disj conj (od & Ed & Cd) Hn (oc & Ec & Cc). cbn [Nat.add].
    rewrite (fvalue_negated (S fuel) not_disj disj index row_count filt h Hn).
    rewrite (fvalue_BoolOp _ _ _ _ _ _ _ _ _ Ec Cc). cbn [BoolOp_fvalue].
    rewrite <- (negation_0 M0).
    rewrite <- (De_Morgan_or fuel index row_count filt h ns xs M0 M1 F h (VInt 0)
                  (grows_refl h) W).
    apply bind_run_eq. now rewrite (fvalue_BoolOp _ _ _ _ _ _ _ _ _ Ed Cd).
Qed.

End DeMorgan.


(** [not (1 and NA and 0)] is [(not 1) or (not NA) or (not 0)], and
    [not (1 or NA or 0)] is [(not 1) and (not NA) and (not 0)]. *)
Lemma BoolOp_De_Morgan_witness :
  fvalue 4 4 0 1 false Cases.logic = fvalue 4 8 0 1 false Cases.logic
  /\ fvalue 4 12 0 1 false Cases.logic = fvalue 4 13 0 1 false Cases.logic.
Proof.
  destruct (BoolOp_De_Morgan (fun x => x) 1 [0; 2; 1] [5; 6; 7] 0 1 false Cases.logic)
    as [A B].
  - unfold well_formed. apply (bool_decide_unpack _). vm_compute. reflexivity.
  - reflexivity.
  - reflexivity.
  - repeat constructor.
    + exists (Cases.obj (UnaryOp ast.Not 0) []). split; [vm_compute|]; reflexivity.
    + exists (Cases.obj (UnaryOp ast.Not 2) []). split; [vm_compute|]; reflexivity.
    + exists (Cases.obj (UnaryOp ast.Not 1) []). split; [vm_compute|]; reflexivity.
  - split.
    + apply (A 3 4 8).
      * exists (Cases.obj (BoolOp ast.And [0; 2; 1]) []). split; [vm_compute|]; reflexivity.
      * exists (Cases.obj (UnaryOp ast.Not 3) []). split; [vm_compute|]; reflexivity.
      * exists (Cases.obj (BoolOp ast.Or [5; 6; 7]) []). split; [vm_compute|]; reflexivity.
    + apply (B 11 12 13).
      * exists (Cases.obj (BoolOp ast.Or [0; 2; 1]) []). split; [vm_compute|]; reflexivity.
      * exists (Cases.obj (UnaryOp ast.Not 11) []). split; [vm_compute|]; reflexivity.
      * exists (Cases.obj (BoolOp ast.And [5; 6; 7]) []). split; [vm_compute|]; reflexivity.
Defined.

(** ** What the logical operators return *)

Section TruthValues.
Context `{Runtime}.
Variables (fvalue : fvalue_t) (index row_count : Z) (filt : bool).

Lemma BoolOp_and_truth values : forall c v h h',
  truth_value c ->
  BoolOp_and fvalue values c index row_count filt h = (Ok v, h') -> truth_value v.
Proof.
  induction values as [|x values IH]; intros c v h h' Tc; cbn [BoolOp_and].
  - now intros [= <- <-].
  - intros R. apply run_bind_inv in R as (w & h1 & _ & R).
    destruct (is_missing w) eqn:Mw.
    + apply (IH w v h1 h'); [|exact R]. right. now right.
    + destruct (py_bool (item0 w)); [now apply (IH c v h1 h')|].
      injection R as <- <-. now left.
Qed.

Lemma BoolOp_or_truth values : forall c v h h',
  truth_value c ->
  BoolOp_or fvalue values c index row_count filt h = (Ok v, h') -> truth_value v.
Proof.
  induction values as [|x values IH]; intros c v h h' Tc; cbn [BoolOp_or].
  - now intros [= <- <-].
  - intros R. apply run_bind_inv in R as (w & h1 & _ & R).
    destruct (is_missing w) eqn:Mw.
    + apply (IH w v h1 h'); [|exact R]. right. now right.
    + destruct (py_bool (item0 w)); [|now apply (IH c v h1 h')].
      injection R as <- <-. right. now left.
Qed.

Lemma Compare_loop_truth ops : forall comparators v1 v h h',
  Compare_loop fvalue v1 ops comparators index row_count filt h = (Ok v, h') ->
  v = VInt 0 \/ v = VInt 1 \/ v = get_missing (Some TInt).
Proof.
  induction ops as [|op ops IH]; intros comparators v1 v h h'; cbn [Compare_loop].
  - intros [= <- <-]. auto.
  - destruct comparators as [|c comparators]; [discriminate|].
    intros R. apply run_bind_inv in R as (v2 & h1 & _ & R).
    destruct (is_missing v2); [injection R as <- <-; auto|].
    apply run_bind_inv in R as (b & h2 & _ & R).
    destruct b; [now apply (IH comparators v2 v h2 h')|]. injection R as <- <-. auto.
Qed.

(** X11.  The logical operators return truth values and never a value of
    an operand that is not missing (unlike Python's [and] and [or]): whenever
    it returns, an And or an Or yields 0, 1 or a missing value of one of its
    operands, a negation yields 0, 1 or the missing value of its operand,
    and a comparator chain yields 0, 1 or the integer missing sentinel. *)
Theorem logical_operators_return_truth_values :
  (forall op values v h h',
      BoolOp_fvalue fvalue op values index row_count filt h = (Ok v, h') ->
      v = VInt 0 \/ v = VInt 1 \/ is_missing v = true)
  /\ (forall operand v h h',
      UnaryOp_fvalue fvalue ast.Not operand index row_count filt h = (Ok v, h') ->
      v = VInt 0 \/ v = VInt 1 \/ is_missing v = true)
  /\ (forall left_ ops comparators v h h',
      Compare_fvalue fvalue left_ ops comparators index row_count filt h = (Ok v, h') ->
      v = VInt 0 \/ v = VInt 1 \/ v = get_missing (Some TInt)).
Proof.
  split; [|split].
  - intros op values v h h' R. unfold BoolOp_fvalue in R.
    destruct op; try discriminate R.
    + eapply BoolOp_and_truth; [|exact R]. right. now left.
    + eapply BoolOp_or_truth; [|exact R]. now left.
  - intros operand v h h' R. rewrite UnaryOp_Not_run in R.
    apply run_bind_inv in R as (w & h1 & _ & R). injection R as <- <-.
    apply negation_truth.
  - intros left_ ops comparators v h h' R. unfold Compare_fvalue in R.
    apply run_bind_inv in R as (v1 & h1 & _ & R).
    destruct (is_missing v1); [injection R as <- <-; auto|].
    eapply Compare_loop_truth; eauto.
Qed.

End TruthValues.


(** [1 and NA and 0] is 0 and [1 < 0 < NA] is 0. *)
Lemma logical_operators_return_truth_values_witness :
  (exists v, fvalue 2 3 0 1 false Cases.logic = (Ok v, Cases.logic)
             /\ (v = VInt 0 \/ v = VInt 1 \/ is_missing v = true))
  /\ (exists v, fvalue 2 10 0 1 false Sample.formulas = (Ok v, Sample.formulas)
                /\ (v = VInt 0 \/ v = VInt 1 \/ v = get_missing (Some TInt))).
Proof.
  destruct (logical_operators_return_truth_values (fvalue 1) 0 1 false) as (A & _ & C).
  split.
  - exists (VInt 0).
    assert (E : BoolOp_fvalue (fvalue 1) ast.And [0; 2; 1] 0 1 false Cases.logic
                = (Ok (VInt 0), Cases.logic)) by (vm_compute; reflexivity).
    split; [vm_compute; reflexivity | exact (A _ _ _ _ _ E)].
  - exists (VInt 0).
    assert (E : Compare_fvalue (fvalue 1) 0 [ast.Lt; ast.Lt] [1; 2] 0 1 false Sample.formulas
                = (Ok (VInt 0), Sample.formulas)) by (vm_compute; reflexivity).
    split; [vm_compute; reflexivity | exact (C _ _ _ _ _ _ E)].
Defined.

(** ** BinOp: division by zero *)

Section ZeroDivision.
Context `{Runtime}.
Variables (data_type : data_type_t) (fvalue : fvalue_t) (index row_count : Z) (filt : bool).

(** X12.  Only [/] is guarded against a zero divisor.  When the operands,
    converted into the unified domain, are not missing and Python's operator
    raises [ZeroDivisionError] on them, a division yields [get_missing()],
    whereas a modulo and a power (written with either symbol) let the
    exception out of the evaluation.  For integers the divisor 0 does this to
    [/] and [%], and so does the base 0 with a negative exponent to a
    power. *)
Theorem BinOp_fvalue_zero_division left_ right_ dt lv rv h h1 h2 h3 :
  forall op,
  BinOp_data_type data_type left_ op right_ h = (Ok dt, h1) ->
  operand_value fvalue left_ index row_count filt h1 = (Ok lv, h2) ->
  operand_value fvalue right_ index row_count filt h2 = (Ok rv, h3) ->
  let lv' := convert lv (Some (ul_type_of dt)) in
  let rv' := convert rv (Some (ul_type_of dt)) in
  is_missing lv' = false -> is_missing rv' = false ->
  let result := BinOp_fvalue data_type fvalue left_ op right_ index row_count filt h in
  (op = ast.Div -> py_arith ast.Div lv' rv' = Raise ZeroDivisionError ->
     result = (Ok (get_missing None), h3))
  /\ (op = ast.Mod -> py_arith ast.Mod lv' rv' = Raise ZeroDivisionError ->
      result = (Raise ZeroDivisionError, h3))
  /\ (op = ast.Pow \/ op = ast.BitXor ->
      py_arith ast.Pow lv' rv' = Raise ZeroDivisionError ->
      result = (Raise ZeroDivisionError, h3))
  /\ (forall x y,
        py_arith ast.Div (VInt x) (VInt 0) = Raise ZeroDivisionError
        /\ py_arith ast.Mod (VInt x) (VInt 0) = Raise ZeroDivisionError
        /\ ((y < 0)%Z -> py_arith ast.Pow (VInt 0) (VInt y) = Raise ZeroDivisionError)).
Proof.
  intros op Ed El Er lv' rv' Ml Mr result. unfold result.
  rewrite (BinOp_fvalue_run data_type fvalue index row_count filt _ _ _ _ _ _ _ _ _ _ Ed El Er). fold lv' rv'.
  rewrite Ml, Mr. cbn [orb].
  split; [|split; [|split]].
  - intros -> Z. destruct (ul_type_of dt); cbn [is_concatenation BinOp_apply]; now rewrite Z.
  - intros -> Z. destruct (ul_type_of dt); cbn [is_concatenation BinOp_apply]; now rewrite Z.
  - intros [-> | ->] Z; destruct (ul_type_of dt); cbn [is_concatenation BinOp_apply];
      now rewrite Z.
  - intros x y. repeat split; try reflexivity.
    intros Ly. cbn [py_arith]. now rewrite (proj2 (Z.leb_gt 0 y) Ly).
Qed.

End ZeroDivision.


(** [1 / 0] is a missing value; [1 % 0] raises. *)
Lemma BinOp_fvalue_zero_division_witness :
  fvalue 2 14 0 1 false Cases.logic = (Ok (get_missing None), Cases.logic)
  /\ fvalue 2 15 0 1 false Cases.logic = (Raise ZeroDivisionError, Cases.logic).
Proof.
  assert (Ed : forall op, BinOp_data_type (data_type 1) 0 op 1 Cases.logic
                          = (Ok (match op with ast.Pow => DataType.DECIMAL
                                         | _ => DataType.INTEGER end), Cases.logic))
    by (intros op; destruct op; vm_compute; reflexivity).
  assert (El : operand_value (fvalue 1) 0 0 1 false Cases.logic
               = (Ok (VInt 1), Cases.logic)) by (vm_compute; reflexivity).
  assert (Er : operand_value (fvalue 1) 1 0 1 false Cases.logic
               = (Ok (VInt 0), Cases.logic)) by (vm_compute; reflexivity).
  assert (Ml : is_missing (convert (VInt 1) (Some (ul_type_of DataType.INTEGER))) = false)
    by (vm_compute; reflexivity).
  assert (Mr : is_missing (convert (VInt 0) (Some (ul_type_of DataType.INTEGER))) = false)
    by (vm_compute; reflexivity).
  assert (Zd : py_arith ast.Div (convert (VInt 1) (Some (ul_type_of DataType.INTEGER)))
                 (convert (VInt 0) (Some (ul_type_of DataType.INTEGER)))
               = Raise ZeroDivisionError) by (vm_compute; reflexivity).
  assert (Zm : py_arith ast.Mod (convert (VInt 1) (Some (ul_type_of DataType.INTEGER)))
                 (convert (VInt 0) (Some (ul_type_of DataType.INTEGER)))
               = Raise ZeroDivisionError) by (vm_compute; reflexivity).
  split.
  - destruct (BinOp_fvalue_zero_division (data_type 1) (fvalue 1) 0 1 false 0 1
                DataType.INTEGER (VInt 1) (VInt 0) Cases.logic Cases.logic Cases.logic
                Cases.logic ast.Div (Ed ast.Div) El Er Ml Mr) as (A & _).
    exact (A eq_refl Zd).
  - destruct (BinOp_fvalue_zero_division (data_type 1) (fvalue 1) 0 1 false 0 1
                DataType.INTEGER (VInt 1) (VInt 0) Cases.logic Cases.logic Cases.logic
                Cases.logic ast.Mod (Ed ast.Mod) El Er Ml Mr) as (_ & B & _).
    exact (B eq_refl Zm).
Defined.

(** ** Compare: operators and lengths out of line *)

Section CompareEdges.
Context `{Runtime}.
Variables (fvalue : fvalue_t) (index row_count : Z) (filt : bool).

Lemma Compare__test_unsupported v1 op v2 :
  Compare_supports op = false ->
  Compare__test v1 op v2 = Raise (RuntimeError "Shouldn't get here").
Proof.
  intros S. unfold Compare__test.
  destruct v1, v2; destruct op; try discriminate S; reflexivity.
Qed.

(** X13.  A comparator chain out of line fails late.  When the operands
    before the position are not missing and their tests hold: an operator
    other than the six comparisons raises [RuntimeError], but only after
    both of its operands are evaluated and found not missing (a missing
    operand gives the missing sentinel instead); an operator without a
    comparator raises [IndexError]; comparators without an operator are not
    evaluated and the result is 1.  A chain without operators is 1 wherever
    its left operand is not missing. *)
Theorem Compare_fvalue_out_of_line left_ ops_pre pre v1 vs h h1 h2 :
  fvalue left_ index row_count filt h = (Ok v1, h1) -> is_missing v1 = false ->
  length ops_pre = length pre ->
  mapM (fun x => fvalue x index row_count filt) pre h1 = (Ok vs, h2) ->
  Forall (fun v => is_missing v = false) vs ->
  chain_holds v1 ops_pre vs ->
  (forall op ops_post x post v h3,
      Compare_supports op = false ->
      fvalue x index row_count filt h2 = (Ok v, h3) ->
      Compare_fvalue fvalue left_ (ops_pre ++ op :: ops_post) (pre ++ x :: post)
        index row_count filt h
      = (if is_missing v then Ok (get_missing (Some TInt))
         else Raise (RuntimeError "Shouldn't get here"), h3))
  /\ (forall op ops_post,
      Compare_fvalue fvalue left_ (ops_pre ++ op :: ops_post) pre index row_count filt h
      = (Raise IndexError, h2))
  /\ (forall extra,
      Compare_fvalue fvalue left_ ops_pre (pre ++ extra) index row_count filt h
      = (Ok (VInt 1), h2)).
Proof.
  intros E M L Es F C. split; [|split].
  - intros op ops_post x post v h3 S Ex. unfold Compare_fvalue.
    rewrite (run_bind _ _ _ _ _ E), M.
    rewrite (Compare_loop_prefix fvalue index row_count filt pre ops_pre op ops_post x post
               v1 vs h1 h2) by assumption.
    cbn [Compare_loop]. rewrite (run_bind _ _ _ _ _ Ex).
    destruct (is_missing v); [reflexivity|].
    unfold lift at 1. unfold mbind, M_bind.
    now rewrite (Compare__test_unsupported _ _ _ S).
  - intros op ops_post. unfold Compare_fvalue. rewrite (run_bind _ _ _ _ _ E), M.
    clear E M. revert ops_pre v1 vs h1 L Es F C.
    induction pre as [|p pre' IH]; intros [|o ops'] v1 vs h1 L Es F C; try discriminate L.
    + apply run_mapM_nil_inv in Es as [-> ->]. reflexivity.
    + apply run_mapM_cons_inv in Es as (y & ys & h' & E1 & E2 & ->).
      inversion F as [|? ? My F']; subst. destruct C as [T C]. injection L as L.
      cbn [app Compare_loop]. rewrite (run_bind _ _ _ _ _ E1), My.
      unfold lift at 1. unfold mbind at 1, M_bind at 1. rewrite T.
      now apply (IH ops' y ys h').
  - intros extra. unfold Compare_fvalue. rewrite (run_bind _ _ _ _ _ E), M.
    clear E M. revert ops_pre v1 vs h1 L Es F C.
    induction pre as [|p pre' IH]; intros [|o ops'] v1 vs h1 L Es F C; try discriminate L.
    + apply run_mapM_nil_inv in Es as [-> ->]. reflexivity.
    + apply run_mapM_cons_inv in Es as (y & ys & h' & E1 & E2 & ->).
      inversion F as [|? ? My F']; subst. destruct C as [T C]. injection L as L.
      cbn [app Compare_loop]. rewrite (run_bind _ _ _ _ _ E1), My.
      unfold lift at 1. unfold mbind at 1, M_bind at 1. rewrite T.
      now apply (IH ops' y ys h').
Qed.

End CompareEdges.


(** [1 is 0] raises; [1 < 0 < NA] without its second comparator, if it got
    that far, would too. *)
Lemma Compare_fvalue_out_of_line_witness :
  fvalue 2 16 0 1 false Cases.logic
  = (Raise (RuntimeError "Shouldn't get here"), Cases.logic)
  /\ Compare_fvalue (fvalue 1) 0 [ast.Lt] [] 0 1 false Cases.logic
     = (Raise IndexError, Cases.logic)
  /\ Compare_fvalue (fvalue 1) 0 [] [1; 2] 0 1 false Cases.logic
     = (Ok (VInt 1), Cases.logic).
Proof.
  destruct (Compare_fvalue_out_of_line (fvalue 1) 0 1 false 0 [] [] (VInt 1) []
              Cases.logic Cases.logic Cases.logic) as (A & B & C).
  - vm_compute. reflexivity.
  - reflexivity.
  - reflexivity.
  - reflexivity.
  - constructor.
  - exact I.
  - split; [|split].
    + assert (E : fvalue 1 1 0 1 false Cases.logic = (Ok (VInt 0), Cases.logic))
        by (vm_compute; reflexivity).
      exact (A ast.Is [] 1 [] (VInt 0) Cases.logic eq_refl E).
    + exact (B ast.Lt []).
    + exact (C [1; 2]).
Defined.

(** ** Call: construction *)

Section Construction.
Context `{Runtime}.

Lemma count_sub_arg_len_trailing post : forall pre n,
  Forall (fun p => is_function (default_ p) = true) post ->
  match pre with [] => True | p :: _ => is_function (default_ p) = false end ->
  count_sub_arg_len (post ++ pre) n = n - length post.
Proof.
  induction post as [|p post IH]; intros pre n F N; cbn [app count_sub_arg_len length].
  - destruct pre as [|p pre]; cbn [count_sub_arg_len]; [lia|]. rewrite N. lia.
  - inversion F as [|? ? Fp F']; subst. rewrite Fp, (IH pre (n - 1) F' N). lia.
Qed.

(** The parameters taken off are the trailing ones that default to a
    function. *)
Lemma sub_arg_len_split f pre post :
  param_names f = pre ++ post ->
  Forall (fun p => is_function (default_ p) = true) post ->
  match reverse pre with [] => True | p :: _ => is_function (default_ p) = false end ->
  sub_arg_len f = length pre.
Proof.
  intros P F N. unfold sub_arg_len. rewrite P, reverse_app, length_app.
  rewrite (count_sub_arg_len_trailing (reverse post) (reverse pre)).
  - rewrite length_reverse. lia.
  - now apply Forall_reverse.
  - exact N.
Qed.

Lemma sub_arg_len_le f : sub_arg_len f <= length (param_names f).
Proof.
  unfold sub_arg_len. generalize (length (param_names f)).
  induction (reverse (param_names f)) as [|p ps IH]; intros n; cbn [count_sub_arg_len]; [lia|].
  destruct (is_function (default_ p)); [|lia]. specialize (IH (n - 1)). lia.
Qed.

Lemma Call_init_params f h :
  (is_row_wise (meta f) = true -> parameters f <> []) ->
  (if is_row_wise (meta f)
   then match parameters f with
        | [] => raise IndexError
        | _ :: ps => mret ps
        end
   else mret (parameters f)) h = (Ok (param_names f), h).
Proof.
  intros Np. unfold param_names. destruct (is_row_wise (meta f)); [|reflexivity].
  destruct (parameters f); [now destruct Np|reflexivity].
Qed.

(** The construction of a call for which no sub-function is supplied. *)
Lemma Call_init_plain fuel name f args_ a h :
  lists h !! args_ = Some a -> args_ <> next_lid h ->
  functions name = Some f ->
  (is_row_wise (meta f) = true -> parameters f <> []) ->
  sub_arg_len f = length (param_names f) \/ sub_arg_len f < length a ->
  Call_init (S fuel) name args_ h
  = (Ok (next_oid h),
     {| objects := <[next_oid h := new_call f args_]> (objects h);
        lists := <[next_lid h := take (sub_arg_len f) a]> (lists h);
        next_oid := S (next_oid h); next_lid := S (next_lid h);
        trace := trace h |}).
Proof.
  intros La Nl Ef Np Plain. cbn [Call_init]. unfold Call_init_body.
  set (started := {| objects := objects h; lists := lists h;
                     next_oid := S (next_oid h); next_lid := next_lid h;
                     trace := trace h |}).
  rewrite run_bind with (a := next_oid h) (h1 := started) by reflexivity.
  rewrite Ef.
  rewrite (run_bind _ _ _ _ _ (Call_init_params f started Np)).
  fold (sub_arg_len f).
  rewrite run_bind with (a := a) (h1 := started)
    by (apply run_read_list; exact La).
  set (h1 := {| objects := objects h;
                lists := <[next_lid h := take (sub_arg_len f) a]> (lists h);
                next_oid := S (next_oid h); next_lid := S (next_lid h);
                trace := trace h |}).
  rewrite run_bind with (a := next_lid h) (h1 := h1) by reflexivity.
  assert (S1 : Call_init_sub_functions (Call_init fuel)
                 (drop (sub_arg_len f) (param_names f)) (sub_arg_len f) args_
                 (next_lid h) h1 = (Ok tt, h1)).
  { destruct (drop (sub_arg_len f) (param_names f)) as [|p ps] eqn:D; [reflexivity|].
    cbn [Call_init_sub_functions].
    rewrite run_bind with (a := a) (h1 := h1)
      by (apply run_read_list; cbn; now rewrite lookup_insert_ne by congruence).
    destruct Plain as [Eq|Lt].
    - rewrite Eq, drop_all in D. discriminate D.
    - rewrite bool_decide_eq_false_2 by lia. reflexivity. }
  rewrite (run_bind _ _ _ _ _ S1). reflexivity.
Qed.

(** X14.  [Call(func, args, keywords)] where no sub-function has to be
    supplied, that is when no trailing parameter of the function defaults to
    a function or when the formula gives more arguments than the parameters
    before these: the new node has the function of that name, the argument
    list it was given, untouched, one declared type per parameter (the row
    index of a row-wise function left out), no memoized value, no types and
    no parent; what else is new is the list of the leading arguments, and no
    existing node or list has changed.  A name that the registry does not
    hold raises [NameError], and a row-wise function without any parameter
    raises [IndexError]; either way no node is stored. *)
Theorem Call_init_without_sub_functions fuel name args_ a h :
  lists h !! args_ = Some a -> args_ <> next_lid h ->
  let started := {| objects := objects h; lists := lists h;
                      next_oid := S (next_oid h); next_lid := next_lid h;
                      trace := trace h |} in
  (functions name = None ->
     Call_init (S fuel) name args_ h
     = (Raise (NameError ("Function " ++ name ++ "() does not exist")), started))
  /\ (forall f, functions name = Some f ->
        is_row_wise (meta f) = true -> parameters f = [] ->
        Call_init (S fuel) name args_ h = (Raise IndexError, started))
  /\ (forall f, functions name = Some f ->
        (is_row_wise (meta f) = true -> parameters f <> []) ->
        sub_arg_len f = length (param_names f) \/ sub_arg_len f < length a ->
        Call_init (S fuel) name args_ h
        = (Ok (next_oid h),
           {| objects := <[next_oid h := new_call f args_]> (objects h);
              lists := <[next_lid h := take (sub_arg_len f) a]> (lists h);
              next_oid := S (next_oid h); next_lid := S (next_lid h);
              trace := trace h |})).
Proof.
  intros La Nl started. split; [|split].
  - intros Ef. cbn [Call_init]. unfold Call_init_body.
    rewrite run_bind with (a := next_oid h) (h1 := started) by reflexivity.
    now rewrite Ef.
  - intros f Ef Rw Np. cbn [Call_init]. unfold Call_init_body.
    rewrite run_bind with (a := next_oid h) (h1 := started) by reflexivity.
    now rewrite Ef, Rw, Np.
  - intros f Ef Np Plain. now apply Call_init_plain.
Qed.


End Construction.


(** [PICK("a", "b")] is built as node 2 on the list it is given; there is
    no function MEAN. *)
Lemma Call_init_without_sub_functions_witness :
  (exists h', Call_init 1 "PICK" 0 Cases.two_texts = (Ok 2, h')
              /\ objects h' !! 2 = Some (new_call Sample.PICK 0)
              /\ lists h' !! 0 = Some [0; 1])
  /\ (Call_init 1 "MEAN" 0 Cases.two_texts).1
     = Raise (NameError "Function MEAN() does not exist").
Proof.
  destruct (Call_init_without_sub_functions 0 "PICK" 0 [0; 1] Cases.two_texts)
    as (_ & _ & C).
  - vm_compute. reflexivity.
  - vm_compute. discriminate.
  - destruct (Call_init_without_sub_functions 0 "MEAN" 0 [0; 1] Cases.two_texts)
      as (A & _).
    + vm_compute. reflexivity.
    + vm_compute. discriminate.
    + split.
      * eexists. split; [apply (C Sample.PICK eq_refl)|].
        -- intros _. discriminate.
        -- left. vm_compute. reflexivity.
        -- split; vm_compute; reflexivity.
      * now rewrite (A eq_refl).
Defined.

Section ConstructionOfSubFunctions.
Context `{Runtime}.

Lemma list_append_run l x a h :
  lists h !! l = Some a -> list_append l x h = (Ok tt, set_lists (<[l := a ++ [x]]>) h).
Proof.
  intros E. unfold list_append. now rewrite (run_bind _ _ _ _ _ (run_read_list _ _ _ E)).
Qed.

Lemma for_each_add_parent new_func : forall ys h,
  NoDup ys -> Forall (fun y => is_Some (objects h !! y)) ys ->
  exists h',
    for_each (fun y => _add_node_parent y new_func) ys h = (Ok tt, h')
    /\ lists h' = lists h /\ next_oid h' = next_oid h /\ next_lid h' = next_lid h
    /\ trace h' = trace h
    /\ (forall y o, y ∈ ys -> objects h !! y = Some o ->
          objects h' !! y = Some {| class_ := class_ o;
                                    _node_parents := _node_parents o ++ [new_func] |})
    /\ (forall y, y ∉ ys -> objects h' !! y = objects h !! y).
Proof.
  induction ys as [|y ys IH]; intros h Nd F.
  - exists h. repeat split; auto. intros y o I. inversion I.
  - inversion Nd as [|? ? Ny Nd']; subst. inversion F as [|? ? [o E] F']; subst.
    set (h1 := set_objects
                 (<[y := {| class_ := class_ o;
                            _node_parents := _node_parents o ++ [new_func] |}]>) h).
    assert (E1 : _add_node_parent y new_func h = (Ok tt, h1))
      by (unfold _add_node_parent; now rewrite (set_parents_run _ _ _ _ E)).
    destruct (IH h1 Nd') as (h' & R & L & No & Nl & T & In & Out).
    { eapply Forall_impl; [exact F'|]. cbn. intros z [oz Ez].
      destruct (decide (z = y)) as [->|Nz].
      - rewrite lookup_insert_eq. eauto.
      - rewrite lookup_insert_ne by congruence. eauto. }
    exists h'. split; [cbn [for_each]; now rewrite (run_bind _ _ _ _ _ E1)|].
    split; [now rewrite L|]. split; [now rewrite No|]. split; [now rewrite Nl|].
    split; [now rewrite T|]. split.
    + intros z oz Iz Ez. apply elem_of_cons in Iz as [->|Iz].
      * rewrite (Out y Ny). cbn. rewrite lookup_insert_eq. congruence.
      * apply In; [exact Iz|]. cbn. rewrite lookup_insert_ne; [exact Ez|].
        intros <-. contradiction.
    + intros z Nz. apply not_elem_of_cons in Nz as [Nz1 Nz2].
      rewrite (Out z Nz2). cbn. now rewrite lookup_insert_ne by congruence.
Qed.

(** X15.  [Call(func, args, keywords)] where the last parameter of the
    function, and only it, defaults to a function [g], the formula gives no
    argument for it, and [g] itself needs no sub-function: the constructor
    builds two nodes.  The inner one is the call of [g] on a new list that
    holds the arguments given; it is appended to the argument list of the
    outer call, which is the list the caller handed in, and it is registered
    as a parent of each of the arguments given.  The outer call is registered
    nowhere, not even with the inner call it has made an argument of. *)
Theorem Call_init_sub_function fuel name f pre p gname g args_ a h :
  allocated h ->
  lists h !! args_ = Some a -> NoDup a ->
  Forall (fun y => is_Some (objects h !! y)) a ->
  functions name = Some f ->
  (is_row_wise (meta f) = true -> parameters f <> []) ->
  param_names f = pre ++ [p] -> default_ p = DefaultFunction gname ->
  match reverse pre with [] => True | q :: _ => is_function (default_ q) = false end ->
  length a <= length pre ->
  functions gname = Some g ->
  (is_row_wise (meta g) = true -> parameters g <> []) ->
  sub_arg_len g = length (param_names g) \/ sub_arg_len g < length a ->
  let outer := next_oid h in
  let inner := S (next_oid h) in
  exists h',
    Call_init (S (S fuel)) name args_ h = (Ok outer, h')
    /\ objects h' !! outer = Some (new_call f args_)
    /\ objects h' !! inner = Some (new_call g (next_lid h))
    /\ lists h' !! args_ = Some (a ++ [inner])
    /\ lists h' !! next_lid h = Some a
    /\ (forall y o, y ∈ a -> objects h !! y = Some o ->
          objects h' !! y = Some {| class_ := class_ o;
                                    _node_parents := _node_parents o ++ [inner] |})
    /\ (forall y, y ∉ a -> y <> outer -> y <> inner -> objects h' !! y = objects h !! y)
    /\ trace h' = trace h.
Proof.
  intros [Ao' Al'] La Nd Fa Ef Np Pf Dp Lp Le Eg Npg Plain outer inner. subst outer inner.
  assert (Ao : forall y, is_Some (objects h !! y) -> y < next_oid h)
    by (intros y [o E]; exact (Ao' y o E)).
  assert (Al : forall l, is_Some (lists h !! l) -> l < next_lid h)
    by (intros l [b E]; exact (Al' l b E)).
  assert (Sf : sub_arg_len f = length pre).
  { apply (sub_arg_len_split f pre [p]); [exact Pf| |exact Lp].
    constructor; [|constructor]. now rewrite Dp. }
  assert (Na : args_ < next_lid h) by (apply Al; eauto).
  change (Call_init (S (S fuel)) name args_)
    with (Call_init_body (Call_init (S fuel)) name args_).
  unfold Call_init_body.
  set (started := {| objects := objects h; lists := lists h;
                     next_oid := S (next_oid h); next_lid := next_lid h;
                     trace := trace h |}).
  rewrite run_bind with (a := next_oid h) (h1 := started) by reflexivity.
  rewrite Ef. rewrite (run_bind _ _ _ _ _ (Call_init_params f started Np)).
  fold (sub_arg_len f).
  rewrite run_bind with (a := a) (h1 := started) by (apply run_read_list; exact La).
  rewrite Sf, (take_ge (A:=oid) a (length pre) Le).
  set (h1 := {| objects := objects h; lists := <[next_lid h := a]> (lists h);
                next_oid := S (next_oid h); next_lid := S (next_lid h);
                trace := trace h |}).
  rewrite run_bind with (a := next_lid h) (h1 := h1) by reflexivity.
  replace (drop (length pre) (param_names f)) with [p]
    by (now rewrite Pf, drop_app_length).
  set (h2 := {| objects := <[S (next_oid h) := new_call g (next_lid h)]> (objects h);
                lists := <[S (next_lid h) := take (sub_arg_len g) a]>
                           (<[next_lid h := a]> (lists h));
                next_oid := S (S (next_oid h)); next_lid := S (S (next_lid h));
                trace := trace h |}).
  destruct (for_each_add_parent (S (next_oid h)) a h2 Nd)
    as (h3 & R3 & L3 & No3 & Nl3 & T3 & In3 & Out3).
  { eapply Forall_impl; [exact Fa|]. cbn. intros y Sy.
    rewrite lookup_insert_ne; [exact Sy|]. specialize (Ao y Sy). lia. }
  assert (Sub : Call_init_sub_functions (Call_init (S fuel)) [p] (length pre) args_
                  (next_lid h) h1
                = (Ok tt, set_lists (<[args_ := a ++ [S (next_oid h)]]>) h3)).
  { cbn [Call_init_sub_functions].
    assert (La1 : lists h1 !! args_ = Some a)
      by (cbn; rewrite lookup_insert_ne by lia; exact La).
    rewrite (run_bind _ _ _ _ _ (run_read_list _ _ _ La1)).
    rewrite bool_decide_eq_true_2 by exact Le. rewrite Dp.
    assert (Ls1 : lists h1 !! next_lid h = Some a) by (cbn; apply lookup_insert_eq).
    assert (Nl1 : next_lid h <> next_lid h1) by (cbn; lia).
    rewrite (run_bind _ _ _ _ _
               (Call_init_plain fuel gname g (next_lid h) a h1 Ls1 Nl1 Eg Npg Plain)).
    cbn [next_oid next_lid objects lists trace h1]. fold h2.
    assert (Ls2 : lists h2 !! next_lid h = Some a)
      by (cbn; rewrite lookup_insert_ne by lia; apply lookup_insert_eq).
    rewrite (run_bind _ _ _ _ _ (run_read_list _ _ _ Ls2)).
    rewrite (run_bind _ _ _ _ _ R3).
    assert (La3 : lists h3 !! args_ = Some a).
    { rewrite L3. cbn. rewrite !lookup_insert_ne by lia. exact La. }
    rewrite (run_bind _ _ _ _ _ (list_append_run _ _ _ _ La3)).
    reflexivity. }
  rewrite (run_bind _ _ _ _ _ Sub).
  assert (Ls2 : lists h2 !! next_lid h = Some a)
    by (cbn; rewrite lookup_insert_ne by lia; apply lookup_insert_eq).
  eexists. split; [reflexivity|]. cbn [objects lists trace set_objects set_lists].
  assert (Fresh : forall y, y ∈ a -> y <> next_oid h /\ y <> S (next_oid h)).
  { intros y Iy. rewrite Forall_forall in Fa. specialize (Ao y (Fa y Iy)). lia. }
  split; [apply lookup_insert_eq|]. split.
  { rewrite lookup_insert_ne by lia. rewrite Out3.
    - cbn. apply lookup_insert_eq.
    - intros I. destruct (Fresh _ I) as [_ N]. now apply N. }
  split; [apply lookup_insert_eq|]. split.
  { rewrite lookup_insert_ne by lia. rewrite L3. exact Ls2. }
  split.
  { intros y o Iy Ey. destruct (Fresh y Iy) as [N1 N2].
    rewrite lookup_insert_ne by congruence. apply In3; [exact Iy|].
    cbn. rewrite lookup_insert_ne by congruence. exact Ey. }
  split; [|exact T3].
  intros y Ny N1 N2. rewrite lookup_insert_ne by congruence.
  rewrite (Out3 y Ny). cbn. now rewrite lookup_insert_ne by congruence.
Qed.


End ConstructionOfSubFunctions.


(** [CENTER(1)], with [CENTER(index, x, total=VSUM)]: the call is node 1, the
    call [VSUM(1)] made for [total] is node 2, on a list of its own; it is
    appended to the arguments of the call and is a parent of the literal. *)
Lemma Call_init_sub_function_witness :
  exists h',
    Call_init 2 "CENTER" 0 Cases.one_number = (Ok 1, h')
    /\ objects h' !! 1 = Some (new_call Sample.CENTER 0)
    /\ objects h' !! 2 = Some (new_call Sample.VSUM 1)
    /\ lists h' !! 0 = Some [0; 2]
    /\ lists h' !! 1 = Some [0]
    /\ objects h' !! 0 = Some (Cases.obj (Num (VInt 1)) [2]).
Proof.
  destruct (Call_init_sub_function 0 "CENTER" Sample.CENTER
              [ {| annotation := Some TInt; default_ := DefaultOther |} ]
              {| annotation := None; default_ := DefaultFunction "VSUM" |}
              "VSUM" Sample.VSUM 0 [0] Cases.one_number)
    as (h' & E & O1 & O2 & L0 & L1 & In & _).
  - split; apply (bool_decide_unpack _); vm_compute; reflexivity.
  - vm_compute. reflexivity.
  - apply NoDup_singleton.
  - repeat constructor. exists (Cases.obj (Num (VInt 1)) []). vm_compute. reflexivity.
  - reflexivity.
  - intros _. discriminate.
  - reflexivity.
  - reflexivity.
  - reflexivity.
  - cbn. lia.
  - reflexivity.
  - intros [=].
  - left. vm_compute. reflexivity.
  - exists h'. split; [exact E|]. split; [exact O1|]. split; [exact O2|].
    split; [exact L0|]. split; [exact L1|].
    apply (In 0 (Cases.obj (Num (VInt 1)) [])); [left | vm_compute; reflexivity].
Defined.

(** ** Structure queries *)

Section StructureQueries.
Variables (source_is_atomic_node source_uses_column_formula : string -> bool).
Variable rk : oid -> nat.

Abbreviation atomic := (atomic_class source_is_atomic_node).
Abbreviation formula := (column_formula_class source_uses_column_formula).

Lemma descends_inv h x z :
  descends h x z ->
  z = x \/ exists o y, objects h !! x = Some o /\ y ∈ children (lists h) (class_ o)
                       /\ descends h y z.
Proof. destruct 1; eauto 6. Qed.

(** The loops, over operands that answer without a change of the store. *)
Lemma BoolOp_is_atomic_node_run (F : oid -> M bool) (P : oid -> Prop) h : forall ys,
  (forall y, y ∈ ys -> exists b, F y h = (Ok b, h) /\ (b = true <-> P y)) ->
  exists b, BoolOp_is_atomic_node F ys h = (Ok b, h)
            /\ (b = true <-> forall y, y ∈ ys -> P y).
Proof.
  induction ys as [|y ys IH]; intros Hy; cbn [BoolOp_is_atomic_node].
  - exists true. split; [reflexivity|]. split; [|reflexivity]. intros _ y I. inversion I.
  - destruct (Hy y) as (b & E & Pb); [left|]. rewrite (run_bind _ _ _ _ _ E).
    destruct b.
    + destruct IH as (b' & E' & Pb'); [intros z Iz; apply Hy; now right|].
      exists b'. split; [exact E'|]. rewrite Pb'. split.
      * intros A z Iz. apply elem_of_cons in Iz as [->|Iz]; [now apply Pb | now apply A].
      * intros A z Iz. apply A. now right.
    + exists false. split; [reflexivity|]. split; [discriminate|].
      intros A. apply Pb, A. left.
Qed.

Lemma BoolOp_uses_column_formula_run (F : oid -> M bool) (P : oid -> Prop) h : forall ys,
  (forall y, y ∈ ys -> exists b, F y h = (Ok b, h) /\ (b = true <-> P y)) ->
  exists b, BoolOp_uses_column_formula F ys h = (Ok b, h)
            /\ (b = true <-> exists y, y ∈ ys /\ P y).
Proof.
  induction ys as [|y ys IH]; intros Hy; cbn [BoolOp_uses_column_formula].
  - exists false. split; [reflexivity|]. split; [discriminate|].
    intros (y & I & _). inversion I.
  - destruct (Hy y) as (b & E & Pb); [left|]. rewrite (run_bind _ _ _ _ _ E).
    destruct b.
    + exists true. split; [reflexivity|]. split; [|reflexivity].
      intros _. exists y. split; [left | now apply Pb].
    + destruct IH as (b' & E' & Pb'); [intros z Iz; apply Hy; now right|].
      exists b'. split; [exact E'|]. rewrite Pb'. split.
      * intros (z & Iz & Pz). exists z. split; [now right | exact Pz].
      * intros (z & Iz & Pz). apply elem_of_cons in Iz as [->|Iz]; [|eauto].
        apply Pb in Pz. discriminate Pz.
Qed.

Lemma all_descendants_unfold h x o (P : node -> Prop) :
  objects h !! x = Some o ->
  (forall y n, descends h x y -> is_node h y n -> P n)
  <-> P (class_ o)
      /\ forall c, c ∈ children (lists h) (class_ o) ->
           forall y n, descends h c y -> is_node h y n -> P n.
Proof.
  intros E. split.
  - intros A. split.
    + apply (A x); [constructor | now exists o].
    + intros c Ic y n D. apply A. eapply descends_child; eauto.
  - intros [A0 A] y n D (oy & Ey & <-).
    apply descends_inv in D as [->|(o' & c & E' & Ic & D)].
    + rewrite E in Ey. now injection Ey as <-.
    + rewrite E in E'. injection E' as <-. apply (A c Ic y); [exact D | now exists oy].
Qed.

Lemma some_descendant_unfold h x o (P : node -> Prop) :
  objects h !! x = Some o ->
  (exists y n, descends h x y /\ is_node h y n /\ P n)
  <-> P (class_ o)
      \/ exists c, c ∈ children (lists h) (class_ o)
                   /\ exists y n, descends h c y /\ is_node h y n /\ P n.
Proof.
  intros E. split.
  - intros (y & n & D & (oy & Ey & <-) & Py).
    apply descends_inv in D as [->|(o' & c & E' & Ic & D)].
    + left. rewrite E in Ey. now injection Ey as <-.
    + rewrite E in E'. injection E' as <-. right. exists c. split; [exact Ic|].
      exists y, (class_ oy). split; [exact D|]. split; [now exists oy | exact Py].
  - intros [P0|(c & Ic & y & n & D & Iy & Py)].
    + exists x, (class_ o). split; [constructor|]. split; [now exists o | exact P0].
    + exists y, n. split; [eapply descends_child; eauto|]. now split.
Qed.

(** X16.  [is_atomic_node] in an expression graph whose operands and
    arguments are all in the store: once the fuel exceeds the rank of the
    node the query returns and leaves the store as it is, and it answers
    true exactly when no call is among the node and the nodes below it (and
    every column leaf among them is atomic). *)
Theorem is_atomic_node_no_call : forall fuel x h,
  well_formed rk h -> closed h -> is_Some (objects h !! x) -> rk x < fuel ->
  exists b,
    is_atomic_node source_is_atomic_node fuel x h = (Ok b, h)
    /\ (b = true <-> forall y n, descends h x y -> is_node h y n -> atomic n = true).
Proof.
  induction fuel as [|fuel IH]; intros x h W Cl [o E] L; [lia|].
  destruct (closed_lookup h x o Cl E) as [Fc _].
  pose proof (proj1 (well_formed_lookup rk h x o W E)) as Fr.
  rewrite Forall_forall in Fc, Fr.
  assert (Child : forall y, y ∈ children (lists h) (class_ o) ->
            exists b, is_atomic_node source_is_atomic_node fuel y h = (Ok b, h)
                      /\ (b = true
                          <-> forall z n, descends h y z -> is_node h z n -> atomic n = true)).
  { intros y Iy. apply IH; auto. specialize (Fr y Iy). lia. }
  cbn [is_atomic_node]. rewrite (run_bind _ _ _ _ _ (run_deref _ _ _ E)).
  setoid_rewrite (all_descendants_unfold h x o (fun n => atomic n = true) E).
  destruct (class_ o) as [n|s|op y|op vs|c|l op r|l ops cs|s] eqn:C;
    cbn [class_is_atomic_node atomic_class]; cbn [children] in Child |- *.
  - exists true. split; [reflexivity|]. split; [|reflexivity]. intros _. split; [reflexivity|].
    intros c I. inversion I.
  - exists true. split; [reflexivity|]. split; [|reflexivity]. intros _. split; [reflexivity|].
    intros c I. inversion I.
  - destruct (Child y) as (b & Eb & Pb); [left|]. exists b. split; [exact Eb|].
    rewrite Pb. split.
    + intros A. split; [reflexivity|]. intros c Ic. apply list_elem_of_singleton in Ic as ->.
      exact A.
    + intros [_ A]. apply (A y). left.
  - destruct (BoolOp_is_atomic_node_run (is_atomic_node source_is_atomic_node fuel)
                (fun y => forall z n, descends h y z -> is_node h z n -> atomic n = true)
                h vs Child) as (b & Eb & Pb).
    exists b. split; [exact Eb|]. rewrite Pb. split; [now split | now intros [_ A]].
  - exists false. split; [reflexivity|]. split; [discriminate | now intros [A _]].
  - unfold BinOp_is_atomic_node.
    destruct (Child l) as (bl & El & Pl); [left|].
    destruct (Child r) as (br & Er & Pr); [right; left|].
    rewrite (run_bind _ _ _ _ _ El). destruct bl.
    + exists br. split; [exact Er|]. rewrite Pr. split.
      * intros A. split; [reflexivity|]. intros c Ic.
        apply elem_of_cons in Ic as [->|Ic]; [now apply Pl|].
        apply list_elem_of_singleton in Ic as ->. exact A.
      * intros [_ A]. apply (A r). right. left.
    + exists false. split; [reflexivity|]. split; [discriminate|].
      intros [_ A]. apply Pl, (A l). left.
  - unfold Compare_is_atomic_node.
    destruct (Child l) as (bl & El & Pl); [left|].
    rewrite (run_bind _ _ _ _ _ El). destruct bl.
    + destruct (BoolOp_is_atomic_node_run (is_atomic_node source_is_atomic_node fuel)
                  (fun y => forall z n, descends h y z -> is_node h z n -> atomic n = true)
                  h cs) as (b & Eb & Pb); [intros y Iy; apply Child; now right|].
      exists b. split; [exact Eb|]. rewrite Pb. split.
      * intros A. split; [reflexivity|]. intros c Ic.
        apply elem_of_cons in Ic as [->|Ic]; [now apply Pl | now apply A].
      * intros [_ A] y Iy. apply A. now right.
    + exists false. split; [reflexivity|]. split; [discriminate|].
      intros [_ A]. apply Pl, (A l). left.
  - exists (source_is_atomic_node (column s)). split; [reflexivity|]. split.
    + intros A. split; [exact A|]. intros c I. inversion I.
    + now intros [A _].
Qed.

(** X17.  [uses_column_formula] in an expression graph whose operands and
    arguments are all in the store: once the fuel exceeds the rank of the
    node the query returns and leaves the store as it is, and it answers
    true exactly when a whole-column call is among the node and the nodes
    below it (or a column leaf that uses a column formula). *)
Theorem uses_column_formula_some_call : forall fuel x h,
  well_formed rk h -> closed h -> is_Some (objects h !! x) -> rk x < fuel ->
  exists b,
    uses_column_formula source_uses_column_formula fuel x h = (Ok b, h)
    /\ (b = true
        <-> exists y n, descends h x y /\ is_node h y n /\ formula n = true).
Proof.
  induction fuel as [|fuel IH]; intros x h W Cl [o E] L; [lia|].
  destruct (closed_lookup h x o Cl E) as [Fc Lc].
  pose proof (proj1 (well_formed_lookup rk h x o W E)) as Fr.
  rewrite Forall_forall in Fc, Fr.
  assert (Child : forall y, y ∈ children (lists h) (class_ o) ->
            exists b, uses_column_formula source_uses_column_formula fuel y h = (Ok b, h)
                      /\ (b = true
                          <-> exists z n, descends h y z /\ is_node h z n
                                          /\ formula n = true)).
  { intros y Iy. apply IH; auto. specialize (Fr y Iy). lia. }
  cbn [uses_column_formula]. rewrite (run_bind _ _ _ _ _ (run_deref _ _ _ E)).
  setoid_rewrite (some_descendant_unfold h x o (fun n => formula n = true) E).
  destruct (class_ o) as [n|s|op y|op vs|c|l op r|l ops cs|s] eqn:C;
    cbn [class_uses_column_formula column_formula_class]; cbn [children] in Child |- *.
  - exists false. split; [reflexivity|]. split; [discriminate|].
    intros [A|(c & I & _)]; [discriminate A | inversion I].
  - exists false. split; [reflexivity|]. split; [discriminate|].
    intros [A|(c & I & _)]; [discriminate A | inversion I].
  - destruct (Child y) as (b & Eb & Pb); [left|]. exists b. split; [exact Eb|].
    rewrite Pb. split.
    + intros A. right. exists y. split; [left | exact A].
    + intros [A|(c & Ic & A)]; [discriminate A|].
      apply list_elem_of_singleton in Ic as ->. exact A.
  - destruct (BoolOp_uses_column_formula_run
                (uses_column_formula source_uses_column_formula fuel)
                (fun y => exists z n, descends h y z /\ is_node h z n /\ formula n = true)
                h vs Child) as (b & Eb & Pb).
    exists b. split; [exact Eb|]. rewrite Pb. split; [now right|].
    intros [A|A]; [discriminate A | exact A].
  - unfold Call_uses_column_formula. destruct (is_column_wise (meta (_function c))).
    + exists true. split; [reflexivity|]. split; [now left | reflexivity].
    + destruct (Lc c eq_refl) as [a La]. rewrite La in Child |- *.
      rewrite (run_bind _ _ _ _ _ (run_read_list _ _ _ La)).
      destruct (BoolOp_uses_column_formula_run
                  (uses_column_formula source_uses_column_formula fuel)
                  (fun y => exists z n, descends h y z /\ is_node h z n /\ formula n = true)
                  h a Child) as (b & Eb & Pb).
      exists b. split; [exact Eb|]. rewrite Pb. split; [now right|].
      intros [A|A]; [discriminate A | exact A].
  - unfold BinOp_uses_column_formula.
    destruct (Child l) as (bl & El & Pl); [left|].
    destruct (Child r) as (br & Er & Pr); [right; left|].
    rewrite (run_bind _ _ _ _ _ El). destruct bl.
    + exists true. split; [reflexivity|]. split; [|reflexivity].
      intros _. right. exists l. split; [left | now apply Pl].
    + exists br. split; [exact Er|]. rewrite Pr. split.
      * intros A. right. exists r. split; [right; left | exact A].
      * intros [A|(c & Ic & A)]; [discriminate A|].
        apply elem_of_cons in Ic as [->|Ic].
        -- apply Pl in A. discriminate A.
        -- apply list_elem_of_singleton in Ic as ->. exact A.
  - unfold Compare_uses_column_formula.
    destruct (Child l) as (bl & El & Pl); [left|].
    rewrite (run_bind _ _ _ _ _ El). destruct bl.
    + exists true. split; [reflexivity|]. split; [|reflexivity].
      intros _. right. exists l. split; [left | now apply Pl].
    + destruct (BoolOp_uses_column_formula_run
                  (uses_column_formula source_uses_column_formula fuel)
                  (fun y => exists z n, descends h y z /\ is_node h z n /\ formula n = true)
                  h cs) as (b & Eb & Pb); [intros y Iy; apply Child; now right|].
      exists b. split; [exact Eb|]. rewrite Pb. split.
      * intros (y & Iy & A). right. exists y. split; [now right | exact A].
      * intros [A|(c & Ic & A)]; [discriminate A|].
        apply elem_of_cons in Ic as [->|Ic]; [|eauto].
        apply Pl in A. discriminate A.
  - exists (source_uses_column_formula (column s)). split; [reflexivity|]. split.
    + now left.
    + intros [A|(c & I & _)]; [exact A | inversion I].
Qed.

End StructureQueries.


(** [1 and NA and 0] is atomic and uses no column formula; [VSUM(x) + 1] is
    not atomic and uses one (a column leaf taken as atomic and as using
    none). *)
Lemma is_atomic_node_no_call_witness :
  is_atomic_node (fun _ => true) 4 3 Cases.logic = (Ok true, Cases.logic)
  /\ is_atomic_node (fun _ => true) 4 3 Sample.sums = (Ok false, Sample.sums).
Proof.
  split.
  - destruct (is_atomic_node_no_call (fun _ => true) (fun x => x) 4 3 Cases.logic)
      as (b & E & _).
    + unfold well_formed. apply (bool_decide_unpack _). vm_compute. reflexivity.
    + unfold closed. apply (bool_decide_unpack _). vm_compute. reflexivity.
    + exists (Cases.obj (BoolOp ast.And [0; 2; 1]) []). vm_compute. reflexivity.
    + cbn. lia.
    + assert (X : (is_atomic_node (fun _ => true) 4 3 Cases.logic).1 = Ok true)
        by (vm_compute; reflexivity).
      rewrite E in X. injection X as ->. exact E.
  - destruct (is_atomic_node_no_call (fun _ => true) (fun x => x) 4 3 Sample.sums)
      as (b & E & _).
    + unfold well_formed. apply (bool_decide_unpack _). vm_compute. reflexivity.
    + unfold closed. apply (bool_decide_unpack _). vm_compute. reflexivity.
    + exists (Cases.obj (BinOp 1 ast.Add 2) []). vm_compute. reflexivity.
    + cbn. lia.
    + assert (X : (is_atomic_node (fun _ => true) 4 3 Sample.sums).1 = Ok false)
        by (vm_compute; reflexivity).
      rewrite E in X. injection X as ->. exact E.
Defined.

Lemma uses_column_formula_some_call_witness :
  uses_column_formula (fun _ => false) 4 3 Cases.logic = (Ok false, Cases.logic)
  /\ uses_column_formula (fun _ => false) 4 3 Sample.sums = (Ok true, Sample.sums).
Proof.
  split.
  - destruct (uses_column_formula_some_call (fun _ => false) (fun x => x) 4 3 Cases.logic)
      as (b & E & _).
    + unfold well_formed. apply (bool_decide_unpack _). vm_compute. reflexivity.
    + unfold closed. apply (bool_decide_unpack _). vm_compute. reflexivity.
    + exists (Cases.obj (BoolOp ast.And [0; 2; 1]) []). vm_compute. reflexivity.
    + cbn. lia.
    + assert (X : (uses_column_formula (fun _ => false) 4 3 Cases.logic).1 = Ok false)
        by (vm_compute; reflexivity).
      rewrite E in X. injection X as ->. exact E.
  - destruct (uses_column_formula_some_call (fun _ => false) (fun x => x) 4 3 Sample.sums)
      as (b & E & _).
    + unfold well_formed. apply (bool_decide_unpack _). vm_compute. reflexivity.
    + unfold closed. apply (bool_decide_unpack _). vm_compute. reflexivity.
    + exists (Cases.obj (BinOp 1 ast.Add 2) []). vm_compute. reflexivity.
    + cbn. lia.
    + assert (X : (uses_column_formula (fun _ => false) 4 3 Sample.sums).1 = Ok true)
        by (vm_compute; reflexivity).
      rewrite E in X. injection X as ->. exact E.
Defined.

(** ** The result types of the operators agree with each other *)

Section OperatorTypes.
Context `{Runtime}.
Variable rk : oid -> nat.

Lemma data_type_is_node fuel x n g :
  is_node g x n ->
  data_type (S fuel) x g = class_data_type (data_type fuel) (measure_type fuel) x n g.
Proof.
  intros (o & E & <-). cbn [data_type]. now rewrite (run_bind _ _ _ _ _ (run_deref _ _ _ E)).
Qed.

Lemma measure_type_is_node fuel x n g :
  is_node g x n ->
  measure_type (S fuel) x g
  = class_measure_type (data_type fuel) (measure_type fuel) x n g.
Proof.
  intros (o & E & <-). cbn [measure_type].
  now rewrite (run_bind _ _ _ _ _ (run_deref _ _ _ E)).
Qed.

(** The data type of a node that is no call, asked for again in a store
    grown from the one the first answer has left. *)
Lemma data_type_again fuel x n d h h1 :
  well_formed rk h -> is_node h x n -> (forall c, n <> Call c) ->
  data_type (S fuel) x h = (Ok d, h1) ->
  grows h h1
  /\ forall g d' g', grows h1 g ->
       class_data_type (data_type fuel) (measure_type fuel) x n g = (Ok d', g') -> d' = d.
Proof.
  intros W I N Ed.
  destruct (proj1 (replay_types rk (S fuel) x h W) d h1 Ed) as [(_ & G1 & _) P].
  split; [exact G1|]. intros g d' g' G R. destruct (P g G) as (g2 & E2 & _).
  rewrite (data_type_is_node fuel x n g) in E2
    by (eapply is_node_grows; [exact (grows_trans _ _ _ G1 G) | exact N | exact I]).
  congruence.
Qed.

(** X18.  The result types of the operators agree with each other, in any
    expression graph and whatever the operands are.  A unary plus never has
    the data type text (a text operand makes it a decimal).  A binary
    operator has the measure type identifier only together with the data
    type text, and the measure type continuous only together with a data
    type other than text. *)
Theorem operator_types_coherent fuel x h :
  well_formed rk h ->
  (forall operand d h1,
      is_node h x (UnaryOp ast.UAdd operand) ->
      data_type (S fuel) x h = (Ok d, h1) -> d <> DataType.TEXT)
  /\ (forall left_ op right_ d m h1 h2,
      is_node h x (BinOp left_ op right_) ->
      data_type (S fuel) x h = (Ok d, h1) ->
      measure_type (S fuel) x h1 = (Ok m, h2) ->
      (m = MeasureType.ID -> d = DataType.TEXT)
      /\ (m = MeasureType.CONTINUOUS -> d <> DataType.TEXT)).
Proof.
  intros W. split.
  - intros y d h1 I Ed. rewrite (data_type_is_node fuel x _ h I) in Ed.
    cbn [class_data_type] in Ed. unfold UnaryOp_data_type in Ed.
    apply run_bind_inv in Ed as (d0 & g & E0 & Ed).
    destruct (proj1 (replay_types rk fuel y h W) d0 g E0) as [_ P].
    destruct (P g (grows_refl g)) as (g' & E1 & _).
    destruct d0; try (rewrite E1 in Ed; injection Ed as <- <-; discriminate).
    injection Ed as <- <-. discriminate.
  - intros l op r d m h1 h2 I Ed Em.
    destruct (data_type_again fuel x (BinOp l op r) d h h1 W I ltac:(discriminate) Ed)
      as [G1 Same].
    cbn [class_data_type] in Same.
    pose proof (proj1 (proj1 (replay_types rk (S fuel) x h W) d h1 Ed)) as (W1 & _).
    assert (I1 : is_node h1 x (BinOp l op r))
      by (eapply is_node_grows; [exact G1 | discriminate | exact I]).
    rewrite (measure_type_is_node fuel x _ h1 I1) in Em. cbn [class_measure_type] in Em.
    rewrite (data_type_is_node fuel x _ h I) in Ed. cbn [class_data_type] in Ed.
    assert (Pw : op = ast.Pow -> d = DataType.DECIMAL /\ m = MeasureType.CONTINUOUS).
    { intros ->. cbn in Ed, Em. injection Ed as <- _. injection Em as <- _. auto. }
    assert (Rest : forall lm g1 rm g2,
               measure_type fuel l h1 = (Ok lm, g1) ->
               measure_type fuel r g1 = (Ok rm, g2) ->
               ((if is_ID lm || is_ID rm then
                  d ← BinOp_data_type (data_type fuel) l op r;
                  if is_TEXT d then mret MeasureType.ID
                  else (if is_CONTINUOUS lm || is_CONTINUOUS rm then
                          d ← BinOp_data_type (data_type fuel) l op r;
                          if is_TEXT d
                          then (if is_NOMINAL lm || is_NOMINAL rm
                                then mret MeasureType.NOMINAL
                                else mret MeasureType.ORDINAL)
                          else mret MeasureType.CONTINUOUS
                        else (if is_NOMINAL lm || is_NOMINAL rm
                              then mret MeasureType.NOMINAL
                              else mret MeasureType.ORDINAL))
                else (if is_CONTINUOUS lm || is_CONTINUOUS rm then
                        d ← BinOp_data_type (data_type fuel) l op r;
                        if is_TEXT d
                        then (if is_NOMINAL lm || is_NOMINAL rm
                              then mret MeasureType.NOMINAL
                              else mret MeasureType.ORDINAL)
                        else mret MeasureType.CONTINUOUS
                      else (if is_NOMINAL lm || is_NOMINAL rm
                            then mret MeasureType.NOMINAL
                            else mret MeasureType.ORDINAL))) : M MeasureType.t) g2
               = (Ok m, h2) ->
               (m = MeasureType.ID -> d = DataType.TEXT)
               /\ (m = MeasureType.CONTINUOUS -> d <> DataType.TEXT)).
    { intros lm g1 rm g2 El Er R.
      destruct (proj2 (replay_types rk fuel l h1 W1) lm g1 El) as [(Wg1 & Gg1 & _) _].
      destruct (proj2 (replay_types rk fuel r g1 Wg1) rm g2 Er) as [(Wg2 & Gg2 & _) _].
      pose proof (grows_trans _ _ _ Gg1 Gg2) as G12.
      assert (Tail : forall g,
                 ((if is_NOMINAL lm || is_NOMINAL rm
                   then mret MeasureType.NOMINAL else mret MeasureType.ORDINAL)
                    : M MeasureType.t) g
                 = (Ok m, h2) ->
                 (m = MeasureType.ID -> d = DataType.TEXT)
                 /\ (m = MeasureType.CONTINUOUS -> d <> DataType.TEXT)).
      { intros g T. destruct (is_NOMINAL lm || is_NOMINAL rm); cbn in T;
          injection T as <- _; split; discriminate. }
      assert (Cont : forall g, grows h1 g ->
                 ((if is_CONTINUOUS lm || is_CONTINUOUS rm then
                     d ← BinOp_data_type (data_type fuel) l op r;
                     if is_TEXT d
                     then (if is_NOMINAL lm || is_NOMINAL rm
                           then mret MeasureType.NOMINAL else mret MeasureType.ORDINAL)
                     else mret MeasureType.CONTINUOUS
                   else (if is_NOMINAL lm || is_NOMINAL rm
                         then mret MeasureType.NOMINAL else mret MeasureType.ORDINAL))
                    : M MeasureType.t) g
                 = (Ok m, h2) ->
                 (m = MeasureType.ID -> d = DataType.TEXT)
                 /\ (m = MeasureType.CONTINUOUS -> d <> DataType.TEXT)).
      { intros g Gg Rc. destruct (is_CONTINUOUS lm || is_CONTINUOUS rm); [|now apply (Tail g)].
        apply run_bind_inv in Rc as (d' & g' & Ed' & Rc).
        rewrite (Same g d' g' Gg Ed') in Rc.
        destruct d; cbn [is_TEXT] in Rc;
          try (cbn in Rc; injection Rc as <- _; split; discriminate).
        now apply (Tail g'). }
      destruct (is_ID lm || is_ID rm); [|now apply (Cont g2)].
      apply run_bind_inv in R as (d' & g3 & Ed' & R).
      pose proof (Same g2 d' g3 G12 Ed') as ->.
      destruct d; cbn [is_TEXT] in R;
        try (cbn in R; injection R as <- _; split; [auto|discriminate]).
      all: apply (Cont g3); [|exact R].
      all: eapply grows_trans; [exact G12|].
      all: assert (I2 : is_node g2 x (BinOp l op r))
             by (eapply is_node_grows; [exact G12 | discriminate | exact I1]).
      all: match type of Ed' with
           | _ = (Ok ?d', _) =>
               assert (Ey : data_type (S fuel) x g2 = (Ok d', g3))
                 by (rewrite (data_type_is_node fuel x _ g2 I2); exact Ed')
           end.
      all: now destruct (proj1 (replay_types rk (S fuel) x g2 Wg2) _ g3 Ey)
             as [(_ & G3 & _) _]. }
    unfold BinOp_measure_type in Em.
    destruct op; try (destruct Pw as [-> ->]; [reflexivity|]; split; discriminate);
      apply run_bind_inv in Em as (lm & g1 & El & Em);
      apply run_bind_inv in Em as (rm & g2 & Er & Em);
      exact (Rest lm g1 rm g2 El Er Em).
Qed.

End OperatorTypes.


(** [+"7"] is a decimal; ["a" + "b"] is a nominal text, neither an
    identifier nor continuous. *)
Lemma operator_types_coherent_witness :
  (exists d, data_type 2 18 Cases.logic = (Ok d, Cases.logic) /\ d <> DataType.TEXT)
  /\ (exists m, measure_type 2 14 Sample.formulas = (Ok m, Sample.formulas)
                /\ m <> MeasureType.CONTINUOUS).
Proof.
  split.
  - destruct (operator_types_coherent (fun x => x) 1 18 Cases.logic) as [A _].
    + unfold well_formed. apply (bool_decide_unpack _). vm_compute. reflexivity.
    + assert (E : data_type 2 18 Cases.logic = (Ok DataType.DECIMAL, Cases.logic))
        by (vm_compute; reflexivity).
      exists DataType.DECIMAL. split; [exact E|].
      apply (A 17 _ Cases.logic); [|exact E].
      exists (Cases.obj (UnaryOp ast.UAdd 17) []). split; [vm_compute|]; reflexivity.
  - destruct (operator_types_coherent (fun x => x) 1 14 Sample.formulas) as [_ B].
    + unfold well_formed. apply (bool_decide_unpack _). vm_compute. reflexivity.
    + assert (Ed : data_type 2 14 Sample.formulas = (Ok DataType.TEXT, Sample.formulas))
        by (vm_compute; reflexivity).
      assert (Em : measure_type 2 14 Sample.formulas
                   = (Ok MeasureType.NOMINAL, Sample.formulas))
        by (vm_compute; reflexivity).
      exists MeasureType.NOMINAL. split; [exact Em|].
      assert (I : is_node Sample.formulas 14 (BinOp 4 ast.Add 5))
        by (exists (Cases.obj (BinOp 4 ast.Add 5) []); split; [vm_compute|]; reflexivity).
      destruct (B 4 ast.Add 5 _ _ _ _ I Ed Em) as [_ C].
      intros Mc. exact (C Mc eq_refl).
Defined.

Section ReleaseTree.

Variable rk : oid -> nat.

Lemma descends_trans h x y z : descends h x y -> descends h y z -> descends h x z.
Proof.
  induction 1 as [x|x o c y E I D IH]; [auto|]. intros Dz.
  eapply descends_child; [exact E | exact I | now apply IH].
Qed.

Lemma descends_rank h x y : well_formed rk h -> descends h x y -> rk y <= rk x.
Proof.
  intros W. induction 1 as [x|x o c y E I D IH]; [lia|].
  pose proof (children_rank rk h x o c W E I). lia.
Qed.

(** A reference that releasing [c] takes out is held by a node strictly
    below [c]. *)
Lemma links_below h c p y :
  well_formed rk h -> links h c p y -> descends h c y /\ rk y < rk c.
Proof.
  intros W [D (o & E & I)]. split.
  - eapply descends_trans; [exact D|].
    eapply descends_child; [exact E | exact I | constructor].
  - pose proof (descends_rank h c p W D). pose proof (children_rank rk h p o y W E I). lia.
Qed.

Lemma links_unfold h x o p y :
  objects h !! x = Some o ->
  links h x p y
  <-> (p = x /\ y ∈ children (lists h) (class_ o))
      \/ exists c, c ∈ children (lists h) (class_ o) /\ links h c p y.
Proof.
  intros E. split.
  - intros [D Ch]. apply descends_inv in D as [->|(o' & c & E' & I & D)].
    + left. split; [reflexivity|]. destruct Ch as (o' & E' & I).
      rewrite E in E'. now injection E' as <-.
    + right. exists c. rewrite E in E'. injection E' as <-. split; [exact I|].
      split; assumption.
  - intros [[-> I]|(c & I & D & Ch)].
    + split; [constructor|]. now exists o.
    + split; [|exact Ch]. eapply descends_child; [exact E | exact I | exact D].
Qed.

(** *** Stores with the same nodes *)

Lemma same_nodes_sym h g : same_nodes h g -> same_nodes g h.
Proof.
  intros [L C]. split; [now rewrite L|]. intros y.
  destruct (C y) as [o o' Eo|]; constructor. now rewrite Eo.
Qed.

Lemma same_nodes_lookup h g x o :
  same_nodes h g -> objects h !! x = Some o ->
  exists o', objects g !! x = Some o' /\ class_ o' = class_ o
             /\ children (lists g) (class_ o') = children (lists h) (class_ o).
Proof.
  intros [L C] E. specialize (C x). rewrite E in C. inversion C as [o1 o' Ec E1 E2|]; subst.
  exists o'. split; [reflexivity|]. split; [exact Ec|]. now rewrite L, Ec.
Qed.

Lemma same_nodes_child h g p y : same_nodes h g -> child h p y -> child g p y.
Proof.
  intros S (o & E & I). destruct (same_nodes_lookup h g p o S E) as (o' & E' & _ & Ch).
  exists o'. split; [exact E'|]. now rewrite Ch.
Qed.

Lemma same_nodes_descends h g x y : same_nodes h g -> descends h x y -> descends g x y.
Proof.
  intros S. induction 1 as [x|x o c y E I D IH]; [constructor|].
  destruct (same_nodes_lookup h g x o S E) as (o' & E' & _ & Ch).
  apply (descends_child g x o' c y E'); [now rewrite Ch | exact IH].
Qed.

Lemma same_nodes_links h g x p y : same_nodes h g -> links h x p y -> links g x p y.
Proof.
  intros S [D Ch]. split; [now apply (same_nodes_descends h) | now apply (same_nodes_child h)].
Qed.

Lemma same_nodes_well_formed h g : same_nodes h g -> well_formed rk h -> well_formed rk g.
Proof.
  intros S W x o' E'.
  destruct (same_nodes_lookup g h x o' (same_nodes_sym _ _ S) E') as (o & E & Ec & Ch).
  destruct (W x o E) as [F Mc]. cbn in F, Mc. cbn. rewrite <- Ch, <- Ec. now split.
Qed.

Lemma same_nodes_closed h g : same_nodes h g -> closed h -> closed g.
Proof.
  intros S Cl x o' E'.
  destruct (same_nodes_lookup g h x o' (same_nodes_sym _ _ S) E') as (o & E & Ec & Ch).
  destruct (Cl x o E) as [F A]. cbn in F, A. cbn. rewrite <- Ch, <- Ec. split.
  - eapply Forall_impl; [exact F|]. intros y [oy Ey]. cbn in Ey.
    destruct (same_nodes_lookup h g y oy S Ey) as (oy' & Ey' & _). now exists oy'.
  - destruct S as [L _]. destruct (class_ o); try exact A. cbn in *. now rewrite L.
Qed.

Lemma same_nodes_tree h g x : same_nodes h g -> tree h x -> tree g x.
Proof.
  intros S T p o' D' E'. pose proof (same_nodes_sym _ _ S) as S'.
  destruct (same_nodes_lookup g h p o' S' E') as (o & E & Ec & Ch).
  destruct (T p o (same_nodes_descends g h x p S' D') E) as [N U].
  rewrite <- Ch. split; [exact N|]. intros c1 c2 y I1 I2 D1 D2.
  apply (U c1 c2 y I1 I2); now apply (same_nodes_descends g h).
Qed.

(** *** Taking references out *)

Lemma unlinked_same_nodes E h g : unlinked E h g -> same_nodes h g.
Proof. intros (-> & C & _). split; [reflexivity | exact C]. Qed.

Lemma unlinked_refl h : unlinked (fun _ _ => False) h h.
Proof.
  split; [now destruct h|]. split; [|split].
  - intros y. destruct (objects h !! y); now constructor.
  - reflexivity.
  - intros p y o [].
Qed.

Lemma unlinked_iff (E F : oid -> oid -> Prop) h g :
  (forall p y, E p y <-> F p y) -> unlinked E h g -> unlinked F h g.
Proof.
  intros EF (Eg & C & Fr & Rm). split; [exact Eg|]. split; [exact C|]. split.
  - intros y N. apply Fr. intros p Ep. apply (N p). now apply EF.
  - intros p y o Fp. apply Rm. now apply EF.
Qed.

Lemma unlinked_compose (E F : oid -> oid -> Prop) h g g' :
  unlinked E h g -> unlinked F g g' -> (forall p q y, E p y -> F q y -> False) ->
  unlinked (fun p y => E p y \/ F p y) h g'.
Proof.
  intros (Eg & C & Fr & Rm) (Eg' & C' & Fr' & Rm') Dj. split; [|split; [|split]].
  - rewrite Eg' at 1. rewrite Eg at 1. now destruct h.
  - intros y. specialize (C y). specialize (C' y).
    destruct C as [o o1 E1|]; inversion C' as [o2 o' E2|]; subst; constructor. congruence.
  - intros y N. rewrite Fr', Fr; [reflexivity| |]; intros p Ep; apply (N p); auto.
  - intros p y o [Ep|Fp] Ey.
    + destruct (Rm p y o Ep Ey) as (ps & R & Ey'). exists ps. split; [exact R|].
      rewrite Fr'; [exact Ey'|]. intros q Fq. exact (Dj p q y Ep Fq).
    + apply (Rm' p y o Fp). rewrite Fr; [exact Ey|]. intros q Eq. exact (Dj q p y Eq Fp).
Qed.

Lemma unlinked_remove (E : oid -> oid -> Prop) h g x c oc :
  unlinked E h g -> (forall p, ~ E p c) ->
  objects h !! c = Some oc -> x ∈ _node_parents oc ->
  exists g',
    _remove_node_parent c x g = (Ok tt, g')
    /\ unlinked (fun p y => E p y \/ (p = x /\ y = c)) h g'.
Proof.
  intros (Eg & C & Fr & Rm) N Ec Ix.
  assert (Ec' : objects g !! c = Some oc) by (now rewrite Fr).
  apply list_elem_of_split_l in Ix as (l1 & l2 & El & N1).
  pose proof (list_remove_first_Some x l1 l2 N1) as R. rewrite <- El in R.
  eexists. split.
  - unfold _remove_node_parent. rewrite (run_bind _ _ _ _ _ (run_deref _ _ _ Ec')), R.
    apply (set_parents_run _ _ _ _ Ec').
  - split; [|split; [|split]]; cbn.
    + rewrite Eg at 1. now destruct h.
    + intros y. destruct (decide (y = c)) as [->|Ny].
      * rewrite lookup_insert_eq, Ec. now constructor.
      * rewrite lookup_insert_ne by congruence. apply C.
    + intros y Ny. destruct (decide (y = c)) as [->|Nc].
      * exfalso. apply (Ny x). now right.
      * rewrite lookup_insert_ne by congruence. apply Fr. intros p Ep. apply (Ny p). now left.
    + intros p y o [Ep|[-> ->]] Ey.
      * destruct (decide (y = c)) as [->|Nc]; [now destruct (N p)|].
        rewrite lookup_insert_ne by congruence. now apply Rm.
      * rewrite Ec in Ey. injection Ey as <-. exists (l1 ++ l2).
        split; [exact R|]. now rewrite lookup_insert_eq.
Qed.

(** *** The recursion *)

Section Step.

Variable rel : oid -> M unit.
Variable bound : nat.

Hypothesis rel_unlinked : forall x h,
  well_formed rk h -> closed h -> tree h x -> registered h x ->
  is_Some (objects h !! x) -> rk x < bound ->
  exists h', rel x h = (Ok tt, h') /\ unlinked (links h x) h h'.

(** Releasing [c] in a store from which references have been taken out
    already, none of them at or below [c]. *)
Lemma release_sub (E : oid -> oid -> Prop) h g c :
  well_formed rk h -> closed h -> tree h c -> registered h c ->
  is_Some (objects h !! c) -> rk c < bound ->
  unlinked E h g -> (forall p y, E p y -> ~ descends h c y) ->
  exists g', rel c g = (Ok tt, g') /\ unlinked (fun p y => E p y \/ links h c p y) h g'.
Proof.
  intros W Cl T R [oc Ec] Lt U Dj.
  pose proof (unlinked_same_nodes _ _ _ U) as S.
  pose proof (same_nodes_sym _ _ S) as S'.
  destruct (same_nodes_lookup h g c oc S Ec) as (oc' & Ec' & _).
  destruct (rel_unlinked c g) as (g' & Eg' & U');
    [now apply (same_nodes_well_formed h) | now apply (same_nodes_closed h)
    | now apply (same_nodes_tree h) | | now exists oc' | exact Lt |].
  - intros p y D' Ch'.
    destruct (R p y (same_nodes_descends g h c p S' D') (same_nodes_child g h p y S' Ch'))
      as (o & Ey & Ip).
    exists o. split; [|exact Ip]. destruct U as (_ & _ & Fr & _). rewrite Fr; [exact Ey|].
    intros q Eq. apply (Dj q y Eq).
    apply (links_below h c p y W). split; [now apply (same_nodes_descends g h)
                                          | now apply (same_nodes_child g h)].
  - exists g'. split; [exact Eg'|]. apply (unlinked_compose E (links h c) h g g' U).
    + eapply unlinked_iff; [|exact U']. intros p y. split; now apply same_nodes_links.
    + intros p q y Ep Lq. apply (Dj p y Ep). now apply (links_below h c q y W).
Qed.

Lemma release_child_run (E : oid -> oid -> Prop) h g x c oc :
  well_formed rk h -> closed h -> tree h c -> registered h c ->
  objects h !! c = Some oc -> x ∈ _node_parents oc -> rk c < bound ->
  unlinked E h g -> (forall p y, E p y -> ~ descends h c y) ->
  exists g',
    release_child rel x c g = (Ok tt, g')
    /\ unlinked (fun p y => (E p y \/ links h c p y) \/ (p = x /\ y = c)) h g'.
Proof.
  intros W Cl T R Ec Ix Lt U Dj.
  destruct (release_sub E h g c W Cl T R (ex_intro _ oc Ec) Lt U Dj) as (g1 & E1 & U1).
  destruct (unlinked_remove _ h g1 x c oc U1) as (g' & E' & U'); [|exact Ec|exact Ix|].
  - intros p [Ep|Lp].
    + apply (Dj p c Ep). constructor.
    + pose proof (links_below h c p c W Lp). lia.
  - exists g'. split; [|exact U']. unfold release_child.
    now rewrite (run_bind _ _ _ _ _ E1).
Qed.

Lemma for_each_release h x : forall cs (E : oid -> oid -> Prop) g,
  well_formed rk h -> closed h ->
  unlinked E h g -> NoDup cs ->
  (forall c, c ∈ cs ->
     tree h c /\ registered h c /\ rk c < bound
     /\ exists oc, objects h !! c = Some oc /\ x ∈ _node_parents oc) ->
  (forall c1 c2 y, c1 ∈ cs -> c2 ∈ cs -> descends h c1 y -> descends h c2 y -> c1 = c2) ->
  (forall c p y, c ∈ cs -> E p y -> ~ descends h c y) ->
  exists g',
    for_each (release_child rel x) cs g = (Ok tt, g')
    /\ unlinked (fun p y => E p y \/ (p = x /\ y ∈ cs)
                            \/ exists c, c ∈ cs /\ links h c p y) h g'.
Proof.
  induction cs as [|c cs IH]; intros E g W Cl U N Hc Un Dj.
  - exists g. split; [reflexivity|]. eapply unlinked_iff; [|exact U]. intros p y. split; [auto|].
    intros [Ep|[[_ I]|(c & I & _)]]; [exact Ep| |]; now apply elem_of_nil in I.
  - apply NoDup_cons in N as [Nc N].
    destruct (Hc c) as (T & R & Lt & oc & Ec & Ix); [left|].
    destruct (release_child_run E h g x c oc W Cl T R Ec Ix Lt U) as (g1 & E1 & U1).
    { intros p y Ep. apply (Dj c p y); [left | exact Ep]. }
    destruct (IH _ g1 W Cl U1 N) as (g' & E' & U').
    + intros c' I. apply Hc. now right.
    + intros c1 c2 y I1 I2. apply Un; now right.
    + intros c' p y I [[Ep|Lp]|[-> ->]] D.
      * apply (Dj c' p y); [now right | exact Ep | exact D].
      * apply Nc. rewrite (Un c c' y); [exact I | left | now right | | exact D].
        now apply (links_below h c p y W).
      * apply Nc. rewrite (Un c c' c); [exact I | left | now right | constructor | exact D].
    + exists g'. split.
      * cbn [for_each]. now rewrite (run_bind _ _ _ _ _ E1).
      * eapply unlinked_iff; [|exact U']. intros p y. split.
        -- intros [[[Ep|Lp]|[-> ->]]|[[-> I]|(c' & I & L)]].
           ++ now left.
           ++ right. right. exists c. split; [left | exact Lp].
           ++ right. left. split; [reflexivity | left].
           ++ right. left. split; [reflexivity | now right].
           ++ right. right. exists c'. split; [now right | exact L].
        -- intros [Ep|[[-> I]|(c' & I & L)]].
           ++ now left; left; left.
           ++ apply elem_of_cons in I as [->|I]; [left; right; now split|].
              right. left. now split.
           ++ apply elem_of_cons in I as [->|I]; [left; left; now right|].
              right. right. now exists c'.
Qed.

(** What the operands and arguments of a node of a registered tree are. *)
Lemma tree_children h x o :
  tree h x -> registered h x -> objects h !! x = Some o ->
  NoDup (children (lists h) (class_ o))
  /\ (forall c1 c2 y,
        c1 ∈ children (lists h) (class_ o) -> c2 ∈ children (lists h) (class_ o) ->
        descends h c1 y -> descends h c2 y -> c1 = c2)
  /\ forall c, c ∈ children (lists h) (class_ o) ->
       tree h c /\ registered h c
       /\ exists oc, objects h !! c = Some oc /\ x ∈ _node_parents oc.
Proof.
  intros T R E. destruct (T x o (descends_self h x) E) as [N U].
  split; [exact N|]. split; [exact U|]. intros c I.
  assert (Dc : forall p, descends h c p -> descends h x p)
    by (intros p D; eapply descends_child; [exact E | exact I | exact D]).
  split; [|split].
  - intros p op D. apply T. now apply Dc.
  - intros p y D. apply R. now apply Dc.
  - apply (R x c (descends_self h x)). now exists o.
Qed.

(** The loop over the operands or arguments of a node. *)
Lemma release_children h x o :
  well_formed rk h -> closed h -> tree h x -> registered h x ->
  objects h !! x = Some o -> rk x <= bound ->
  exists h',
    for_each (release_child rel x) (children (lists h) (class_ o)) h = (Ok tt, h')
    /\ unlinked (links h x) h h'.
Proof.
  intros W Cl T R E Le. destruct (tree_children h x o T R E) as (N & U & Hc).
  destruct (for_each_release h x (children (lists h) (class_ o)) (fun _ _ => False) h W Cl
              (unlinked_refl h) N) as (h' & E' & U').
  - intros c I. destruct (Hc c I) as (Tc & Rc & Pc).
    pose proof (children_rank rk h x o c W E I). split; [exact Tc|]. split; [exact Rc|]. split; [lia | exact Pc].
  - exact U.
  - intros c p y _ [].
  - exists h'. split; [exact E'|]. eapply unlinked_iff; [|exact U']. intros p y.
    rewrite (links_unfold h x o p y E). tauto.
Qed.

(** [BinOp._release] releases both operands before it takes the node out
    of the parents of either. *)
Lemma BinOp__release_run h x o left_ op right_ :
  well_formed rk h -> closed h -> tree h x -> registered h x ->
  objects h !! x = Some o -> class_ o = BinOp left_ op right_ -> rk x <= bound ->
  exists h',
    BinOp__release rel x left_ right_ h = (Ok tt, h') /\ unlinked (links h x) h h'.
Proof.
  intros W Cl T R E C Le. destruct (tree_children h x o T R E) as (N & U & Hc).
  pose proof (fun c => children_rank rk h x o c W E) as Rk.
  rewrite C in N, U, Hc, Rk. cbn [children] in N, U, Hc, Rk.
  assert (Il : left_ ∈ [left_; right_]) by left.
  assert (Ir : right_ ∈ [left_; right_]) by (right; left).
  destruct (Hc _ Il) as (Tl & Rl & ol & El & Pl).
  destruct (Hc _ Ir) as (Tr & Rr & or & Er & Pr).
  pose proof (Rk _ Il) as Ll. pose proof (Rk _ Ir) as Lr.
  assert (Nlr : left_ <> right_).
  { apply NoDup_cons in N as [N _]. intros ->. apply N. left. }
  destruct (release_sub (fun _ _ => False) h h left_ W Cl Tl Rl (ex_intro _ ol El)
              ltac:(lia) (unlinked_refl h)) as (g1 & E1 & U1); [intros p y []|].
  destruct (release_sub _ h g1 right_ W Cl Tr Rr (ex_intro _ or Er) ltac:(lia) U1)
    as (g2 & E2 & U2).
  { intros p y [[]|L] D. apply Nlr. apply (U left_ right_ y Il Ir); [|exact D].
    now apply (links_below h left_ p y W). }
  destruct (unlinked_remove _ h g2 x left_ ol U2) as (g3 & E3 & U3); [|exact El|exact Pl|].
  { intros p [[[]|L]|L].
    - pose proof (links_below h left_ p left_ W L). lia.
    - apply Nlr. symmetry. apply (U right_ left_ left_ Ir Il); [|constructor].
      now apply (links_below h right_ p left_ W). }
  destruct (unlinked_remove _ h g3 x right_ or U3) as (g4 & E4 & U4); [|exact Er|exact Pr|].
  { intros p [[[[]|L]|L]|[_ Eq]].
    - apply Nlr. apply (U left_ right_ right_ Il Ir); [|constructor].
      now apply (links_below h left_ p right_ W).
    - pose proof (links_below h right_ p right_ W L). lia.
    - now apply Nlr. }
  exists g4. split.
  - unfold BinOp__release.
    rewrite (run_bind _ _ _ _ _ E1), (run_bind _ _ _ _ _ E2), (run_bind _ _ _ _ _ E3).
    exact E4.
  - eapply unlinked_iff; [|exact U4]. intros p y.
    rewrite (links_unfold h x o p y E), C. cbn [children]. split.
    + intros [[[[[]|L]|L]|[-> ->]]|[-> ->]].
      * right. now exists left_.
      * right. now exists right_.
      * left. now split.
      * left. now split.
    + intros [[-> I]|(c & I & L)].
      * apply elem_of_cons in I as [->|I]; [left; right; now split|].
        apply list_elem_of_singleton in I as ->. right. now split.
      * apply elem_of_cons in I as [->|I]; [left; left; left; now right|].
        apply list_elem_of_singleton in I as ->. left. left. now right.
Qed.

End Step.

Lemma release_unlinked : forall fuel x h,
  well_formed rk h -> closed h -> tree h x -> registered h x ->
  is_Some (objects h !! x) -> rk x < fuel ->
  exists h', _release fuel x h = (Ok tt, h') /\ unlinked (links h x) h h'.
Proof.
  induction fuel as [|fuel IH]; intros x h W Cl T R [o E] Lt; [lia|].
  assert (Le : rk x <= fuel) by lia.
  destruct (release_children (_release fuel) fuel IH h x o W Cl T R E Le) as (h' & E' & U').
  cbn [_release]. rewrite (run_bind _ _ _ _ _ (run_deref _ _ _ E)).
  destruct (class_ o) as [n|s|op operand|op values|c|left_ op right_|left_ ops comparators|s]
    eqn:C; cbn [children] in E'.
  - exists h'. split; [exact E' | exact U'].
  - exists h'. split; [exact E' | exact U'].
  - exists h'. split; [|exact U']. unfold UnaryOp__release. cbn [for_each] in E'.
    apply run_bind_inv in E' as ([] & h1 & E1 & [= <-]). exact E1.
  - exists h'. split; [exact E' | exact U'].
  - exists h'. split; [|exact U']. unfold Call__release.
    destruct (closed_lookup h x o Cl E) as [_ A]. destruct (A c C) as [a Ea].
    rewrite Ea in E'. now rewrite (run_bind _ _ _ _ _ (run_read_list _ _ _ Ea)).
  - apply (BinOp__release_run (_release fuel) fuel IH h x o left_ op right_ W Cl T R E C Le).
  - exists h'. split; [exact E' | exact U'].
  - exists h'. split; [exact E' | exact U'].
Qed.

(** X19.  Releasing a formula that is a tree.  In an expression graph whose
    operands and arguments are all in the store, let the nodes at and below
    [x] form a tree and let each of them be registered as a parent with its
    operands and arguments.  Then [_release] of [x] returns once the fuel
    exceeds the rank of [x]; for every node at or below [x] it has taken the
    first reference to that node out of the parents of each of its operands
    and arguments; and it has changed nothing else: nodes that are no
    operand or argument of a node at or below [x], the node [x] itself among
    them, the lists and the record of events are as they were. *)
Theorem release_of_a_tree fuel x h :
  well_formed rk h -> closed h -> tree h x -> registered h x ->
  is_Some (objects h !! x) -> rk x < fuel ->
  exists h',
    _release fuel x h = (Ok tt, h')
    /\ lists h' = lists h /\ trace h' = trace h
    /\ (forall p y o, descends h x p -> child h p y -> objects h !! y = Some o ->
          exists ps, list_remove_first p (_node_parents o) = Some ps
                     /\ objects h' !! y = Some {| class_ := class_ o; _node_parents := ps |})
    /\ (forall y, (forall p, descends h x p -> ~ child h p y) ->
          objects h' !! y = objects h !! y)
    /\ objects h' !! x = objects h !! x.
Proof.
  intros W Cl T R Ex Lt.
  destruct (release_unlinked fuel x h W Cl T R Ex Lt) as (h' & E' & Eh & _ & Fr & Rm).
  exists h'. split; [exact E'|]. split; [now rewrite Eh|]. split; [now rewrite Eh|].
  split; [|split].
  - intros p y o D Ch. apply Rm. now split.
  - intros y N. apply Fr. intros p [D Ch]. exact (N p D Ch).
  - apply Fr. intros p L. pose proof (links_below h x p x W L). lia.
Qed.

End ReleaseTree.


(** [VSUM(x) + 1], every node registered with its operands and arguments,
    is such a tree. *)
Lemma sums_tree : tree Sample.sums 3 /\ registered Sample.sums 3.
Proof.
  assert (K0 : objects Sample.sums !! 0 = Some (Cases.obj (Source {| column := "x" |}) [1]))
    by (vm_compute; reflexivity).
  assert (K1 : objects Sample.sums !! 1 = Some (Cases.obj (Call Sample.sums_call) [3]))
    by (vm_compute; reflexivity).
  assert (K2 : objects Sample.sums !! 2 = Some (Cases.obj (Num (VInt 1)) [3]))
    by (vm_compute; reflexivity).
  assert (K3 : objects Sample.sums !! 3 = Some (Cases.obj (BinOp 1 ast.Add 2) []))
    by (vm_compute; reflexivity).
  assert (C1 : children (lists Sample.sums) (Call Sample.sums_call) = [0])
    by (vm_compute; reflexivity).
  assert (D0 : forall z, descends Sample.sums 0 z -> z = 0).
  { intros z D. apply descends_inv in D as [->|(o & c & E & I & _)]; [reflexivity|].
    pose proof (eq_trans (eq_sym K0) E) as X. injection X as <-. now apply elem_of_nil in I. }
  assert (D2 : forall z, descends Sample.sums 2 z -> z = 2).
  { intros z D. apply descends_inv in D as [->|(o & c & E & I & _)]; [reflexivity|].
    pose proof (eq_trans (eq_sym K2) E) as X. injection X as <-. now apply elem_of_nil in I. }
  assert (D1 : forall z, descends Sample.sums 1 z -> z = 1 \/ z = 0).
  { intros z D. apply descends_inv in D as [->|(o & c & E & I & D)]; [now left|].
    pose proof (eq_trans (eq_sym K1) E) as X. injection X as <-.
    cbn [class_ Cases.obj] in I. rewrite C1 in I.
    apply list_elem_of_singleton in I as ->. right. now apply D0. }
  assert (D3 : forall z, descends Sample.sums 3 z -> z = 3 \/ z = 1 \/ z = 2 \/ z = 0).
  { intros z D. apply descends_inv in D as [->|(o & c & E & I & D)]; [now left|].
    pose proof (eq_trans (eq_sym K3) E) as X. injection X as <-. cbn in I.
    apply elem_of_cons in I as [->|I].
    - apply D1 in D as [-> | ->]; auto.
    - apply list_elem_of_singleton in I as ->. apply D2 in D as ->. auto. }
  split.
  - intros p o D E. apply D3 in D as [->|[->|[->| ->]]].
    + pose proof (eq_trans (eq_sym K3) E) as X. injection X as <-. cbn. split.
      * apply (bool_decide_unpack _). vm_compute. reflexivity.
      * intros c1 c2 y I1 I2 Y1 Y2.
        apply elem_of_cons in I1 as [->|I1]; [|apply list_elem_of_singleton in I1 as ->];
          apply elem_of_cons in I2 as [->|I2]; try reflexivity;
          try (apply list_elem_of_singleton in I2 as ->); try reflexivity.
        -- apply D2 in Y2 as ->. apply D1 in Y1 as [Y1|Y1]; discriminate.
        -- apply D2 in Y1 as ->. apply D1 in Y2 as [Y2|Y2]; discriminate.
    + pose proof (eq_trans (eq_sym K1) E) as X. injection X as <-.
      cbn [class_ Cases.obj]. rewrite C1. split.
      * apply (bool_decide_unpack _). vm_compute. reflexivity.
      * intros c1 c2 y I1 I2 _ _.
        apply list_elem_of_singleton in I1 as ->. now apply list_elem_of_singleton in I2 as ->.
    + pose proof (eq_trans (eq_sym K2) E) as X. injection X as <-. cbn. split.
      * apply NoDup_nil_2.
      * intros c1 c2 y I1. now apply elem_of_nil in I1.
    + pose proof (eq_trans (eq_sym K0) E) as X. injection X as <-. cbn. split.
      * apply NoDup_nil_2.
      * intros c1 c2 y I1. now apply elem_of_nil in I1.
  - intros p y D (o & E & I). apply D3 in D as [->|[->|[->| ->]]].
    + pose proof (eq_trans (eq_sym K3) E) as X. injection X as <-. cbn in I.
      apply elem_of_cons in I as [->|I].
      * eexists. split; [exact K1|]. left.
      * apply list_elem_of_singleton in I as ->. eexists. split; [exact K2|]. left.
    + pose proof (eq_trans (eq_sym K1) E) as X. injection X as <-.
      cbn [class_ Cases.obj] in I. rewrite C1 in I. apply list_elem_of_singleton in I as ->.
      eexists. split; [exact K0|]. left.
    + pose proof (eq_trans (eq_sym K2) E) as X. injection X as <-.
      now apply elem_of_nil in I.
    + pose proof (eq_trans (eq_sym K0) E) as X. injection X as <-.
      now apply elem_of_nil in I.
Qed.

(** Releasing the sum node of [VSUM(x) + 1] leaves no node of the formula
    with a parent. *)
Lemma release_of_a_tree_witness :
  Sample.parents_of Sample.sums <$> [0; 1; 2; 3] = [Some [1]; Some [3]; Some [3]; Some []]
  /\ exists h',
       _release 4 3 Sample.sums = (Ok tt, h')
       /\ Sample.parents_of h' <$> [0; 1; 2; 3] = [Some []; Some []; Some []; Some []].
Proof.
  split; [vm_compute; reflexivity|].
  destruct (release_of_a_tree (fun x => x) 4 3 Sample.sums) as (h' & E & _).
  - unfold well_formed. apply (bool_decide_unpack _). vm_compute. reflexivity.
  - unfold closed. apply (bool_decide_unpack _). vm_compute. reflexivity.
  - apply sums_tree.
  - apply sums_tree.
  - exists (Cases.obj (BinOp 1 ast.Add 2) []). vm_compute. reflexivity.
  - cbn. lia.
  - exists h'. split; [exact E|].
    assert (X : (_release 4 3 Sample.sums).2 = h') by (now rewrite E).
    rewrite <- X. vm_compute. reflexivity.
Defined.

(** ** The signs and the inversion *)

Section Signs.
Context `{Runtime}.

(** X20.  The unary operators other than [not].  A unary plus of a unary
    plus and an inversion of an inversion give what one gives, whatever the
    operand does: the same value or the same exception, in the same store.
    A missing operand goes through [+] and [-] as it is and is made 0 by
    [~], which returns every other operand as it is (it is no bitwise
    complement).  On a text that is not missing, [-] raises [TypeError]
    whereas [+] converts it with [float]. *)
Theorem UnaryOp_signs_and_inversion fuel x p1 p2 i1 i2 m1 index row_count filt h :
  is_node h p1 (UnaryOp ast.UAdd x) -> is_node h p2 (UnaryOp ast.UAdd p1) ->
  is_node h i1 (UnaryOp ast.Invert x) -> is_node h i2 (UnaryOp ast.Invert i1) ->
  is_node h m1 (UnaryOp ast.USub x) ->
  let eval fuel y := fvalue fuel y index row_count filt h in
  eval (2 + fuel) p2 = eval (1 + fuel) p1
  /\ eval (2 + fuel) i2 = eval (1 + fuel) i1
  /\ forall v h1, eval fuel x = (Ok v, h1) ->
       (is_missing v = true ->
          eval (1 + fuel) p1 = (Ok v, h1) /\ eval (1 + fuel) m1 = (Ok v, h1)
          /\ eval (1 + fuel) i1 = (Ok (VInt 0), h1))
       /\ (is_missing v = false ->
           eval (1 + fuel) i1 = (Ok v, h1)
           /\ forall s, v = VStr s ->
                eval (1 + fuel) m1 = (Raise TypeError, h1)
                /\ (forall f, float_of_str s = Ok f ->
                      eval (1 + fuel) p1 = (Ok (VFloat f), h1))
                /\ (forall e, float_of_str s = Raise e ->
                      eval (1 + fuel) p1 = (Raise e, h1))).
Proof.
  intros (o1 & E1 & C1) (o2 & E2 & C2) (o3 & E3 & C3) (o4 & E4 & C4) (o5 & E5 & C5) eval.
  subst eval. cbv beta.
  change (2 + fuel) with (S (S fuel)). change (1 + fuel) with (S fuel).
  rewrite (fvalue_UnaryOp (S fuel) p2 o2 _ _ _ _ _ h E2 C2).
  rewrite (fvalue_UnaryOp (S fuel) i2 o4 _ _ _ _ _ h E4 C4).
  rewrite (fvalue_UnaryOp fuel p1 o1 _ _ _ _ _ h E1 C1).
  rewrite (fvalue_UnaryOp fuel i1 o3 _ _ _ _ _ h E3 C3).
  rewrite (fvalue_UnaryOp fuel m1 o5 _ _ _ _ _ h E5 C5).
  split; [|split].
  - unfold UnaryOp_fvalue at 1. unfold mbind at 1, M_bind at 1.
    rewrite (fvalue_UnaryOp fuel p1 o1 _ _ _ _ _ h E1 C1).
    unfold UnaryOp_fvalue, mbind, M_bind.
    destruct (fvalue fuel x index row_count filt h) as [[v| | |] h1]; try reflexivity.
    destruct (is_missing v) eqn:Mv; cbn.
    + now rewrite Mv.
    + destruct v as [n|f|s|code label]; cbn.
      * now rewrite Mv.
      * now rewrite Mv.
      * unfold lift. destruct (float_of_str s) as [f| | |]; try reflexivity.
        cbn. now destruct (is_missing (VFloat f)).
      * now destruct (is_missing (VInt code)).
  - unfold UnaryOp_fvalue at 1. unfold mbind at 1, M_bind at 1.
    rewrite (fvalue_UnaryOp fuel i1 o3 _ _ _ _ _ h E3 C3).
    unfold UnaryOp_fvalue, mbind, M_bind.
    destruct (fvalue fuel x index row_count filt h) as [[v| | |] h1]; try reflexivity.
    destruct (is_missing v) eqn:Mv; cbn.
    + now destruct (is_missing (VInt 0)).
    + now rewrite Mv.
  - intros v h1 Ev. unfold UnaryOp_fvalue, mbind, M_bind. rewrite Ev. split.
    + intros ->. now repeat split.
    + intros ->. split; [reflexivity|]. intros s ->. cbn. split; [reflexivity|].
      unfold lift. split.
      * now intros f ->.
      * now intros e ->.
Qed.

End Signs.


(** On the text ["7"], with a [float] that accepts no text: [+(+"7")] raises
    what [+"7"] raises, [~(~"7")] is ["7"] and [-"7"] raises [TypeError]. *)
Lemma UnaryOp_signs_and_inversion_witness :
  fvalue 3 2 0 1 false Cases.signs = (Raise ValueError, Cases.signs)
  /\ fvalue 3 4 0 1 false Cases.signs = (Ok (VStr "7"), Cases.signs)
  /\ fvalue 2 5 0 1 false Cases.signs = (Raise TypeError, Cases.signs).
Proof.
  assert (N1 : is_node Cases.signs 1 (UnaryOp ast.UAdd 0))
    by (eexists; split; [vm_compute; reflexivity | reflexivity]).
  assert (N2 : is_node Cases.signs 2 (UnaryOp ast.UAdd 1))
    by (eexists; split; [vm_compute; reflexivity | reflexivity]).
  assert (N3 : is_node Cases.signs 3 (UnaryOp ast.Invert 0))
    by (eexists; split; [vm_compute; reflexivity | reflexivity]).
  assert (N4 : is_node Cases.signs 4 (UnaryOp ast.Invert 3))
    by (eexists; split; [vm_compute; reflexivity | reflexivity]).
  assert (N5 : is_node Cases.signs 5 (UnaryOp ast.USub 0))
    by (eexists; split; [vm_compute; reflexivity | reflexivity]).
  pose proof (UnaryOp_signs_and_inversion 1 0 1 2 3 4 5 0 1 false Cases.signs N1 N2 N3 N4 N5)
    as T.
  cbv zeta in T. destruct T as (P & I & V).
  assert (E0 : fvalue 1 0 0 1 false Cases.signs = (Ok (VStr "7"), Cases.signs))
    by (vm_compute; reflexivity).
  destruct (V _ _ E0) as [_ Vn]. destruct (Vn eq_refl) as (Ei & S).
  destruct (S "7" eq_refl) as (Em & _ & Er).
  split; [|split].
  - etransitivity; [exact P|]. exact (Er ValueError eq_refl).
  - etransitivity; [exact I|]. exact Ei.
  - exact Em.
Defined.
